(** * Particle field of the hero canvas (src/main.js)

    A shallow embedding of the particle-field animation engine of
    [src/main.js]: the sunset colour cycle, [Particle] with its [update]
    and [draw] methods, [init], [connectParticles], the
    [animate]/[startAnimation]/[stopAnimation] lifecycle and the event
    handlers that drive it; and of the rest of the script: [throttle] and
    the scroll listener, the debounced resize listener, the sunbeam flash,
    [updateSunsetIntensity], the magnetic buttons and the metric counters.

    Numbers.  A JavaScript number is modelled by [number]: an exact
    rational, or one of the three special values of IEEE-754 arithmetic
    (the two infinities and NaN).  Finite arithmetic is exact (no rounding
    to 53 bits, no overflow, no signed zero); the special values follow
    the rules of the language, so that [0/0] is [NaN] and [NaN]
    propagates and compares false with everything.  [Math.sqrt] rounds
    down to a multiple of [2^-52] and is exact at 0.

    Rounding.  The script computes on binary64 numbers, where every
    operation rounds to the nearest double.  The statements are chosen to
    hold of the rounded computation as well: where a branch compares
    computed numbers, the hypotheses keep the exact values off the
    boundary (a distance of at most 149 or at least 151 around the radius
    150, a squared distance of the squared threshold plus 1, a position
    2^-20 beyond the canvas, a frame 1 ms before the end of a counter);
    bounds are closed and leave room for the rounding; an equation between
    numbers names the expression the code evaluates.  Inside these margins
    rounding decides, and the part Binary64 evaluates the branch
    conditions on primitive floats there.

    State.  The globals of the script are the fields of [World], together
    with what the script does to its host: the calls made on the 2D
    context, the frame requests pending, the values [Math.random()] has
    consumed.  Functions of the script take the world and return the new
    one; a function that can throw returns a [completion].  [Math.sin] and
    [Math.random] are parameters, in [Host].

    Timers.  A call of [setTimeout] leaves a pending timer with the time
    from which it may run; the host runs pending timers at times of its
    choice, never before they are due.  A run of the page is a list of
    timed actions, and it is [None] when the host would break this rule. *)

From Stdlib Require Import ZArith QArith Qround Qabs Qminmax Lqa Lia List Bool.
Import ListNotations.
From Stdlib Require String.
From Stdlib Require Import Floats.
Import String.StringSyntax.
Delimit Scope string_scope with string.

Set Implicit Arguments.
Local Open Scope Q_scope.

(** ** JavaScript numbers *)

Inductive number : Type :=
  | Fin (q : Q)
  | PosInf
  | NegInf
  | NaN.

Declare Scope js_scope.
Delimit Scope js_scope with js.
Bind Scope js_scope with number.

Definition Qlt_bool (a b : Q) : bool := negb (Qle_bool b a).

(** Sign of a rational as a comparison with zero. *)
Definition Qsgn (a : Q) : comparison := Z.compare (Qnum a) 0.

Definition of_Z (z : Z) : number := Fin (inject_Z z).
Definition of_N (n : N) : number := of_Z (Z.of_N n).
Definition of_nat (n : nat) : number := of_Z (Z.of_nat n).

Definition neg (a : number) : number :=
  match a with
  | Fin q => Fin (- q)
  | PosInf => NegInf
  | NegInf => PosInf
  | NaN => NaN
  end.

Definition add (a b : number) : number :=
  match a, b with
  | NaN, _ | _, NaN => NaN
  | Fin p, Fin q => Fin (p + q)
  | PosInf, NegInf | NegInf, PosInf => NaN
  | PosInf, _ | _, PosInf => PosInf
  | NegInf, _ | _, NegInf => NegInf
  end.

Definition sub (a b : number) : number := add a (neg b).

(** An infinity of the sign of [s], or NaN when [s] is zero. *)
Definition signed_inf (s : comparison) : number :=
  match s with
  | Gt => PosInf
  | Lt => NegInf
  | Eq => NaN
  end.

Definition mul (a b : number) : number :=
  match a, b with
  | NaN, _ | _, NaN => NaN
  | Fin p, Fin q => Fin (p * q)
  | Fin p, PosInf | PosInf, Fin p => signed_inf (Qsgn p)
  | Fin p, NegInf | NegInf, Fin p => signed_inf (CompOpp (Qsgn p))
  | PosInf, PosInf | NegInf, NegInf => PosInf
  | PosInf, NegInf | NegInf, PosInf => NegInf
  end.

(** Division.  A zero divisor is the positive zero: [p/0] is the infinity
    of the sign of [p], and [0/0] is NaN. *)
Definition div (a b : number) : number :=
  match a, b with
  | NaN, _ | _, NaN => NaN
  | Fin p, Fin q =>
      match Qsgn q with
      | Eq => signed_inf (Qsgn p)
      | _ => Fin (p / q)
      end
  | Fin _, _ => Fin 0
  | PosInf, Fin q => match Qsgn q with Lt => NegInf | _ => PosInf end
  | NegInf, Fin q => match Qsgn q with Lt => PosInf | _ => NegInf end
  | _, _ => NaN
  end.

(** The [%] operator: the remainder has the sign of the dividend. *)
Definition Qtrunc (a : Q) : Z :=
  match Qsgn a with
  | Lt => Qceiling a
  | _ => Qfloor a
  end.

Definition rem (a b : number) : number :=
  match a, b with
  | Fin p, Fin q =>
      match Qsgn q with
      | Eq => NaN
      | _ => Fin (p - q * inject_Z (Qtrunc (p / q)))
      end
  | Fin p, PosInf | Fin p, NegInf => Fin p
  | _, _ => NaN
  end.

(** [a < b]; false as soon as one side is NaN. *)
Definition lt (a b : number) : bool :=
  match a, b with
  | NaN, _ | _, NaN => false
  | Fin p, Fin q => Qlt_bool p q
  | Fin _, PosInf | NegInf, Fin _ | NegInf, PosInf => true
  | _, _ => false
  end.

Definition gt (a b : number) : bool := lt b a.

Infix "+" := add : js_scope.
Infix "-" := sub : js_scope.
Infix "*" := mul : js_scope.
Infix "/" := div : js_scope.
Infix "mod" := rem : js_scope.
Infix "<?" := lt (at level 70, no associativity) : js_scope.
Infix ">?" := gt (at level 70, no associativity) : js_scope.

(** Numeric equality of two numbers: equal rationals, or the same special
    value. *)
Definition num_eq (a b : number) : Prop :=
  match a, b with
  | Fin p, Fin q => p == q
  | PosInf, PosInf | NegInf, NegInf | NaN, NaN => True
  | _, _ => False
  end.

Infix "=n=" := num_eq (at level 70, no associativity).

Definition is_NaN (a : number) : bool :=
  match a with NaN => true | _ => false end.

Definition is_finite (a : number) : bool :=
  match a with Fin _ => true | _ => false end.

(** *** The [Math] object *)

Definition Math_floor (a : number) : number :=
  match a with
  | Fin q => of_Z (Qfloor q)
  | _ => a
  end.

(** [Math.round] rounds to the nearest integer, halves towards +infinity. *)
Definition Math_round (a : number) : number :=
  match a with
  | Fin q => of_Z (Qfloor (q + (1 # 2)))
  | _ => a
  end.

Definition Math_min (a b : number) : number :=
  match a, b with
  | NaN, _ | _, NaN => NaN
  | _, _ => if lt b a then b else a
  end.

(** [Math.sqrt].  The square root of a rational is rounded down to a
    multiple of [2^-52]; it is exact on the squares of such multiples, in
    particular at 0 and on squares of integers. *)
Definition sqrt_bits : Z := 52.

Definition Qsqrt (q : Q) : Q :=
  Qmake (Z.sqrt (Qfloor (q * inject_Z (2 ^ (2 * sqrt_bits)))))
        (Z.to_pos (2 ^ sqrt_bits)).

Definition Math_sqrt (a : number) : number :=
  match a with
  | Fin q => if Qlt_bool q 0 then NaN else Fin (Qsqrt q)
  | PosInf => PosInf
  | _ => NaN
  end.

(** [Math.PI] is the double nearest to pi, which is this rational. *)
Definition Math_PI : number := Fin (884279719003555 # 281474976710656).

(** ** Colour cycle *)

Record Color : Type := mkColor { r : number; g : number; b : number }.

Definition rgb (cr cg cb : Z) : Color :=
  {| r := of_Z cr; g := of_Z cg; b := of_Z cb |}.

Definition sunsetColors : list Color :=
  [ rgb 255 140 66;     (* Warm orange *)
    rgb 201 108 77;     (* Terracotta (base accent) *)
    rgb 212 165 116;    (* Gold *)
    rgb 255 120 80;     (* Coral *)
    rgb 180 100 120;    (* Dusty rose *)
    rgb 156 82 100;     (* Mauve *)
    rgb 201 108 77 ].   (* Back to terracotta *)

Definition interpolateColor (color1 color2 : Color) (factor : number) : Color :=
  {| r := Math_round (r color1 + (r color2 - r color1) * factor)%js;
     g := Math_round (g color1 + (g color2 - g color1) * factor)%js;
     b := Math_round (b color1 + (b color2 - b color1) * factor)%js |}.

(** [arr[i]] for a number [i]: the element when [i] is a non-negative
    integer below the length, [undefined] ([None]) otherwise. *)
Definition array_get (A : Type) (arr : list A) (i : number) : option A :=
  match i with
  | Fin q =>
      if Qeq_bool (inject_Z (Qfloor q)) q && (0 <=? Qfloor q)%Z
      then nth_error arr (Z.to_nat (Qfloor q))
      else None
  | _ => None
  end.

(** [getCurrentSunsetColor(offset)], reading the global [colorTime].
    [None] is the TypeError of reading [.r] of [undefined], when the index
    falls outside the palette. *)
Definition getCurrentSunsetColor (colorTime offset : number) : option Color :=
  let adjustedTime := ((colorTime + offset) mod of_Z 1)%js in
  let totalSegments := (of_nat (length sunsetColors) - of_Z 1)%js in
  let segment := (adjustedTime * totalSegments)%js in
  let index := Math_floor segment in
  let factor := (segment - index)%js in
  match array_get sunsetColors index,
        array_get sunsetColors
          (Math_min (index + of_Z 1)%js
                    (of_nat (length sunsetColors) - of_Z 1)%js)
  with
  | Some color1, Some color2 => Some (interpolateColor color1 color2 factor)
  | _, _ => None
  end.

(** ** Particles and the page state *)

Record Particle : Type := mkParticle {
  x : number;
  y : number;
  size : number;
  baseX : number;
  baseY : number;
  density : number;
  vx : number;
  vy : number;
  colorOffset : number;
  pulsePhase : number
}.

(** The value of [animationId]: [undefined] until the first frame is
    requested, the request id afterwards, [null] after a cancellation. *)
Inductive handle : Type :=
  | undefined
  | null
  | Id (n : nat).

(** A handle in a condition: [undefined], [null] and 0 are falsy. *)
Definition truthy (hd : handle) : bool :=
  match hd with
  | Id n => negb (Nat.eqb n 0)
  | _ => false
  end.

(** The [rgba(r, g, b, a)] style strings, kept structured. *)
Record rgba : Type := mkRgba {
  red : number;
  green : number;
  blue : number;
  alpha : number
}.

(** Calls on the 2D drawing context. *)
Inductive cmd : Type :=
  | clearRect (cx cy cw ch : number)
  | fillStyle (c : rgba)
  | strokeStyle (c : rgba)
  | lineWidth (n : number)
  | beginPath
  | arc (cx cy radius startAngle endAngle : number)
  | fill
  | moveTo (cx cy : number)
  | lineTo (cx cy : number)
  | stroke.

(** The functions of the host that have no rational model: [Math.sin], and
    [Math.random] as the sequence of the values it returns. *)
Record Host : Type := mkHost {
  Math_sin : number -> number;
  Math_random : nat -> number
}.

(** The globals of the script and the host state they act on: the calls
    made on the drawing context (oldest first), the pending
    [requestAnimationFrame(animate)] requests, the next request id and the
    number of [Math.random()] calls made so far. *)
Record World : Type := mkWorld {
  isMobile : bool;
  prefersReducedMotion : bool;
  canvas_width : N;
  canvas_height : N;
  particles : list Particle;
  mouseX : number;
  mouseY : number;
  animationId : handle;
  colorTime : number;
  isPageVisible : bool;
  isCanvasVisible : bool;
  isAnimating : bool;
  mouseTrackingEnabled : bool;
  ctx : list cmd;
  frameRequests : list nat;
  nextRequest : nat;
  randomCalls : nat
}.

Definition set_particles (w : World) (v : list Particle) : World :=
  mkWorld (isMobile w) (prefersReducedMotion w) (canvas_width w)
    (canvas_height w) v (mouseX w) (mouseY w) (animationId w) (colorTime w)
    (isPageVisible w) (isCanvasVisible w) (isAnimating w)
    (mouseTrackingEnabled w) (ctx w) (frameRequests w) (nextRequest w)
    (randomCalls w).

Definition set_mouse (w : World) (mx my : number) : World :=
  mkWorld (isMobile w) (prefersReducedMotion w) (canvas_width w)
    (canvas_height w) (particles w) mx my (animationId w) (colorTime w)
    (isPageVisible w) (isCanvasVisible w) (isAnimating w)
    (mouseTrackingEnabled w) (ctx w) (frameRequests w) (nextRequest w)
    (randomCalls w).

Definition set_animationId (w : World) (v : handle) : World :=
  mkWorld (isMobile w) (prefersReducedMotion w) (canvas_width w)
    (canvas_height w) (particles w) (mouseX w) (mouseY w) v (colorTime w)
    (isPageVisible w) (isCanvasVisible w) (isAnimating w)
    (mouseTrackingEnabled w) (ctx w) (frameRequests w) (nextRequest w)
    (randomCalls w).

Definition set_colorTime (w : World) (v : number) : World :=
  mkWorld (isMobile w) (prefersReducedMotion w) (canvas_width w)
    (canvas_height w) (particles w) (mouseX w) (mouseY w) (animationId w) v
    (isPageVisible w) (isCanvasVisible w) (isAnimating w)
    (mouseTrackingEnabled w) (ctx w) (frameRequests w) (nextRequest w)
    (randomCalls w).

Definition set_isPageVisible (w : World) (v : bool) : World :=
  mkWorld (isMobile w) (prefersReducedMotion w) (canvas_width w)
    (canvas_height w) (particles w) (mouseX w) (mouseY w) (animationId w)
    (colorTime w) v (isCanvasVisible w) (isAnimating w)
    (mouseTrackingEnabled w) (ctx w) (frameRequests w) (nextRequest w)
    (randomCalls w).

Definition set_isCanvasVisible (w : World) (v : bool) : World :=
  mkWorld (isMobile w) (prefersReducedMotion w) (canvas_width w)
    (canvas_height w) (particles w) (mouseX w) (mouseY w) (animationId w)
    (colorTime w) (isPageVisible w) v (isAnimating w)
    (mouseTrackingEnabled w) (ctx w) (frameRequests w) (nextRequest w)
    (randomCalls w).

Definition set_isAnimating (w : World) (v : bool) : World :=
  mkWorld (isMobile w) (prefersReducedMotion w) (canvas_width w)
    (canvas_height w) (particles w) (mouseX w) (mouseY w) (animationId w)
    (colorTime w) (isPageVisible w) (isCanvasVisible w) v
    (mouseTrackingEnabled w) (ctx w) (frameRequests w) (nextRequest w)
    (randomCalls w).

Definition set_ctx (w : World) (v : list cmd) : World :=
  mkWorld (isMobile w) (prefersReducedMotion w) (canvas_width w)
    (canvas_height w) (particles w) (mouseX w) (mouseY w) (animationId w)
    (colorTime w) (isPageVisible w) (isCanvasVisible w) (isAnimating w)
    (mouseTrackingEnabled w) v (frameRequests w) (nextRequest w)
    (randomCalls w).

Definition set_frames (w : World) (q : list nat) (next : nat) : World :=
  mkWorld (isMobile w) (prefersReducedMotion w) (canvas_width w)
    (canvas_height w) (particles w) (mouseX w) (mouseY w) (animationId w)
    (colorTime w) (isPageVisible w) (isCanvasVisible w) (isAnimating w)
    (mouseTrackingEnabled w) (ctx w) q next (randomCalls w).

Definition set_randomCalls (w : World) (v : nat) : World :=
  mkWorld (isMobile w) (prefersReducedMotion w) (canvas_width w)
    (canvas_height w) (particles w) (mouseX w) (mouseY w) (animationId w)
    (colorTime w) (isPageVisible w) (isCanvasVisible w) (isAnimating w)
    (mouseTrackingEnabled w) (ctx w) (frameRequests w) (nextRequest w) v.

Definition set_canvas (w : World) (cw ch : N) : World :=
  mkWorld (isMobile w) (prefersReducedMotion w) cw ch (particles w)
    (mouseX w) (mouseY w) (animationId w) (colorTime w) (isPageVisible w)
    (isCanvasVisible w) (isAnimating w) (mouseTrackingEnabled w) (ctx w)
    (frameRequests w) (nextRequest w) (randomCalls w).

(** Calls on the drawing context, in the order they are made. *)
Definition emits (cs : list cmd) (w : World) : World :=
  set_ctx w (ctx w ++ cs).

(** [requestAnimationFrame(animate)]: queues the request and returns its
    id. *)
Definition requestAnimationFrame (w : World) : nat * World :=
  (nextRequest w, set_frames w (frameRequests w ++ [nextRequest w])
                                (S (nextRequest w))).

(** [cancelAnimationFrame(id)]: drops the request from the queue. *)
Definition cancelAnimationFrame (id : nat) (w : World) : World :=
  set_frames w (filter (fun k => negb (Nat.eqb k id)) (frameRequests w))
             (nextRequest w).

(** How a call that may throw ends; the state reached is kept in both
    cases. *)
Inductive completion : Type :=
  | Normal (w : World)
  | Throw (w : World).

Definition andThen (c : completion) (k : World -> completion) : completion :=
  match c with
  | Normal w => k w
  | Throw w => Throw w
  end.

Notation "c >>= k" := (andThen c k) (at level 50, left associativity).

Definition final (c : completion) : World :=
  match c with Normal w | Throw w => w end.

Definition returns (c : completion) : bool :=
  match c with Normal _ => true | Throw _ => false end.

(** ** class Particle *)

(** [new Particle()]: eight calls of [Math.random()], in the order of the
    constructor. *)
Definition new_Particle (h : Host) (w : World) : Particle * World :=
  let k := randomCalls w in
  let px := (Math_random h k * of_N (canvas_width w))%js in
  let py := (Math_random h (k + 1) * of_N (canvas_height w))%js in
  ({| x := px;
      y := py;
      size := (Math_random h (k + 2) * of_Z 2 + of_Z 1)%js;
      baseX := px;
      baseY := py;
      density := (Math_random h (k + 3) * of_Z 30 + of_Z 1)%js;
      vx := ((Math_random h (k + 4) - Fin 0.5) * Fin 0.5)%js;
      vy := ((Math_random h (k + 5) - Fin 0.5) * Fin 0.5)%js;
      colorOffset := (Math_random h (k + 6) * Fin 0.3)%js;
      pulsePhase := (Math_random h (k + 7) * Math_PI * of_Z 2)%js |},
   set_randomCalls w (k + 8)).

Definition set_position (p : Particle) (px py : number) : Particle :=
  mkParticle px py (size p) (baseX p) (baseY p) (density p) (vx p) (vy p)
    (colorOffset p) (pulsePhase p).

Definition set_vx (p : Particle) (v : number) : Particle :=
  mkParticle (x p) (y p) (size p) (baseX p) (baseY p) (density p) v (vy p)
    (colorOffset p) (pulsePhase p).

Definition set_vy (p : Particle) (v : number) : Particle :=
  mkParticle (x p) (y p) (size p) (baseX p) (baseY p) (density p) (vx p) v
    (colorOffset p) (pulsePhase p).

(** The distance to the pointer computed at the top of [update]. *)
Definition pointer_distance (w : World) (p : Particle) : number :=
  let dx := (mouseX w - x p)%js in
  let dy := (mouseY w - y p)%js in
  Math_sqrt (dx * dx + dy * dy)%js.

(** [Particle.prototype.update], on the particle [p] as [this]. *)
Definition update (w : World) (p : Particle) : Particle :=
  let dx := (mouseX w - x p)%js in
  let dy := (mouseY w - y p)%js in
  let distance := Math_sqrt (dx * dx + dy * dy)%js in
  let forceDirectionX := (dx / distance)%js in
  let forceDirectionY := (dy / distance)%js in
  let maxDistance := of_Z 150 in
  let force := ((maxDistance - distance) / maxDistance)%js in
  let directionX := (forceDirectionX * force * density p * Fin 0.5)%js in
  let directionY := (forceDirectionY * force * density p * Fin 0.5)%js in
  if (distance <? maxDistance)%js then
    set_position p (x p - directionX)%js (y p - directionY)%js
  else
    let p1 := set_position p (x p + vx p)%js (y p + vy p)%js in
    let p2 :=
      if (x p1 <? of_Z 0)%js || (x p1 >? of_N (canvas_width w))%js
      then set_vx p1 (vx p1 * of_Z (-1))%js else p1 in
    if (y p2 <? of_Z 0)%js || (y p2 >? of_N (canvas_height w))%js
    then set_vy p2 (vy p2 * of_Z (-1))%js else p2.

(** [Particle.prototype.draw]. *)
Definition draw (h : Host) (p : Particle) (w : World) : completion :=
  match getCurrentSunsetColor (colorTime w) (colorOffset p) with
  | None => Throw w
  | Some color =>
      let pulse :=
        (Fin 0.5 + Fin 0.3 *
           Math_sin h (colorTime w * Math_PI * of_Z 4 + pulsePhase p))%js in
      let w1 :=
        emits [ fillStyle (mkRgba (r color) (g color) (b color)
                                  (Fin 0.5 + pulse * Fin 0.3)%js);
                beginPath;
                arc (x p) (y p) (size p * (Fin 0.8 + pulse * Fin 0.4))%js
                    (of_Z 0) (Math_PI * of_Z 2)%js;
                fill ] w in
      (* Add subtle glow for larger particles *)
      if (size p >? Fin 1.5)%js then
        Normal
          (emits [ fillStyle (mkRgba (r color) (g color) (b color)
                                     (Fin 0.1 + pulse * Fin 0.1)%js);
                   beginPath;
                   arc (x p) (y p) (size p * of_Z 3)%js
                       (of_Z 0) (Math_PI * of_Z 2)%js;
                   fill ] w1)
      else Normal w1
  end.

(** ** init *)

Definition maxParticles (w : World) : Z :=
  if prefersReducedMotion w then 20   (* Minimal particles for reduced motion *)
  else if isMobile w then 40          (* Reduced for mobile performance *)
  else 100.

Definition densityFactor (w : World) : Z :=
  if prefersReducedMotion w then 30000
  else if isMobile w then 20000
  else 15000.

Definition numberOfParticles (w : World) : number :=
  Math_min
    (of_N (canvas_width w) * of_N (canvas_height w) / of_Z (densityFactor w))%js
    (of_Z (maxParticles w)).

(** [for (let i = ...; i < n; i++) particles.push(new Particle())], with
    [fuel] bounding the number of iterations; [None] when it runs out. *)
Fixpoint init_loop (fuel : nat) (h : Host) (i n : number) (w : World)
  : option World :=
  if (i <? n)%js then
    match fuel with
    | O => None
    | S fuel' =>
        let (p, w1) := new_Particle h w in
        init_loop fuel' h (i + of_Z 1)%js n
                  (set_particles w1 (particles w1 ++ [p]))
    end
  else Some w.

Definition init (fuel : nat) (h : Host) (w : World) : option World :=
  let w0 := set_particles w [] in
  init_loop fuel h (of_Z 0) (numberOfParticles w0) w0.

(** ** connectParticles *)

(** Adjust connection distance based on device *)
Definition connectDistance (w : World) : Z :=
  if isMobile w then 100 else 120.

(** The body of the inner loop for the pair [particles[a]], [particles[b]]:
    the calls it makes on the context ([[]] on [continue]), or [None] when
    sampling a colour throws. *)
Definition connect_pair (w : World) (pa pb : Particle) : option (list cmd) :=
  let maxDistance := of_Z (connectDistance w) in
  let maxDistanceSquared := (maxDistance * maxDistance)%js in
  let dx := (x pa - x pb)%js in
  let dy := (y pa - y pb)%js in
  let distanceSquared := (dx * dx + dy * dy)%js in
  if (distanceSquared >? maxDistanceSquared)%js then Some []
  else
    let distance := Math_sqrt distanceSquared in
    let opacity := (of_Z 1 - distance / maxDistance)%js in
    match getCurrentSunsetColor (colorTime w) (colorOffset pa),
          getCurrentSunsetColor (colorTime w) (colorOffset pb) with
    | Some colorA, Some colorB =>
        let avgColor := interpolateColor colorA colorB (Fin 0.5) in
        Some [ strokeStyle (mkRgba (r avgColor) (g avgColor) (b avgColor)
                                   (opacity * Fin 0.25)%js);
               lineWidth (of_Z 1);
               beginPath;
               moveTo (x pa) (y pa);
               lineTo (x pb) (y pb);
               stroke ]
    | _, _ => None
    end.

(** The inner loop: [pa] against every later particle. *)
Fixpoint connect_from (pa : Particle) (later : list Particle) (w : World)
  : completion :=
  match later with
  | [] => Normal w
  | pb :: later' =>
      match connect_pair w pa pb with
      | Some cs => connect_from pa later' (emits cs w)
      | None => Throw w
      end
  end.

(** The outer loop over the particles that remain. *)
Fixpoint connect_all (ps : list Particle) (w : World) : completion :=
  match ps with
  | [] => Normal w
  | pa :: later => connect_from pa later w >>= connect_all later
  end.

Definition connectParticles (w : World) : completion :=
  connect_all (particles w) w.

(** ** The render loop *)

(** [particles.forEach(particle => { particle.update(); particle.draw(); })]:
    [done] are the particles already visited, [todo] those to come. *)
Fixpoint forEach_update_draw (h : Host) (done todo : list Particle) (w : World)
  : completion :=
  match todo with
  | [] => Normal w
  | p :: todo' =>
      let p' := update w p in
      draw h p' (set_particles w (done ++ p' :: todo'))
        >>= forEach_update_draw h (done ++ [p']) todo'
  end.

Definition animate (h : Host) (w : World) : completion :=
  (* Only animate if page is visible and canvas is in viewport *)
  if negb (isPageVisible w) || negb (isCanvasVisible w) then
    Normal (set_isAnimating w false)
  else
    let w1 := set_isAnimating w true in
    let w2 := emits [clearRect (of_Z 0) (of_Z 0) (of_N (canvas_width w1))
                               (of_N (canvas_height w1))] w1 in
    let w3 := set_colorTime w2 ((colorTime w2 + Fin 0.0008) mod of_Z 1)%js in
    forEach_update_draw h [] (particles w3) w3
      >>= connectParticles
      >>= fun w4 =>
            let (id, w5) := requestAnimationFrame w4 in
            Normal (set_animationId w5 (Id id)).

Definition startAnimation (h : Host) (w : World) : completion :=
  if negb (isAnimating w) && isPageVisible w && isCanvasVisible w
  then animate h w
  else Normal w.

Definition stopAnimation (w : World) : World :=
  let w1 :=
    if truthy (animationId w) then
      match animationId w with
      | Id id => set_animationId (cancelAnimationFrame id w) null
      | _ => w
      end
    else w in
  set_isAnimating w1 false.

(** ** Event handlers *)

(** [handleMouseMove]; [handleTouchMove] is the same function of the
    coordinates of the first touch. *)
Definition handleMouseMove (clientX clientY : number) (w : World) : World :=
  if mouseTrackingEnabled w && isAnimating w
  then set_mouse w clientX clientY
  else w.

(** The [visibilitychange] listener; [hidden] is [document.hidden]. *)
Definition onVisibilityChange (h : Host) (hidden : bool) (w : World)
  : completion :=
  let w1 := set_isPageVisible w (negb hidden) in
  if isPageVisible w1 && isCanvasVisible w1
  then startAnimation h w1
  else Normal (stopAnimation w1).

(** The callback of [canvasObserver], over the [isIntersecting] flags of
    its entries. *)
Fixpoint onIntersection (h : Host) (entries : list bool) (w : World)
  : completion :=
  match entries with
  | [] => Normal w
  | isIntersecting :: entries' =>
      let w1 := set_isCanvasVisible w isIntersecting in
      (if isCanvasVisible w1 && isPageVisible w1
       then startAnimation h w1
       else Normal (stopAnimation w1))
        >>= onIntersection h entries'
  end.

(** The host runs the pending frame request [id]: the request leaves the
    queue and [animate] is called. *)
Definition runFrame (h : Host) (id : nat) (w : World) : completion :=
  if existsb (Nat.eqb id) (frameRequests w)
  then animate h (cancelAnimationFrame id w)
  else Normal w.

(** The (debounced) [resize] listener: [resizeCanvas(); init();]. *)
Definition onResize (fuel : nat) (h : Host) (innerWidth innerHeight : N)
  (w : World) : option World :=
  init fuel h (set_canvas w innerWidth innerHeight).

(** What can happen on the page after the script has been loaded. *)
Inductive event : Type :=
  | MouseMove (clientX clientY : number)
  | VisibilityChange (hidden : bool)
  | Intersection (entries : list bool)
  | Frame (id : nat)
  | Resize (innerWidth innerHeight : N)
  | StartAnimation
  | StopAnimation.

(** One event on the page.  A handler that throws leaves the state it
    reached. *)
Definition handle_event (fuel : nat) (h : Host) (e : event) (w : World)
  : option World :=
  match e with
  | MouseMove cx cy => Some (handleMouseMove cx cy w)
  | VisibilityChange hidden => Some (final (onVisibilityChange h hidden w))
  | Intersection entries => Some (final (onIntersection h entries w))
  | Frame id => Some (final (runFrame h id w))
  | Resize iw ih => onResize fuel h iw ih w
  | StartAnimation => Some (final (startAnimation h w))
  | StopAnimation => Some (stopAnimation w)
  end.

(** Events in sequence; [None] when a rebuild runs out of fuel. *)
Fixpoint run_events (fuel : nat) (h : Host) (es : list event) (w : World)
  : option World :=
  match es with
  | [] => Some w
  | e :: es' =>
      match handle_event fuel h e w with
      | Some w' => run_events fuel h es' w'
      | None => None
      end
  end.

(** The state in which the script leaves its globals before it calls
    [resizeCanvas(); init(); startAnimation();]. *)
Definition freshly_loaded (w : World) : Prop :=
  particles w = [] /\
  mouseX w = of_Z 0 /\ mouseY w = of_Z 0 /\
  animationId w = undefined /\
  colorTime w = of_Z 0 /\
  isCanvasVisible w = true /\
  isAnimating w = false /\
  mouseTrackingEnabled w = true /\
  frameRequests w = [] /\
  nextRequest w <> O.

(** * Vocabulary of the statements *)

(** ** init *)

(** The area of the canvas divided by the density factor of the profile,
    capped by the profile's maximum, as a rational. *)
Definition capped_density (w : World) : Q :=
  Qmin (inject_Z (Z.of_N (canvas_width w) * Z.of_N (canvas_height w))
          / inject_Z (densityFactor w))
       (inject_Z (maxParticles w)).

(** ** Colour cycle *)

(** The rational that [a % 1] evaluates to. *)
Definition wrap1 (a : Q) : Q :=
  a - inject_Z 1 * inject_Z (Qtrunc (a / inject_Z 1)).

(** The value of [segment] in [getCurrentSunsetColor] when
    [colorTime + offset] is [a]. *)
Definition segment_of (a : Q) : Q := wrap1 a * (inject_Z 7 + - inject_Z 1).

(** The integer [Math.round] returns on the rational [v]. *)
Definition round_half_up (v : Q) : Z := Qfloor (v + (1 # 2)).

(** The rational [c1 + (c2 - c1) * f] that [interpolateColor] rounds. *)
Definition mix (c1 c2 : Z) (f : Q) : Q :=
  inject_Z c1 + (inject_Z c2 + - inject_Z c1) * f.

(** The colour sampled when the clock stands at phase [p], with the
    default offset [0]. *)
Definition colorAt (p : Q) : option Color :=
  getCurrentSunsetColor (Fin p) (of_Z 0).

(** A colour channel that is an integer of [0..255]. *)
Definition channel_ok (n : number) : Prop :=
  exists z : Z, n = of_Z z /\ (0 <= z <= 255)%Z.

(** Two finite numbers at most [eps] apart. *)
Definition within (eps : Q) (a c : number) : Prop :=
  match a, c with
  | Fin u, Fin v => Qabs (u - v) <= eps
  | _, _ => False
  end.

Definition colors_within (eps : Q) (c c' : Color) : Prop :=
  within eps (r c) (r c') /\ within eps (g c) (g c') /\ within eps (b c) (b c').

(** The distance of two phases on the circle obtained by gluing 1 to 0. *)
Definition circle_distance (p q : Q) : Q :=
  Qmin (Qabs (p - q)) (1 - Qabs (p - q)).

(** Continuity of the sampling on the phase circle, wrap included, up to
    the unit step of [Math.round]: channels are integers, so that samples
    at phases close on the circle are asked to differ by little more than
    one unit in every channel.  The unit steps alone do not break it: on
    the interval the sampling is continuous in this sense. *)
Definition continuous_on_phase_circle : Prop :=
  forall eps : Q, 0 < eps ->
  exists delta : Q, 0 < delta /\
    forall p q : Q, 0 <= p < 1 -> 0 <= q < 1 ->
      circle_distance p q < delta ->
      exists c c', colorAt p = Some c /\ colorAt q = Some c' /\
                   colors_within (1 + eps) c c'.

(** The same on the interval [0,1), where the phases just below 1 are far
    from phase 0. *)
Definition continuous_on_phase_interval : Prop :=
  forall eps : Q, 0 < eps ->
  exists delta : Q, 0 < delta /\
    forall p q : Q, 0 <= p < 1 -> 0 <= q < 1 ->
      Qabs (p - q) < delta ->
      exists c c', colorAt p = Some c /\ colorAt q = Some c' /\
                   colors_within (1 + eps) c c'.

(** The colour clock is finite and not negative, as [animate] leaves it. *)
Definition clock_ok (w : World) : Prop :=
  exists t : Q, colorTime w = Fin t /\ 0 <= t.

(** The colour offset of a particle is finite and not negative, as the
    constructor leaves it. *)
Definition offset_ok (p : Particle) : Prop :=
  exists o : Q, colorOffset p = Fin o /\ 0 <= o.

Definition colours_ok (w : World) : Prop :=
  clock_ok w /\ Forall offset_ok (particles w).

(** ** Particles *)

(** The magnitude of a number. *)
Definition magnitude (a : number) : number :=
  match a with
  | Fin q => Fin (Qabs q)
  | NaN => NaN
  | _ => PosInf
  end.

(** [p'] is [p] but for its position and the signs of its velocity: it
    has the size, density, colour offset, pulse phase and base position of
    [p], and velocity components of the same magnitudes. *)
Definition same_creation_attributes (p p' : Particle) : Prop :=
  size p' = size p /\ density p' = density p /\
  colorOffset p' = colorOffset p /\ pulsePhase p' = pulsePhase p /\
  magnitude (vx p') =n= magnitude (vx p) /\
  magnitude (vy p') =n= magnitude (vy p) /\
  baseX p' = baseX p /\ baseY p' = baseY p.

(** [l] with its element [i] replaced by [v]: what is left in the array
    after the object [l[i]] has been mutated into [v]. *)
Fixpoint replace_nth (A : Type) (i : nat) (v : A) (l : list A) : list A :=
  match l, i with
  | [], _ => []
  | _ :: l', O => v :: l'
  | a :: l', S i' => a :: replace_nth i' v l'
  end.

(** A method call on [particles[i]], or a change of what the methods read:
    the pointer, the colour clock and the canvas extent. *)
Inductive call : Type :=
  | call_update (i : nat)
  | call_draw (i : nat)
  | environment (mx my ct : number) (cw ch : N).

Definition perform (h : Host) (w : World) (c : call) : World :=
  match c with
  | call_update i =>
      match nth_error (particles w) i with
      | Some p => set_particles w (replace_nth i (update w p) (particles w))
      | None => w
      end
  | call_draw i =>
      match nth_error (particles w) i with
      | Some p => final (draw h p w)
      | None => w
      end
  | environment mx my ct cw ch =>
      set_canvas (set_colorTime (set_mouse w mx my) ct) cw ch
  end.

(** ** connectParticles *)

(** The pairs the two loops of [connectParticles] visit, in their order. *)
Fixpoint unordered_pairs (A : Type) (l : list A) : list (A * A) :=
  match l with
  | [] => []
  | a :: l' => map (pair a) l' ++ unordered_pairs l'
  end.

(** The calls made for one pair; none when the body throws. *)
Definition pair_lines (w : World) (ab : Particle * Particle) : list cmd :=
  match connect_pair w (fst ab) (snd ab) with
  | Some cs => cs
  | None => []
  end.

(** ** Lifecycle *)

(** [Math.random()] returns finite numbers of [0,1). *)
Definition random_ok (h : Host) : Prop :=
  forall k : nat, exists q : Q, Math_random h k = Fin q /\ 0 <= q < 1.

(** The render loop is either stopped with no frame requested, or running
    with exactly one frame requested, the one [animationId] names. *)
Definition loop_inv (w : World) : Prop :=
  nextRequest w <> O /\
  ((isAnimating w = false /\ frameRequests w = []) \/
   (isAnimating w = true /\
    exists id : nat,
      id <> O /\ frameRequests w = [id] /\ animationId w = Id id)).

Definition well_formed (w : World) : Prop := loop_inv w /\ colours_ok w.

(** [w'] has the loop state, the clock and the visibility flags of [w]. *)
Definition same_loop (w w' : World) : Prop :=
  isAnimating w' = isAnimating w /\
  frameRequests w' = frameRequests w /\
  nextRequest w' = nextRequest w /\
  animationId w' = animationId w /\
  isPageVisible w' = isPageVisible w /\
  isCanvasVisible w' = isCanvasVisible w /\
  colorTime w' = colorTime w.

(** ** Sample pages and particles *)

(** A page as the script finds it: the two profile flags and the viewport,
    the pointer never moved, nothing drawn or requested yet. *)
Definition page (mobile reduced : bool) (innerWidth innerHeight : N) : World :=
  mkWorld mobile reduced innerWidth innerHeight [] (of_Z 0) (of_Z 0) undefined
    (of_Z 0) true true false true [] [] 1 0.

(** A host whose [Math.random()] always returns one half. *)
Definition still_host : Host := mkHost (fun _ => of_Z 0) (fun _ => Fin 0.5).

(** A particle at [(px, py)] drifting by [(0.1, 0.2)] per frame. *)
Definition particle_at (px py : number) : Particle :=
  mkParticle px py (of_Z 2) px py (of_Z 3) (Fin 0.1) (Fin 0.2) (Fin 0.1)
    (of_Z 0).

Definition particle_30_40 : Particle := particle_at (of_Z 30) (of_Z 40).

Definition particle_at_origin : Particle := particle_at (of_Z 0) (of_Z 0).

Definition particle_at_right_edge : Particle :=
  particle_at (Fin 999.95) (of_Z 400).

(** A page of 1000 by 1000 with two particles on the same spot and a
    third one far from them. *)
Definition sample_field : World :=
  set_particles (page false false 1000 1000)
    [particle_30_40; particle_30_40; particle_at_right_edge].

(** The script's start-up, [resizeCanvas(); init(); startAnimation();],
    followed by a frame, the tab being hidden and shown again, and the
    unload of the page. *)
Definition sample_session : list event :=
  [ Resize 1024 768; StartAnimation; Frame 1;
    VisibilityChange true; VisibilityChange false; StopAnimation ].

(** ** Creation ranges and repeated updates *)

(** A finite number of the closed interval from [lo] to [hi]. *)
Definition inside (lo hi : Q) (a : number) : Prop :=
  exists q : Q, a = Fin q /\ lo <= q /\ q <= hi.

(** What the constructor guarantees of a particle made on a canvas of
    [cw] by [ch].  The intervals are closed: a product such as
    [Math.random() * 2] can round up to its upper end. *)
Definition as_created (cw ch : N) (p : Particle) : Prop :=
  inside 0 (inject_Z (Z.of_N cw)) (x p) /\
  inside 0 (inject_Z (Z.of_N ch)) (y p) /\
  inside 1 3 (size p) /\
  baseX p = x p /\ baseY p = y p /\
  inside 1 31 (density p) /\
  inside (-0.25) 0.25 (vx p) /\
  inside (-0.25) 0.25 (vy p) /\
  inside 0 0.3 (colorOffset p) /\
  inside 0 (884279719003555 # 140737488355328) (pulsePhase p).

(** [update] called once in each of the worlds [ws], in turn. *)
Definition updates (ws : list World) (p : Particle) : Particle :=
  fold_left (fun q w => update w q) ws p.

(** ** Drawing, sampling and the clock *)

(** [Math.sin] returns a finite number of [-1,1] on every finite number. *)
Definition sin_ok (h : Host) : Prop :=
  forall q : Q, exists v : Q, Math_sin h (Fin q) = Fin v /\ -1 <= v /\ v <= 1.

(** A channel value between the values [c1] and [c2], in either order. *)
Definition channel_between (c1 c2 c : number) : Prop :=
  exists z1 z2 z : Z,
    c1 = of_Z z1 /\ c2 = of_Z z2 /\ c = of_Z z /\
    (Z.min z1 z2 <= z <= Z.max z1 z2)%Z.

Definition color_between (c1 c2 c : Color) : Prop :=
  channel_between (r c1) (r c2) (r c) /\
  channel_between (g c1) (g c2) (g c) /\
  channel_between (b c1) (b c2) (b c).

(** The statement [colorTime = (colorTime + 0.0008) % 1] of [animate], as
    a function of the clock. *)
Definition next_colorTime (ct : number) : number :=
  ((ct + Fin 0.0008) mod of_Z 1)%js.

(** ** Visibility *)

(** The events that can neither show a hidden page nor rebuild the
    particles: everything but [visibilitychange] with [document.hidden]
    false and [resize]. *)
Definition keeps_hidden (e : event) : bool :=
  match e with
  | VisibilityChange hidden => hidden
  | Resize _ _ => false
  | _ => true
  end.

(** The events that report a pointer position: a mouse move, or a touch
    move, which [MouseMove] stands for as well. *)
Definition pointer_event (e : event) : bool :=
  match e with
  | MouseMove _ _ => true
  | _ => false
  end.

(** The loop is marked running only with both visibility signals true. *)
Definition running_visible (w : World) : Prop :=
  isAnimating w = true -> isPageVisible w = true /\ isCanvasVisible w = true.

(** ** Timers: throttle, the scroll and resize listeners, the sunbeam flash *)

(** Timers.  Time is in milliseconds.  A call of [setTimeout] leaves a
    pending timer; the host runs a pending timer at a time of its choice
    that is not before the timer is due, and a timer runs at most once.
    [to_long] is the conversion of a delay to the IDL type [long]: the
    integer part, modulo [2^32], read as a signed 32-bit integer; 0 for
    NaN and the infinities. *)
Definition to_long (a : number) : Z :=
  match a with
  | Fin q =>
      let m := (Qtrunc q mod 2 ^ 32)%Z in
      if (2 ^ 31 <=? m)%Z then (m - 2 ^ 32)%Z else m
  | _ => 0%Z
  end.

(** The delay [setTimeout] waits at least: a negative one counts as 0. *)
Definition timeout_ms (delay : number) : Q := inject_Z (Z.max 0 (to_long delay)).

Record timer (A : Type) : Type := mkTimer {
  timer_id : nat;
  due : Q;
  task : A
}.

Record timers (A : Type) : Type := mkTimers {
  pending : list (timer A);
  nextTimer : nat
}.

(** [setTimeout(task, delay)] called at time [now]; returns the timer id. *)
Definition setTimeout (A : Type) (now : Q) (a : A) (delay : number)
  (ts : timers A) : nat * timers A :=
  (nextTimer ts,
   mkTimers (pending ts ++ [mkTimer (nextTimer ts) (now + timeout_ms delay) a])
            (S (nextTimer ts))).

(** [clearTimeout(id)]; [None] is [undefined], which clears nothing. *)
Definition clearTimeout (A : Type) (id : option nat) (ts : timers A)
  : timers A :=
  match id with
  | Some i =>
      mkTimers (filter (fun t => negb (Nat.eqb (timer_id t) i)) (pending ts))
               (nextTimer ts)
  | None => ts
  end.

(** The host takes the timer [id] to run it at time [now]: [None] when no
    such timer is pending or when it is not due yet. *)
Definition take (A : Type) (now : Q) (id : nat) (ts : timers A)
  : option (A * timers A) :=
  match find (fun t => Nat.eqb (timer_id t) id) (pending ts) with
  | Some t =>
      if Qle_bool (due t) now then Some (task t, clearTimeout (Some id) ts)
      else None
  | None => None
  end.

(** [!v] for a variable that is [undefined] ([None]) or a boolean. *)
Definition falsy (v : option bool) : bool :=
  match v with
  | Some true => false
  | _ => true
  end.

(** [throttle(func, limit)].  [func] acts on a state of type [S]; the
    closure holds [inThrottle]. *)
Record throttled (S : Type) : Type := mkThrottled {
  inThrottle : option bool;
  th_timers : timers unit;
  th_clock : Q;
  th_target : S
}.

(** The closure as [throttle] returns it: [let inThrottle;]. *)
Definition throttle (S : Type) (target : S) (now : Q) : throttled S :=
  mkThrottled None (mkTimers [] 1) now target.

(** A call of the function [throttle] returned, at time [now]. *)
Definition throttled_call (A S : Type) (func : A -> S -> S) (limit : number)
  (now : Q) (args : A) (s : throttled S) : throttled S :=
  if falsy (inThrottle s) then
    let target := func args (th_target s) in
    let (_, ts) := setTimeout now tt limit (th_timers s) in
    mkThrottled (Some true) ts now target
  else mkThrottled (inThrottle s) (th_timers s) now (th_target s).

(** The timer callback [() => inThrottle = false], run by the host. *)
Definition throttle_release (S : Type) (now : Q) (id : nat) (s : throttled S)
  : option (throttled S) :=
  match take now id (th_timers s) with
  | Some (_, ts) => Some (mkThrottled (Some false) ts now (th_target s))
  | None => None
  end.

(** What happens to a throttled function: it is called, or the host runs
    one of its timers. *)
Inductive th_action (A : Type) : Type :=
  | Call (t : Q) (args : A)
  | Release (t : Q) (id : nat).
Arguments Release {A} t id.

Definition th_time (A : Type) (act : th_action A) : Q :=
  match act with
  | Call t _ => t
  | Release t _ => t
  end.

(** One action; [None] when time would run backwards or the host would
    run a timer that is not pending or not due. *)
Definition th_step (A S : Type) (func : A -> S -> S) (limit : number)
  (act : th_action A) (s : throttled S) : option (throttled S) :=
  if Qle_bool (th_clock s) (th_time act) then
    match act with
    | Call t args => Some (throttled_call func limit t args s)
    | Release t id => throttle_release t id s
    end
  else None.

Fixpoint th_run (A S : Type) (func : A -> S -> S) (limit : number)
  (acts : list (th_action A)) (s : throttled S) : option (throttled S) :=
  match acts with
  | [] => Some s
  | act :: acts' =>
      match th_step func limit act s with
      | Some s' => th_run func limit acts' s'
      | None => None
      end
  end.

(** [classList.add(token)] and [classList.remove(token)] on the list of
    the class names of an element. *)
Definition classList_add (token : String.string) (l : list String.string)
  : list String.string :=
  if existsb (String.eqb token) l then l else l ++ [token].

Definition classList_remove (token : String.string) (l : list String.string)
  : list String.string :=
  filter (fun c => negb (String.eqb c token)) l.

(** The function given to [throttle] for the scroll listener, on the class
    list of [nav]; [scrollY] is [window.scrollY] at the call. *)
Definition nav_scroll (scrollY : number) (nav : list String.string)
  : list String.string :=
  if (scrollY >? of_Z 50)%js then classList_add "scrolled"%string nav
  else classList_remove "scrolled"%string nav.

Definition handleScroll : Q -> number -> throttled (list String.string) ->
                          throttled (list String.string) :=
  throttled_call nav_scroll (of_Z 16). (* ~60fps *)

(** The scroll listener from the load of the script on. *)
Definition scroll_run : list (th_action number) ->
                        throttled (list String.string) ->
                        option (throttled (list String.string)) :=
  th_run nav_scroll (of_Z 16).

(** The [resize] listener and its timer. *)
Record Resizer : Type := mkResizer {
  resizeTimeout : option nat;
  rs_timers : timers unit;
  rs_clock : Q;
  rs_world : World
}.

(** [let resizeTimeout;] *)
Definition resize_listening (w : World) (now : Q) : Resizer :=
  mkResizer None (mkTimers [] 1) now w.

(** The listener, on a [resize] event at time [now]. *)
Definition on_resize_event (now : Q) (s : Resizer) : Resizer :=
  let ts := clearTimeout (resizeTimeout s) (rs_timers s) in
  let (id, ts') := setTimeout now tt (of_Z 250) ts in
  mkResizer (Some id) ts' now (rs_world s).

(** The timer callback [() => { resizeCanvas(); init(); }], run by the host
    when the window measures [innerWidth] by [innerHeight]. *)
Definition resize_timeout (fuel : nat) (h : Host) (now : Q) (id : nat)
  (innerWidth innerHeight : N) (s : Resizer) : option Resizer :=
  match take now id (rs_timers s) with
  | Some (_, ts) =>
      match onResize fuel h innerWidth innerHeight (rs_world s) with
      | Some w => Some (mkResizer (resizeTimeout s) ts now w)
      | None => None
      end
  | None => None
  end.

Inductive rs_action : Type :=
  | ResizeEvent (t : Q)
  | ResizeTimeout (t : Q) (id : nat) (innerWidth innerHeight : N).

Definition rs_time (act : rs_action) : Q :=
  match act with
  | ResizeEvent t => t
  | ResizeTimeout t _ _ _ => t
  end.

Definition rs_step (fuel : nat) (h : Host) (act : rs_action) (s : Resizer)
  : option Resizer :=
  if Qle_bool (rs_clock s) (rs_time act) then
    match act with
    | ResizeEvent t => Some (on_resize_event t s)
    | ResizeTimeout t id iw ih => resize_timeout fuel h t id iw ih s
    end
  else None.

Fixpoint rs_run (fuel : nat) (h : Host) (acts : list rs_action) (s : Resizer)
  : option Resizer :=
  match acts with
  | [] => Some s
  | act :: acts' =>
      match rs_step fuel h act s with
      | Some s' => rs_run fuel h acts' s'
      | None => None
      end
  end.

(** The sunbeam flash.  The callbacks the script gives to [setTimeout]: *)
Inductive sun_task : Type :=
  | StartSunbeams       (* scheduleSunbeam, after the load *)
  | FlashAndSchedule    (* () => { triggerSunbeam(); scheduleSunbeam(); } *)
  | RemoveActive.       (* () => { sunbeam.classList.remove('active'); } *)

Definition is_RemoveActive (t : sun_task) : bool :=
  match t with RemoveActive => true | _ => false end.

Record Sunbeam : Type := mkSunbeam {
  sb_classList : list String.string;  (* of the [.sunbeam-flash] element *)
  sb_timers : timers sun_task;
  sb_clock : Q;
  sb_randomCalls : nat
}.

Definition triggerSunbeam (now : Q) (s : Sunbeam) : Sunbeam :=
  let cl := classList_remove "active"%string (sb_classList s) in
  let cl := classList_add "active"%string cl in
  (* Remove class after animation completes *)
  let (_, ts) := setTimeout now RemoveActive (of_Z 3000) (sb_timers s) in
  mkSunbeam cl ts now (sb_randomCalls s).

(** Trigger sunbeam randomly between 15-45 seconds *)
Definition scheduleSunbeam (h : Host) (now : Q) (s : Sunbeam) : Sunbeam :=
  let delay :=
    (of_Z 15000 + Math_random h (sb_randomCalls s) * of_Z 30000)%js in
  let (_, ts) := setTimeout now FlashAndSchedule delay (sb_timers s) in
  mkSunbeam (sb_classList s) ts now (S (sb_randomCalls s)).

(** The script's [setTimeout(scheduleSunbeam, 5000)], at time [now]; [k]
    values of [Math.random()] have been consumed before. *)
Definition sunbeam_loaded (cl : list String.string) (now : Q) (k : nat)
  : Sunbeam :=
  let (_, ts) := setTimeout now StartSunbeams (of_Z 5000) (mkTimers [] 1) in
  mkSunbeam cl ts now k.

(** The host runs the pending timer [id] at time [now]. *)
Definition sb_step (h : Host) (now : Q) (id : nat) (s : Sunbeam)
  : option Sunbeam :=
  if Qle_bool (sb_clock s) now then
    match take now id (sb_timers s) with
    | Some (t, ts) =>
        let s1 := mkSunbeam (sb_classList s) ts now (sb_randomCalls s) in
        Some match t with
             | StartSunbeams => scheduleSunbeam h now s1
             | FlashAndSchedule => scheduleSunbeam h now (triggerSunbeam now s1)
             | RemoveActive =>
                 mkSunbeam (classList_remove "active"%string (sb_classList s1))
                           ts now (sb_randomCalls s1)
             end
    | None => None
    end
  else None.

(** Timers run in sequence, each given by its time and its id. *)
Fixpoint sb_run (h : Host) (acts : list (Q * nat)) (s : Sunbeam)
  : option Sunbeam :=
  match acts with
  | [] => Some s
  | (t, id) :: acts' =>
      match sb_step h t id s with
      | Some s' => sb_run h acts' s'
      | None => None
      end
  end.

(** The timers of the flash chain: those that do not remove the class. *)
Definition chain_timers (s : Sunbeam) : list (timer sun_task) :=
  filter (fun t => negb (is_RemoveActive (task t))) (pending (sb_timers s)).

(** At most one release timer is pending, and none while calls go
    through. *)
Definition th_inv (S : Type) (s : throttled S) : Prop :=
  (length (pending (th_timers s)) <= 1)%nat /\
  (falsy (inThrottle s) = true -> pending (th_timers s) = []).

(** The listener has at most one timer pending, the one [resizeTimeout]
    names. *)
Definition rs_inv (s : Resizer) : Prop :=
  pending (rs_timers s) = [] \/
  exists tm, pending (rs_timers s) = [tm] /\
             resizeTimeout s = Some (timer_id tm).

(** Pending timers have distinct ids, below the next id. *)
Definition ids_ok (A : Type) (ts : timers A) : Prop :=
  Forall (fun tm => (timer_id tm < nextTimer ts)%nat) (pending ts) /\
  forall tm tm', In tm (pending ts) -> In tm' (pending ts) ->
                 timer_id tm = timer_id tm' -> tm = tm'.

(** The flash chain: one timer of the chain is pending, and while the
    element has the class [active] a timer that removes it is pending. *)
Definition sb_inv (s : Sunbeam) : Prop :=
  ids_ok (sb_timers s) /\
  (exists tm, chain_timers s = [tm]) /\
  (In "active"%string (sb_classList s) ->
   exists tm, In tm (pending (sb_timers s)) /\ task tm = RemoveActive).

(** ** Sunset intensity, magnetic buttons and metric counters *)

(** [a <= b] and [a >= b]; false as soon as one side is NaN. *)
Definition leq (a b : number) : bool :=
  negb (is_NaN a) && negb (is_NaN b) && negb (lt b a).

Definition geq (a b : number) : bool := leq b a.

(** [Math.pow(a, n)] for a natural number [n]. *)
Fixpoint Math_pow (a : number) (n : nat) : number :=
  match n with
  | O => of_Z 1
  | S n' => (a * Math_pow a n')%js
  end.

(** What [updateSunsetIntensity] sets on the [.sunset-atmosphere] element:
    [style.opacity], and the argument of [saturate()] in [style.filter]. *)
Record AtmosphereStyle : Type := mkAtmosphereStyle {
  opacity : number;
  saturate : number
}.

(** [updateSunsetIntensity], with [hour] the value of
    [new Date().getHours()]. *)
Definition updateSunsetIntensity (hour : number) : AtmosphereStyle :=
  (* Peak intensity during golden hour (5pm - 8pm) *)
  let intensity :=
    if geq hour (of_Z 17) && leq hour (of_Z 20) then
      Fin 1.3   (* Golden hour - maximum intensity *)
    else if geq hour (of_Z 6) && leq hour (of_Z 9) then
      Fin 1.1   (* Dawn - warm but softer *)
    else if geq hour (of_Z 21) || leq hour (of_Z 5) then
      Fin 0.7   (* Night - subtle *)
    else of_Z 1 in
  {| opacity := intensity;
     saturate := (Fin 0.8 + intensity * Fin 0.4)%js |}.

(** The rectangle [getBoundingClientRect()] returns. *)
Record DOMRect : Type := mkDOMRect {
  rect_left : number;
  rect_top : number;
  rect_width : number;
  rect_height : number
}.

(** The [mousemove] listener of a [.btn-primary] button: the two lengths,
    in pixels, of the [translate(...)] it sets as [style.transform]. *)
Definition magnetic_mousemove (rect : DOMRect) (clientX clientY : number)
  : number * number :=
  let x := (clientX - rect_left rect - rect_width rect / of_Z 2)%js in
  let y := (clientY - rect_top rect - rect_height rect / of_Z 2)%js in
  ((x * Fin 0.15)%js, (y * Fin 0.15)%js).

(** The counter of a [.metric-value] element: the closure variable
    [startTime] ([None] is [null]), the value put in the text with the
    number of decimals it is printed with, and whether the last frame
    asked for another one. *)
Record Counter : Type := mkCounter {
  startTime : option number;
  currentValue : number;
  decimals : nat;
  frameRequested : bool
}.

(** [!startTime]: [null], 0 and NaN are falsy. *)
Definition unset (st : option number) : bool :=
  match st with
  | None => true
  | Some (Fin q) => Qeq_bool q 0
  | Some NaN => true
  | Some _ => false
  end.

(** The counter when the element comes into view, before the first frame:
    [let startTime = null; ... requestAnimationFrame(animate);]. *)
Definition counter_start : Counter := mkCounter None (of_Z 0) 0 true.

(** The frame callback [animate(currentTime)] of the counter that runs to
    [endValue]. *)
Definition counter_animate (endValue currentTime : number) (c : Counter)
  : Counter :=
  let startValue := of_Z 0 in
  let duration := of_Z 2000 in
  let startTime :=
    match startTime c with
    | Some st => if unset (startTime c) then currentTime else st
    | None => currentTime
    end in
  let progress :=
    Math_min ((currentTime - startTime) / duration)%js (of_Z 1) in
  let easeProgress := (of_Z 1 - Math_pow (of_Z 1 - progress)%js 4)%js in
  let currentValue :=
    (startValue + (endValue - startValue) * easeProgress)%js in
  {| startTime := Some startTime;
     currentValue := currentValue;
     decimals := if (currentValue <? of_Z 10)%js then 1 else 0;
     frameRequested := (progress <? of_Z 1)%js |}.

(** ** Binary64

    The arithmetic of three branch conditions of the script on binary64
    numbers, Rocq's primitive floats, to evaluate the code where rounding
    decides a branch. *)

(** The value of a finite binary64 number; 0 for the others. *)
Definition exact (f : float) : Q :=
  match Prim2SF f with
  | S754_finite s m e =>
      (if s then - (1) else 1) * inject_Z (Z.pos m) * Qpower 2 e
  | _ => 0
  end.


(** The distance [update] computes, and its test [distance < maxDistance]. *)
Definition pointer_distance64 (mouseX mouseY x y : float) : float :=
  let dx := (mouseX - x)%float in
  let dy := (mouseY - y)%float in
  PrimFloat.sqrt (dx * dx + dy * dy)%float.

Definition repelled64 (mouseX mouseY x y : float) : bool :=
  (pointer_distance64 mouseX mouseY x y <? 150)%float.

(** The drift branch of [update] along x: the position and the velocity
    it stores. *)
Definition drift64 (x vx width : float) : float * float :=
  let x' := (x + vx)%float in
  (x', if (x' <? 0)%float || (width <? x')%float then (vx * -1)%float
       else vx).

(** * Properties *)

Unset Implicit Arguments.

(** ** Numbers *)

Lemma Qlt_bool_iff (a b : Q) : Qlt_bool a b = true <-> a < b.
Proof.
  unfold Qlt_bool. rewrite negb_true_iff.
  destruct (Qle_bool b a) eqn:E.
  - apply Qle_bool_iff in E. split; [discriminate | intro H].
    exfalso. apply (Qlt_not_le _ _ H E).
  - split; [intros _ | reflexivity].
    apply Qnot_le_lt. intro H. apply Qle_bool_iff in H. congruence.
Qed.

Lemma Qlt_bool_false_iff (a b : Q) : Qlt_bool a b = false <-> b <= a.
Proof.
  unfold Qlt_bool. rewrite negb_false_iff. apply Qle_bool_iff.
Qed.

Lemma Qsgn_Eq (a : Q) : Qsgn a = Eq <-> a == 0.
Proof.
  unfold Qsgn, Qeq. simpl. rewrite Z.compare_eq_iff. lia.
Qed.

Lemma Qsgn_Gt (a : Q) : Qsgn a = Gt <-> 0 < a.
Proof.
  unfold Qsgn, Qlt. simpl. rewrite Z.compare_gt_iff. lia.
Qed.

Lemma Qsgn_Lt (a : Q) : Qsgn a = Lt <-> a < 0.
Proof.
  unfold Qsgn, Qlt. simpl. rewrite Z.compare_lt_iff. lia.
Qed.

Lemma int_lt_ceiling (k : Z) (q : Q) : inject_Z k < q <-> (k < Qceiling q)%Z.
Proof.
  split; intro H.
  - rewrite Zlt_Qlt. eapply Qlt_le_trans; [exact H | apply Qle_ceiling].
  - apply Qle_lt_trans with (inject_Z (Qceiling q - 1)).
    + rewrite <- Zle_Qle. lia.
    + apply Qceiling_lt.
Qed.

Example div_zero_zero : (Fin 0 / Fin 0)%js = NaN.
Proof. reflexivity. Qed.

Example div_one_zero : (Fin 1 / Fin 0)%js = PosInf.
Proof. reflexivity. Qed.

Example NaN_compares_false : (NaN <? of_Z 150)%js = false.
Proof. reflexivity. Qed.

Example sqrt_2500 : Math_sqrt (of_Z 2500) =n= of_Z 50.
Proof. vm_compute. reflexivity. Qed.

Example rem_1_3 : (Fin 1.3 mod of_Z 1)%js =n= Fin 0.3.
Proof. vm_compute. reflexivity. Qed.

Example round_half :
  Math_round (Fin 2.5) = of_Z 3 /\ Math_round (Fin (-2.5)) = of_Z (-2).
Proof. split; reflexivity. Qed.

Lemma mul_NaN_l (a : number) : (NaN * a)%js = NaN.
Proof. destruct a; reflexivity. Qed.

Lemma sub_NaN_r (a : number) : (a - NaN)%js = NaN.
Proof. destruct a; reflexivity. Qed.

(** ** init *)

Lemma numberOfParticles_finite (w : World) :
  exists q, numberOfParticles w = Fin q /\ q == capped_density w.
Proof.
  unfold numberOfParticles, capped_density, of_N, of_Z.
  set (aw := Z.of_N (canvas_width w)). set (ah := Z.of_N (canvas_height w)).
  assert (Hd : Qsgn (inject_Z (densityFactor w)) = Gt).
  { unfold densityFactor.
    destruct (prefersReducedMotion w), (isMobile w); reflexivity. }
  cbn [mul div]. rewrite Hd. cbn [Math_min lt].
  set (a := inject_Z aw * inject_Z ah / inject_Z (densityFactor w)).
  set (m := inject_Z (maxParticles w)).
  assert (Ha : inject_Z (aw * ah) / inject_Z (densityFactor w) == a).
  { unfold a. rewrite inject_Z_mult. reflexivity. }
  destruct (Qlt_bool m a) eqn:E.
  - apply Qlt_bool_iff in E. exists m. split; [reflexivity |].
    symmetry. apply Q.min_r. rewrite Ha. apply Qlt_le_weak, E.
  - apply Qlt_bool_false_iff in E. exists a. split; [reflexivity |].
    rewrite <- Ha. symmetry. apply Q.min_l. rewrite Ha. exact E.
Qed.

(** The loop from [i = k] adds one particle for each integer from [k] up
    to the bound, provided the fuel covers them. *)
Lemma init_loop_length (h : Host) (n : Q) :
  forall (fuel : nat) (k : Z) (qi : Q) (w : World),
    qi == inject_Z k ->
    (Z.to_nat (Qceiling n - k) <= fuel)%nat ->
    exists w',
      init_loop fuel h (Fin qi) (Fin n) w = Some w' /\
      length (particles w') =
        (length (particles w) + Z.to_nat (Qceiling n - k))%nat.
Proof.
  induction fuel as [|fuel IH]; intros k qi w Hi Hfuel.
  - cbn [init_loop lt].
    destruct (Qlt_bool qi n) eqn:E.
    + apply Qlt_bool_iff in E. rewrite Hi in E. apply int_lt_ceiling in E. lia.
    + apply Qlt_bool_false_iff in E. rewrite Hi in E.
      assert (~ (k < Qceiling n)%Z).
      { intro Hc. apply int_lt_ceiling in Hc. apply (Qlt_not_le _ _ Hc E). }
      exists w. split; [reflexivity |].
      replace (Z.to_nat (Qceiling n - k)) with O by lia. lia.
  - cbn [init_loop lt].
    destruct (Qlt_bool qi n) eqn:E.
    + apply Qlt_bool_iff in E. rewrite Hi in E. apply int_lt_ceiling in E.
      destruct (new_Particle h w) as [p w1] eqn:Enew.
      assert (Hp : particles w1 = particles w).
      { change w1 with (snd (p, w1)). rewrite <- Enew. reflexivity. }
      cbn [add of_Z].
      destruct (IH (k + 1)%Z (qi + inject_Z 1)
                   (set_particles w1 (particles w1 ++ [p])))
        as [w' [Hrun Hlen]].
      * rewrite Hi, inject_Z_plus. reflexivity.
      * lia.
      * exists w'. split; [exact Hrun |].
        rewrite Hlen. cbn [particles set_particles].
        rewrite length_app, Hp. cbn [length]. lia.
    + apply Qlt_bool_false_iff in E. rewrite Hi in E.
      assert (~ (k < Qceiling n)%Z).
      { intro Hc. apply int_lt_ceiling in Hc. apply (Qlt_not_le _ _ Hc E). }
      exists w. split; [reflexivity |].
      replace (Z.to_nat (Qceiling n - k)) with O by lia. lia.
Qed.

Lemma maxParticles_bounds (w : World) : (20 <= maxParticles w <= 100)%Z.
Proof.
  unfold maxParticles. destruct (prefersReducedMotion w), (isMobile w); lia.
Qed.

Lemma capped_density_ceiling (w : World) :
  (0 <= Qceiling (capped_density w) <= maxParticles w)%Z.
Proof.
  pose proof (maxParticles_bounds w) as Hm.
  split.
  - change 0%Z with (Qceiling (inject_Z 0)). apply Qceiling_resp_le.
    unfold capped_density. apply Q.min_glb.
    + apply Qle_shift_div_l.
      * unfold densityFactor.
        destruct (prefersReducedMotion w), (isMobile w); reflexivity.
      * rewrite Qmult_0_l. change 0 with (inject_Z 0).
        rewrite <- Zle_Qle. lia.
    + change 0 with (inject_Z 0). rewrite <- Zle_Qle. lia.
  - apply Z.le_trans with (Qceiling (inject_Z (maxParticles w))).
    + apply Qceiling_resp_le. unfold capped_density. apply Q.le_min_r.
    + rewrite Qceiling_Z. lia.
Qed.

(** [init] returns with any fuel above 100, and the number of particles it
    leaves is the ceiling of the capped density. *)
Lemma init_count (fuel : nat) (h : Host) (w : World) :
  (100 < fuel)%nat ->
  exists w',
    init fuel h w = Some w' /\
    Z.of_nat (length (particles w')) = Qceiling (capped_density w).
Proof.
  intro Hfuel. unfold init.
  destruct (numberOfParticles_finite (set_particles w [])) as [q [Hq Hcap]].
  rewrite Hq.
  change (capped_density (set_particles w [])) with (capped_density w) in Hcap.
  pose proof (capped_density_ceiling w) as Hc.
  pose proof (maxParticles_bounds w) as Hm.
  assert (Hceil : Qceiling q = Qceiling (capped_density w))
    by (rewrite Hcap; reflexivity).
  destruct (@init_loop_length h q fuel 0%Z (inject_Z 0) (set_particles w []))
    as [w' [Hrun Hlen]].
  - reflexivity.
  - rewrite Hceil. lia.
  - exists w'. split; [exact Hrun |].
    rewrite Hlen, Hceil. cbn [particles set_particles length]. lia.
Qed.

(** C1, as stated, at a canvas of 1000 by 1000 on the full profile: the
    rebuild leaves 67 particles, one more than the floor of
    min(1,000,000/15000, 100), which is 66. *)
Lemma init_1000x1000_is_not_the_floor :
  exists w',
    init 101 still_host (page false false 1000 1000) = Some w' /\
    length (particles w') = 67%nat /\
    Qfloor (capped_density (page false false 1000 1000)) = 66%Z.
Proof.
  destruct (@init_count 101 still_host (page false false 1000 1000))
    as [w' [Hrun Hlen]]; [lia |].
  exists w'. split; [exact Hrun |]. split.
  - apply Nat2Z.inj. rewrite Hlen. vm_compute. reflexivity.
  - vm_compute. reflexivity.
Qed.

(** C1 (amended): for every canvas extent, profile and sequence of random
    values, a rebuild returns and leaves a number of particles that is the
    ceiling of min(area/densityFactor, maxParticles), hence at most
    maxParticles and independent of the random values; on the full profile
    an area of 1,000,000 gives 67 particles and an area of 786,432 gives
    53. *)
Theorem init_particle_count (fuel : nat) (h : Host) (w : World) :
  (100 < fuel)%nat ->
  exists w',
    init fuel h w = Some w' /\
    Z.of_nat (length (particles w')) = Qceiling (capped_density w) /\
    (Z.of_nat (length (particles w')) <= maxParticles w)%Z /\
    (prefersReducedMotion w = false -> isMobile w = false ->
     ((canvas_width w * canvas_height w = 1000000)%N ->
      length (particles w') = 67%nat) /\
     ((canvas_width w * canvas_height w = 786432)%N ->
      length (particles w') = 53%nat)).
Proof.
  intro Hfuel.
  destruct (@init_count fuel h w Hfuel) as [w' [Hrun Hlen]].
  exists w'. split; [exact Hrun |]. split; [exact Hlen |]. split.
  - rewrite Hlen. apply capped_density_ceiling.
  - intros Hr Hm.
    assert (Hcap : forall a : N,
               (canvas_width w * canvas_height w)%N = a ->
               capped_density w =
               Qmin (inject_Z (Z.of_N a) / inject_Z 15000) (inject_Z 100)).
    { intros a Ha. unfold capped_density, densityFactor, maxParticles.
      rewrite Hr, Hm, <- Ha, N2Z.inj_mul. reflexivity. }
    split; intro Ha; apply Nat2Z.inj; rewrite Hlen, (Hcap _ Ha);
      vm_compute; reflexivity.
Qed.

Lemma init_particle_count_witness :
  exists w',
    init 101 still_host (page false false 1024 768) = Some w' /\
    length (particles w') = 53%nat.
Proof.
  destruct (@init_particle_count 101 still_host (page false false 1024 768))
    as [w' [Hrun [_ [_ Hex]]]]; [lia |].
  exists w'. split; [exact Hrun |].
  apply Hex; reflexivity.
Defined.

(** C7: under the reduced-motion preference the parameters of the rebuild
    are maxParticles 20 and densityFactor 30000 whether or not the device
    is a mobile one, and the rebuild leaves at most 20 particles whatever
    the canvas area. *)
Theorem reduced_motion_at_most_20 (fuel : nat) (h : Host) (w : World) :
  (100 < fuel)%nat ->
  prefersReducedMotion w = true ->
  maxParticles w = 20%Z /\
  densityFactor w = 30000%Z /\
  exists w',
    init fuel h w = Some w' /\ (length (particles w') <= 20)%nat.
Proof.
  intros Hfuel Hr.
  assert (Hmax : maxParticles w = 20%Z)
    by (unfold maxParticles; now rewrite Hr).
  split; [exact Hmax |]. split; [unfold densityFactor; now rewrite Hr |].
  destruct (@init_count fuel h w Hfuel) as [w' [Hrun Hlen]].
  exists w'. split; [exact Hrun |].
  pose proof (capped_density_ceiling w) as Hc. lia.
Qed.

Lemma reduced_motion_at_most_20_witness :
  maxParticles (page true true 4000 3000) = 20%Z /\
  densityFactor (page true true 4000 3000) = 30000%Z /\
  exists w',
    init 101 still_host (page true true 4000 3000) = Some w' /\
    (length (particles w') <= 20)%nat.
Proof.
  apply (@reduced_motion_at_most_20 101 still_host (page true true 4000 3000)).
  - lia.
  - reflexivity.
Defined.

(** ** Colour cycle *)

Lemma rem_one (a : Q) : (Fin a mod of_Z 1)%js = Fin (wrap1 a).
Proof. reflexivity. Qed.

Lemma wrap1_floor (a : Q) : 0 <= a -> wrap1 a == a - inject_Z (Qfloor a).
Proof.
  intro Ha. unfold wrap1.
  assert (E : a / inject_Z 1 == a)
    by (unfold Qdiv; change (/ inject_Z 1) with 1; ring).
  assert (Qtrunc (a / inject_Z 1) = Qfloor a).
  { unfold Qtrunc. destruct (Qsgn (a / inject_Z 1)) eqn:S.
    - now rewrite E.
    - apply (proj1 (Qsgn_Lt _)) in S. rewrite E in S. exfalso.
      apply (Qlt_not_le _ _ S Ha).
    - now rewrite E. }
  rewrite H. change (inject_Z 1) with 1. ring.
Qed.

Lemma wrap1_range (a : Q) : 0 <= a -> 0 <= wrap1 a < 1.
Proof.
  intro Ha. rewrite (wrap1_floor _ Ha).
  pose proof (Qfloor_le a). pose proof (Qlt_floor a).
  rewrite inject_Z_plus in H0. change (inject_Z 1) with 1 in H0.
  split; lra.
Qed.

Lemma wrap1_id (p : Q) : 0 <= p < 1 -> wrap1 p == p.
Proof.
  intros [H0 H1]. rewrite (wrap1_floor _ H0).
  assert (Qfloor p = 0%Z).
  { pose proof (Qfloor_le p). pose proof (Qlt_floor p).
    assert (inject_Z (Qfloor p) < inject_Z 1)
      by (change (inject_Z 1) with 1; lra).
    assert (inject_Z (-1) < inject_Z (Qfloor p)).
    { rewrite inject_Z_plus in H2. change (inject_Z 1) with 1 in H2.
      change (inject_Z (-1)) with (-1 # 1). lra. }
    rewrite <- Zlt_Qlt in H3, H4. lia. }
  rewrite H. change (inject_Z 0) with 0. ring.
Qed.

Lemma getCurrentSunsetColor_unfold (t o : Q) :
  getCurrentSunsetColor (Fin t) (Fin o) =
  match array_get sunsetColors (of_Z (Qfloor (segment_of (t + o)))),
        array_get sunsetColors
          (Math_min (Fin (inject_Z (Qfloor (segment_of (t + o))) + inject_Z 1))
                    (Fin (inject_Z 7 + - inject_Z 1)))
  with
  | Some color1, Some color2 =>
      Some (interpolateColor color1 color2
              (Fin (segment_of (t + o)
                    + - inject_Z (Qfloor (segment_of (t + o))))))
  | _, _ => None
  end.
Proof. reflexivity. Qed.

Lemma array_get_int (A : Type) (l : list A) (k : Z) :
  (0 <= k)%Z -> array_get l (of_Z k) = nth_error l (Z.to_nat k).
Proof.
  intro Hk. unfold array_get, of_Z. rewrite Qfloor_Z.
  rewrite (proj2 (Qeq_bool_iff _ _) (Qeq_refl _)).
  rewrite (proj2 (Z.leb_le _ _) Hk). reflexivity.
Qed.

Lemma array_get_next (k : Z) :
  (0 <= k <= 5)%Z ->
  array_get sunsetColors
    (Math_min (Fin (inject_Z k + inject_Z 1)) (Fin (inject_Z 7 + - inject_Z 1)))
  = nth_error sunsetColors (Z.to_nat (k + 1)).
Proof.
  intro Hk. rewrite <- inject_Z_plus. cbn [Math_min lt].
  assert (E : Qlt_bool (inject_Z 7 + - inject_Z 1) (inject_Z (k + 1)) = false).
  { apply Qlt_bool_false_iff.
    change (inject_Z 7 + - inject_Z 1) with (inject_Z 6).
    rewrite <- Zle_Qle. lia. }
  rewrite E. apply array_get_int. lia.
Qed.

Lemma interpolateColor_rgb (a1 a2 a3 b1 b2 b3 : Z) (f : Q) :
  interpolateColor (rgb a1 a2 a3) (rgb b1 b2 b3) (Fin f) =
  rgb (round_half_up (mix a1 b1 f)) (round_half_up (mix a2 b2 f))
      (round_half_up (mix a3 b3 f)).
Proof. reflexivity. Qed.

Lemma round_half_up_bounds (v : Q) :
  v - (1 # 2) < inject_Z (round_half_up v) /\
  inject_Z (round_half_up v) <= v + (1 # 2).
Proof.
  unfold round_half_up.
  pose proof (Qfloor_le (v + (1 # 2))). pose proof (Qlt_floor (v + (1 # 2))).
  rewrite inject_Z_plus in H0. change (inject_Z 1) with 1 in H0.
  split; lra.
Qed.

Lemma round_half_up_between (lo hi : Z) (v : Q) :
  inject_Z lo <= v <= inject_Z hi -> (lo <= round_half_up v <= hi)%Z.
Proof.
  intros [Hlo Hhi]. destruct (round_half_up_bounds v) as [H1 H2].
  split.
  - assert (H : inject_Z lo < inject_Z (round_half_up v + 1)).
    { rewrite inject_Z_plus. change (inject_Z 1) with 1. lra. }
    rewrite <- Zlt_Qlt in H. lia.
  - assert (H : inject_Z (round_half_up v) < inject_Z (hi + 1)).
    { rewrite inject_Z_plus. change (inject_Z 1) with 1. lra. }
    rewrite <- Zlt_Qlt in H. lia.
Qed.

Lemma mix_between (c1 c2 lo hi : Z) (f : Q) :
  (lo <= c1 <= hi)%Z -> (lo <= c2 <= hi)%Z -> 0 <= f <= 1 ->
  inject_Z lo <= mix c1 c2 f <= inject_Z hi.
Proof.
  intros H1 H2 Hf. unfold mix.
  assert (inject_Z lo <= inject_Z c1 <= inject_Z hi)
    by (rewrite <- !Zle_Qle; lia).
  assert (inject_Z lo <= inject_Z c2 <= inject_Z hi)
    by (rewrite <- !Zle_Qle; lia).
  set (x := inject_Z c1) in *. set (y := inject_Z c2) in *.
  set (l := inject_Z lo) in *. set (u := inject_Z hi) in *.
  split; nra.
Qed.

Lemma segment_of_range (a : Q) :
  0 <= a ->
  segment_of a == 6 * wrap1 a /\
  (0 <= Qfloor (segment_of a) <= 5)%Z /\
  0 <= segment_of a + - inject_Z (Qfloor (segment_of a)) < 1.
Proof.
  intro Ha. destruct (wrap1_range _ Ha) as [H0 H1].
  assert (E : segment_of a == 6 * wrap1 a).
  { unfold segment_of. change (inject_Z 7 + - inject_Z 1) with 6. ring. }
  split; [exact E |].
  pose proof (Qfloor_le (segment_of a)) as Hf.
  pose proof (Qlt_floor (segment_of a)) as Hl.
  rewrite inject_Z_plus in Hl. change (inject_Z 1) with 1 in Hl.
  split.
  - split.
    + change 0%Z with (Qfloor (inject_Z 0)). apply Qfloor_resp_le.
      change (inject_Z 0) with 0. lra.
    + assert (H : inject_Z (Qfloor (segment_of a)) < inject_Z 6).
      { change (inject_Z 6) with 6. lra. }
      rewrite <- Zlt_Qlt in H. lia.
  - split; lra.
Qed.

(** Sampling at a non-negative [colorTime + offset]: the segment [k], the
    factor [f], and the interpolation between the palette entries [k] and
    [k + 1]. *)
Lemma sample_segment (t o : Q) :
  0 <= t + o ->
  exists (k : Z) (f : Q),
    (0 <= k <= 5)%Z /\
    f == 6 * wrap1 (t + o) - inject_Z k /\
    0 <= f < 1 /\
    getCurrentSunsetColor (Fin t) (Fin o) =
    match nth_error sunsetColors (Z.to_nat k),
          nth_error sunsetColors (Z.to_nat (k + 1)) with
    | Some color1, Some color2 =>
        Some (interpolateColor color1 color2 (Fin f))
    | _, _ => None
    end.
Proof.
  intro Ha. destruct (segment_of_range _ Ha) as [E [Hk Hf]].
  exists (Qfloor (segment_of (t + o))),
         (segment_of (t + o) + - inject_Z (Qfloor (segment_of (t + o)))).
  split; [exact Hk |]. split; [rewrite <- E; reflexivity |].
  split; [exact Hf |].
  rewrite getCurrentSunsetColor_unfold, array_get_next by exact Hk.
  rewrite array_get_int by lia. reflexivity.
Qed.

Ltac palette_cases k Hk :=
  let C := fresh "C" in
  assert (C : (k = 0 \/ k = 1 \/ k = 2 \/ k = 3 \/ k = 4 \/ k = 5)%Z) by lia;
  destruct C as [C | [C | [C | [C | [C | C]]]]]; subst k;
  repeat match goal with
    | |- context [Z.to_nat ?z] =>
        let n := eval vm_compute in (Z.to_nat z) in
        change (Z.to_nat z) with n
    end;
  cbn [nth_error sunsetColors].

(** Sampling returns a colour whenever [colorTime + offset] is not
    negative. *)
Lemma sample_total (t o : Q) :
  0 <= t + o ->
  exists c, getCurrentSunsetColor (Fin t) (Fin o) = Some c.
Proof.
  intro Ha. destruct (sample_segment _ _ Ha) as [k [f [Hk [_ [_ ->]]]]].
  palette_cases k Hk; eexists; reflexivity.
Qed.

Lemma colorAt_segment (p : Q) :
  0 <= p < 1 ->
  exists (k : Z) (f : Q),
    (0 <= k <= 5)%Z /\
    f == 6 * p - inject_Z k /\
    0 <= f < 1 /\
    colorAt p =
    match nth_error sunsetColors (Z.to_nat k),
          nth_error sunsetColors (Z.to_nat (k + 1)) with
    | Some color1, Some color2 =>
        Some (interpolateColor color1 color2 (Fin f))
    | _, _ => None
    end.
Proof.
  intros [H0 H1].
  assert (Ha : 0 <= p + inject_Z 0) by (change (inject_Z 0) with 0; lra).
  destruct (sample_segment _ _ Ha) as [k [f [Hk [Ef [Hf E]]]]].
  exists k, f. split; [exact Hk |]. split; [| split; [exact Hf | exact E]].
  rewrite Ef, wrap1_id.
  - change (inject_Z 0) with 0. ring.
  - change (inject_Z 0) with 0. split; lra.
Qed.

Lemma within_of_Z (eps : Q) (z z' : Z) :
  inject_Z z - inject_Z z' <= eps ->
  inject_Z z' - inject_Z z <= eps ->
  within eps (of_Z z) (of_Z z').
Proof.
  intros H1 H2. unfold within, of_Z. apply Qabs_Qle_condition. split; lra.
Qed.

Lemma Qabs_upper (u : Q) : u <= Qabs u /\ - u <= Qabs u.
Proof.
  split; [apply Qle_Qabs |]. rewrite <- Qabs_opp. apply Qle_Qabs.
Qed.

Ltac channel_gap :=
  apply within_of_Z;
  match goal with
  | |- inject_Z (round_half_up ?u) - inject_Z (round_half_up ?v) <= _ =>
      let Hu := fresh in let Hv := fresh in
      pose proof (round_half_up_bounds u) as Hu;
      pose proof (round_half_up_bounds v) as Hv;
      revert Hu Hv;
      generalize (inject_Z (round_half_up u)) (inject_Z (round_half_up v));
      unfold mix; intros; unfold inject_Z in *; lra
  end.

Lemma colorAt_modulus (p q : Q) :
  0 <= p < 1 -> 0 <= q < 1 ->
  exists c c',
    colorAt p = Some c /\ colorAt q = Some c' /\
    colors_within (450 * Qabs (p - q) + 1) c c'.
Proof.
  intros Hp Hq.
  destruct (colorAt_segment _ Hp) as [k [f [Hk [Ef [Hf ->]]]]].
  destruct (colorAt_segment _ Hq) as [m [f' [Hm [Ef' [Hf' ->]]]]].
  destruct (Qabs_upper (p - q)) as [A1 A2].
  revert A1 A2. generalize (Qabs (p - q)). intros A A1 A2.
  palette_cases k Hk; palette_cases m Hm; rewrite !interpolateColor_rgb;
    (eexists; eexists; split; [reflexivity | split; [reflexivity |]]);
    unfold colors_within; cbn [r g b rgb];
    (split; [| split]); channel_gap.
Qed.

(** C8: for every clock value and per-particle offset whose sum is not
    negative, hence for every phase of [0,1) the sum wraps to, the sampling
    returns a colour and each of its channels r, g, b is an integer of
    [0,255]. *)
Theorem sampled_channels_in_range (t o : Q) :
  0 <= t + o ->
  exists c,
    getCurrentSunsetColor (Fin t) (Fin o) = Some c /\
    channel_ok (r c) /\ channel_ok (g c) /\ channel_ok (b c).
Proof.
  intro Ha. destruct (sample_segment _ _ Ha) as [k [f [Hk [_ [Hf ->]]]]].
  assert (Hf' : 0 <= f <= 1) by (split; lra).
  palette_cases k Hk; rewrite interpolateColor_rgb;
    (eexists; split; [reflexivity |]);
    repeat split;
    (eexists; split; [reflexivity |]);
    (apply round_half_up_between; apply mix_between; [lia | lia | exact Hf']).
Qed.

Lemma sampled_channels_in_range_witness :
  exists c,
    getCurrentSunsetColor (Fin 0.9) (Fin 0.25) = Some c /\
    channel_ok (r c) /\ channel_ok (g c) /\ channel_ok (b c).
Proof.
  apply (@sampled_channels_in_range 0.9 0.25). vm_compute. discriminate.
Defined.

Ltac channel_limit :=
  apply within_of_Z;
  match goal with
  | |- context [inject_Z (round_half_up ?u)] =>
      let Hu := fresh in
      pose proof (round_half_up_bounds u) as Hu;
      revert Hu; generalize (inject_Z (round_half_up u));
      unfold mix; intros; unfold inject_Z in *; lra
  end.

(** Towards phase 1 the sample tends to the last palette entry. *)
Lemma colorAt_near_one (p : Q) :
  0 <= p < 1 ->
  exists c,
    colorAt p = Some c /\
    colors_within (450 * (1 - p) + 1) c (rgb 201 108 77).
Proof.
  intros Hp.
  destruct (colorAt_segment _ Hp) as [k [f [Hk [Ef [Hf ->]]]]].
  palette_cases k Hk; rewrite !interpolateColor_rgb;
    (eexists; split; [reflexivity |]);
    unfold colors_within; cbn [r g b rgb];
    (split; [| split]); channel_limit.
Qed.

Lemma colorAt_zero : colorAt 0 = Some (rgb 255 140 66).
Proof. vm_compute. reflexivity. Qed.

Lemma circle_distance_to_zero (p : Q) :
  0 <= p -> circle_distance p 0 <= 1 - p.
Proof.
  intro Hp. unfold circle_distance.
  eapply Qle_trans; [apply Q.le_min_r |].
  assert (E : Qabs (p - 0) == p).
  { rewrite Qabs_pos by lra. ring. }
  rewrite E. lra.
Qed.

Lemma within_weaken (e1 e2 : Q) (a c : number) :
  e1 <= e2 -> within e1 a c -> within e2 a c.
Proof.
  intros He. unfold within. destruct a, c; try tauto.
  intro H. eapply Qle_trans; eassumption.
Qed.

Lemma colors_within_weaken (e1 e2 : Q) (c c' : Color) :
  e1 <= e2 -> colors_within e1 c c' -> colors_within e2 c c'.
Proof.
  intros He [H1 [H2 H3]].
  repeat split; eapply within_weaken; eassumption.
Qed.

(** C3 (the code does not do what the claim says): the sampling jumps at
    the wrap.  On the interval [0,1) it is continuous up to the unit step
    of [Math.round], but on the phase circle it is not: the last palette
    entry repeats the second entry (terracotta) and not the first, so
    that every sample taken within 1/450 of phase 1 is within 2 units of
    (201,108,77), while the sample at phase 0 is (255,140,66), 54 units
    away in the red channel. *)
Theorem colorAt_jumps_at_wrap :
  continuous_on_phase_interval /\
  ~ continuous_on_phase_circle /\
  colorAt 0 = Some (rgb 255 140 66) /\
  (forall p : Q, 1 - (1 # 450) <= p < 1 ->
     exists c, colorAt p = Some c /\ colors_within 2 c (rgb 201 108 77)) /\
  nth_error sunsetColors 6 = nth_error sunsetColors 1 /\
  nth_error sunsetColors 6 <> nth_error sunsetColors 0.
Proof.
  assert (Hnear : forall p : Q, 1 - (1 # 450) <= p < 1 ->
            exists c, colorAt p = Some c /\
                      colors_within 2 c (rgb 201 108 77)).
  { intros p [Hp1 Hp2].
    destruct (colorAt_near_one p) as [c [Ec Hc]]; [split; lra |].
    exists c. split; [exact Ec |].
    apply (colors_within_weaken (450 * (1 - p) + 1)); [lra | exact Hc]. }
  split; [| split; [| split; [exact colorAt_zero | split; [exact Hnear |]]]].
  - intros eps Heps. exists (eps * (1 # 450)). split; [lra |].
    intros p q Hp Hq Hclose.
    destruct (colorAt_modulus _ _ Hp Hq) as [c [c' [Ep [Eq Hm]]]].
    exists c, c'. split; [exact Ep |]. split; [exact Eq |].
    apply (colors_within_weaken (450 * Qabs (p - q) + 1)); [lra | exact Hm].
  - intro H. destruct (H 49) as [delta [Hd Hc]]; [lra |].
    assert (Hp : exists p, 0 <= p < 1 /\ 1 - p < delta /\
                           1 - (1 # 450) <= p).
    { destruct (Qlt_le_dec delta (1 # 450)) as [Hs | Hs].
      - exists (1 - delta * (1 # 2)). repeat split; lra.
      - exists (1 - (1 # 900)). repeat split; lra. }
    destruct Hp as [p [Hp [Hclose Hlast]]].
    destruct (Hc p 0) as [c [c0 [Ep [E0 [Hr _]]]]].
    + exact Hp.
    + split; lra.
    + eapply Qle_lt_trans; [apply circle_distance_to_zero; lra | exact Hclose].
    + rewrite colorAt_zero in E0. injection E0 as <-.
      destruct (Hnear p) as [c1 [Ep1 [Hr1 _]]]; [split; lra |].
      rewrite Ep in Ep1. injection Ep1 as <-.
      cbn [r rgb of_Z] in Hr, Hr1. unfold within in Hr, Hr1.
      destruct (r c) as [u | | |]; try contradiction.
      apply Qabs_Qle_condition in Hr, Hr1. unfold inject_Z in *. lra.
  - split; [reflexivity | discriminate].
Qed.

Lemma colorAt_jumps_at_wrap_witness :
  exists c, colorAt (999 # 1000) = Some c /\
            colors_within 2 c (rgb 201 108 77).
Proof.
  destruct colorAt_jumps_at_wrap as [_ [_ [_ [Hnear _]]]].
  apply (Hnear (999 # 1000)). split; [discriminate | reflexivity].
Defined.

(** ** Particle.update and Particle.draw *)

Lemma Qfloor_lt_int (v : Q) (n : Z) : (Qfloor v < n)%Z <-> v < inject_Z n.
Proof.
  split; intro H.
  - apply Qlt_le_trans with (inject_Z (Qfloor v + 1)); [apply Qlt_floor |].
    rewrite <- Zle_Qle. lia.
  - rewrite Zlt_Qlt. eapply Qle_lt_trans; [apply Qfloor_le | exact H].
Qed.

(** The rounded square root is below an integer exactly when its argument
    is below the square of that integer. *)
Lemma Qsqrt_lt_iff (q : Q) (c : Z) :
  0 <= q -> (0 <= c)%Z ->
  (Qsqrt q < inject_Z c <-> q < inject_Z (c * c)).
Proof.
  intros Hq Hc. unfold Qsqrt.
  set (s := (2 ^ sqrt_bits)%Z).
  assert (Hs : (0 < s)%Z) by reflexivity.
  assert (Hs2 : (2 ^ (2 * sqrt_bits) = s * s)%Z) by reflexivity.
  set (F := Qfloor (q * inject_Z (2 ^ (2 * sqrt_bits)))).
  assert (HF : (0 <= F)%Z).
  { unfold F. change 0%Z with (Qfloor (inject_Z 0)). apply Qfloor_resp_le.
    change (inject_Z 0) with 0. apply Qmult_le_0_compat; [exact Hq |].
    rewrite Hs2. change 0 with (inject_Z 0). rewrite <- Zle_Qle. nia. }
  assert (E1 : Z.sqrt F # Z.to_pos s < inject_Z c <-> (Z.sqrt F < c * s)%Z).
  { unfold Qlt, inject_Z. cbn [Qnum Qden]. rewrite Z2Pos.id by exact Hs. lia. }
  rewrite E1.
  assert (E2 : (Z.sqrt F < c * s <-> F < (c * s) * (c * s))%Z).
  { symmetry. apply Z.sqrt_lt_square; nia. }
  rewrite E2. unfold F. rewrite Qfloor_lt_int.
  replace ((c * s) * (c * s))%Z with ((c * c) * (s * s))%Z by ring.
  rewrite Hs2, (inject_Z_mult (c * c)).
  assert (Hpos : 0 < inject_Z (s * s)).
  { change 0 with (inject_Z 0). rewrite <- Zlt_Qlt. nia. }
  split; intro H.
  - apply Qmult_lt_r in H; assumption.
  - apply Qmult_lt_r; assumption.
Qed.

Lemma Qsqrt_zero (q : Q) : q == 0 -> Qsgn (Qsqrt q) = Eq /\ Qsqrt q == 0.
Proof.
  intro Hq.
  assert (E : Qfloor (q * inject_Z (2 ^ (2 * sqrt_bits))) = 0%Z).
  { rewrite Hq, Qmult_0_l. reflexivity. }
  unfold Qsqrt. rewrite E. split; reflexivity.
Qed.

Lemma Qsquare_nonneg (u : Q) : 0 <= u * u.
Proof. unfold Qle, Qmult. cbn [Qnum Qden]. nia. Qed.

Lemma sum_squares_nonneg (u v : Q) : 0 <= u * u + v * v.
Proof.
  pose proof (Qsquare_nonneg u). pose proof (Qsquare_nonneg v).
  set (a := u * u) in *. set (c := v * v) in *. lra.
Qed.

Lemma update_unfold (w : World) (p : Particle) :
  update w p =
  let dx := (mouseX w - x p)%js in
  let dy := (mouseY w - y p)%js in
  let distance := pointer_distance w p in
  let force := ((of_Z 150 - distance) / of_Z 150)%js in
  if (distance <? of_Z 150)%js then
    set_position p (x p - dx / distance * force * density p * Fin 0.5)%js
                   (y p - dy / distance * force * density p * Fin 0.5)%js
  else
    let p1 := set_position p (x p + vx p)%js (y p + vy p)%js in
    let p2 :=
      if (x p1 <? of_Z 0)%js || (x p1 >? of_N (canvas_width w))%js
      then set_vx p1 (vx p1 * of_Z (-1))%js else p1 in
    if (y p2 <? of_Z 0)%js || (y p2 >? of_N (canvas_height w))%js
    then set_vy p2 (vy p2 * of_Z (-1))%js else p2.
Proof. reflexivity. Qed.

Lemma pointer_distance_finite (w : World) (p : Particle) (mx my qx qy : Q) :
  mouseX w = Fin mx -> mouseY w = Fin my -> x p = Fin qx -> y p = Fin qy ->
  pointer_distance w p =
  Fin (Qsqrt ((mx + - qx) * (mx + - qx) + (my + - qy) * (my + - qy))).
Proof.
  intros Hmx Hmy Hx Hy.
  assert (H : Qlt_bool ((mx + - qx) * (mx + - qx) + (my + - qy) * (my + - qy)) 0
              = false).
  { apply Qlt_bool_false_iff. apply sum_squares_nonneg. }
  unfold pointer_distance. rewrite Hmx, Hmy, Hx, Hy.
  cbn [sub add neg mul Math_sqrt]. rewrite H. reflexivity.
Qed.

(** C2 (the code does not do what the claim says): when the pointer is
    exactly on a particle whose position is finite, [update] divides 0 by
    the distance 0 without any guard; both force directions are NaN, the
    attraction branch is taken since 0 < 150, and both position components
    come out NaN. *)
Theorem update_at_pointer_gives_NaN (w : World) (p : Particle)
  (mx my qx qy : Q) :
  mouseX w = Fin mx -> mouseY w = Fin my -> x p = Fin qx -> y p = Fin qy ->
  mx == qx -> my == qy ->
  x (update w p) = NaN /\ y (update w p) = NaN.
Proof.
  intros Hmx Hmy Hx Hy Ex Ey.
  rewrite update_unfold.
  rewrite (pointer_distance_finite w p _ _ _ _ Hmx Hmy Hx Hy).
  set (s := (mx + - qx) * (mx + - qx) + (my + - qy) * (my + - qy)).
  assert (Hs : s == 0) by (unfold s; rewrite Ex, Ey; ring).
  destruct (Qsqrt_zero _ Hs) as [Hsgn Hz].
  assert (Hlt : (Fin (Qsqrt s) <? of_Z 150)%js = true).
  { apply Qlt_bool_iff. rewrite Hz. reflexivity. }
  cbv zeta. rewrite Hlt, Hmx, Hmy, Hx, Hy.
  assert (Dx : ((Fin mx - Fin qx) / Fin (Qsqrt s))%js = NaN).
  { cbn [sub add neg div]. rewrite Hsgn.
    assert (Z : Qsgn (mx + - qx) = Eq) by (apply Qsgn_Eq; rewrite Ex; ring).
    rewrite Z. reflexivity. }
  assert (Dy : ((Fin my - Fin qy) / Fin (Qsqrt s))%js = NaN).
  { cbn [sub add neg div]. rewrite Hsgn.
    assert (Z : Qsgn (my + - qy) = Eq) by (apply Qsgn_Eq; rewrite Ey; ring).
    rewrite Z. reflexivity. }
  rewrite Dx, Dy, !mul_NaN_l, !sub_NaN_r. cbn [x y set_position].
  split; reflexivity.
Qed.

Lemma update_at_pointer_gives_NaN_witness :
  x (update (page false false 1000 1000) particle_at_origin) = NaN /\
  y (update (page false false 1000 1000) particle_at_origin) = NaN.
Proof.
  apply (update_at_pointer_gives_NaN
           (page false false 1000 1000) particle_at_origin 0 0 0 0);
    reflexivity.
Defined.

Lemma update_drift (w : World) (p : Particle) :
  (pointer_distance w p <? of_Z 150)%js = false ->
  x (update w p) = (x p + vx p)%js /\
  y (update w p) = (y p + vy p)%js /\
  vx (update w p) =
    (if ((x p + vx p)%js <? of_Z 0)%js
        || ((x p + vx p)%js >? of_N (canvas_width w))%js
     then (vx p * of_Z (-1))%js else vx p) /\
  vy (update w p) =
    (if ((y p + vy p)%js <? of_Z 0)%js
        || ((y p + vy p)%js >? of_N (canvas_height w))%js
     then (vy p * of_Z (-1))%js else vy p).
Proof.
  intro H. rewrite update_unfold. cbv zeta. rewrite H.
  cbn [x y vx vy set_position].
  destruct (((x p + vx p)%js <? of_Z 0)%js
            || ((x p + vx p)%js >? of_N (canvas_width w))%js);
    cbn [x y vx vy set_position set_vx set_vy];
    destruct (((y p + vy p)%js <? of_Z 0)%js
              || ((y p + vy p)%js >? of_N (canvas_height w))%js);
    cbn [x y vx vy set_position set_vx set_vy]; repeat split; reflexivity.
Qed.

(** The distance to the pointer against an integer [c], from the squared
    distance. *)
Lemma pointer_distance_bounds (w : World) (p : Particle)
  (mx my qx qy : Q) (c : Z) :
  mouseX w = Fin mx -> mouseY w = Fin my -> x p = Fin qx -> y p = Fin qy ->
  (0 <= c)%Z ->
  exists d : Q,
    pointer_distance w p = Fin d /\
    (inject_Z (c * c) <= (mx - qx) * (mx - qx) + (my - qy) * (my - qy) ->
     inject_Z c <= d) /\
    ((mx - qx) * (mx - qx) + (my - qy) * (my - qy) < inject_Z (c * c) ->
     d < inject_Z c).
Proof.
  intros Hmx Hmy Hx Hy Hc.
  rewrite (pointer_distance_finite w p _ _ _ _ Hmx Hmy Hx Hy).
  set (s := (mx + - qx) * (mx + - qx) + (my + - qy) * (my + - qy)).
  assert (Es : s == (mx - qx) * (mx - qx) + (my - qy) * (my - qy))
    by (unfold s; ring).
  assert (Hs : 0 <= s) by apply sum_squares_nonneg.
  pose proof (@Qsqrt_lt_iff s c Hs Hc) as Hiff.
  exists (Qsqrt s). split; [reflexivity |]. split; intro H.
  - apply Qnot_lt_le. intro Hlt. apply Hiff in Hlt. rewrite Es in Hlt.
    apply (Qlt_not_le _ _ Hlt H).
  - apply Hiff. rewrite Es. exact H.
Qed.

(** A particle at least 151 away from the pointer drifts.  The margin of 1
    keeps the distance, which the code rounds, above the radius 150. *)
Lemma update_far (w : World) (p : Particle) (mx my qx qy : Q) :
  mouseX w = Fin mx -> mouseY w = Fin my -> x p = Fin qx -> y p = Fin qy ->
  inject_Z (151 * 151) <= (mx - qx) * (mx - qx) + (my - qy) * (my - qy) ->
  (pointer_distance w p <? of_Z 150)%js = false.
Proof.
  intros Hmx Hmy Hx Hy Hfar.
  destruct (pointer_distance_bounds w p mx my qx qy 151 Hmx Hmy Hx Hy)
    as [d [-> [Hge _]]]; [lia |].
  specialize (Hge Hfar). cbn [lt of_Z]. apply Qlt_bool_false_iff.
  unfold inject_Z in *. lra.
Qed.



(** Within 2^-20 of the boundary the stored position decides: from
    x = 999.875 with vx = 0.125 + 2^-54 on a canvas of width 1000 the sum
    is beyond 1000, but the position the code stores is 1000 and the
    velocity is kept; the update after that stores 1000.125 and flips. *)
Lemma drift_rounds_to_boundary :
  let vx := (0.125 + Z.ldexp 1 (-54))%float in
  1000 < exact 999.875 + exact vx /\
  drift64 999.875 vx 1000 = (1000%float, vx) /\
  drift64 1000 vx 1000 = (1000.125%float, (- vx)%float).
Proof. vm_compute. repeat split. Qed.

(** A particle between 1 and 149 away from the pointer is repelled:
    [update] adds to its position [k] times its offset from the pointer,
    with [k] positive for a positive density, and leaves the velocity.
    The margins keep the distance, which the code rounds, above 0 and
    below the radius 150. *)
Lemma update_near (w : World) (p : Particle) (mx my qx qy rho : Q) :
  mouseX w = Fin mx -> mouseY w = Fin my ->
  x p = Fin qx -> y p = Fin qy -> density p = Fin rho ->
  0 <= rho ->
  1 <= (mx - qx) * (mx - qx) + (my - qy) * (my - qy) ->
  (mx - qx) * (mx - qx) + (my - qy) * (my - qy) <= inject_Z (149 * 149) ->
  exists k x' y' : Q,
    0 <= k /\ (0 < rho -> 0 < k) /\
    x (update w p) = Fin x' /\ y (update w p) = Fin y' /\
    x' - qx == k * (qx - mx) /\
    y' - qy == k * (qy - my) /\
    vx (update w p) = vx p /\ vy (update w p) = vy p.
Proof.
  intros Hmx Hmy Hx Hy Hrho Hpos Hlo Hhi.
  destruct (pointer_distance_bounds w p mx my qx qy 1 Hmx Hmy Hx Hy)
    as [d [Hd [Hge _]]]; [lia |].
  destruct (pointer_distance_bounds w p mx my qx qy 150 Hmx Hmy Hx Hy)
    as [d' [Hd' [_ Hlt]]]; [lia |].
  rewrite Hd in Hd'. injection Hd' as <-.
  assert (Hd1 : 1 <= d) by (apply Hge; exact Hlo).
  assert (Hd2 : d < 150).
  { apply Hlt. eapply Qle_lt_trans; [exact Hhi | reflexivity]. }
  assert (Hd0 : 0 < d) by lra.
  assert (Hnear : (pointer_distance w p <? of_Z 150)%js = true).
  { rewrite Hd. apply Qlt_bool_iff. exact Hd2. }
  rewrite update_unfold. cbv zeta. rewrite Hnear, Hd, Hmx, Hmy, Hx, Hy, Hrho.
  cbn [sub add neg div mul of_Z].
  rewrite (proj2 (Qsgn_Gt d) Hd0).
  assert (H150 : Qsgn (inject_Z 150) = Gt) by reflexivity.
  rewrite H150. cbn [sub add neg div mul x y vx vy set_position].
  exists ((inject_Z 150 + - d) / inject_Z 150 * rho * 0.5 / d).
  eexists. eexists.
  assert (Hdn : ~ d == 0) by lra.
  assert (Hf : 0 < (inject_Z 150 + - d) / inject_Z 150).
  { apply Qlt_shift_div_l; [reflexivity |]. unfold inject_Z. lra. }
  split; [| split; [| split; [reflexivity | split; [reflexivity |]]]].
  - apply Qle_shift_div_l; [exact Hd0 |]. rewrite Qmult_0_l. nra.
  - intro Hr. apply Qlt_shift_div_l; [exact Hd0 |]. rewrite Qmult_0_l. nra.
  - split; [| split; [| split; reflexivity]]; unfold inject_Z; field; exact Hdn.
Qed.

Lemma num_eq_refl (a : number) : a =n= a.
Proof. destruct a; simpl; auto. reflexivity. Qed.

Lemma num_eq_trans (a c d : number) : a =n= c -> c =n= d -> a =n= d.
Proof.
  destruct a, c, d; simpl; try tauto. intros H1 H2. now rewrite H1.
Qed.

Lemma magnitude_flip (a : number) :
  magnitude (a * of_Z (-1))%js =n= magnitude a.
Proof.
  destruct a as [q | | |]; try exact I.
  cbn [mul of_Z magnitude num_eq].
  assert (E : q * inject_Z (-1) == - q)
    by (change (inject_Z (-1)) with (-1 # 1); ring).
  rewrite E. apply Qabs_opp.
Qed.

Lemma same_creation_attributes_refl (p : Particle) :
  same_creation_attributes p p.
Proof. unfold same_creation_attributes. repeat split; apply num_eq_refl. Qed.

Lemma same_creation_attributes_trans (p1 p2 p3 : Particle) :
  same_creation_attributes p1 p2 -> same_creation_attributes p2 p3 ->
  same_creation_attributes p1 p3.
Proof.
  unfold same_creation_attributes.
  intros [A1 [A2 [A3 [A4 [A5 [A6 [A7 A8]]]]]]]
         [B1 [B2 [B3 [B4 [B5 [B6 [B7 B8]]]]]]].
  repeat split; try congruence.
  - eapply num_eq_trans; eassumption.
  - eapply num_eq_trans; eassumption.
Qed.

Lemma update_keeps_attributes (w : World) (p : Particle) :
  same_creation_attributes p (update w p).
Proof.
  rewrite update_unfold. cbv zeta. unfold same_creation_attributes.
  destruct (pointer_distance w p <? of_Z 150)%js.
  - cbn. repeat split; apply num_eq_refl.
  - cbn [x y vx vy set_position].
    destruct (((x p + vx p)%js <? of_Z 0)%js
              || ((x p + vx p)%js >? of_N (canvas_width w))%js);
      cbn [x y vx vy set_position set_vx set_vy];
      destruct (((y p + vy p)%js <? of_Z 0)%js
                || ((y p + vy p)%js >? of_N (canvas_height w))%js);
      cbn [x y vx vy size density colorOffset pulsePhase baseX baseY
           set_vy set_vx set_position];
      repeat split; try apply num_eq_refl; apply magnitude_flip.
Qed.

(** [update] changes a velocity component at most by the factor -1. *)
Lemma update_velocity_signs (w : World) (p : Particle) :
  (vx (update w p) = vx p \/ vx (update w p) = (vx p * of_Z (-1))%js) /\
  (vy (update w p) = vy p \/ vy (update w p) = (vy p * of_Z (-1))%js).
Proof.
  rewrite update_unfold. cbv zeta.
  destruct (pointer_distance w p <? of_Z 150)%js.
  - cbn. split; left; reflexivity.
  - cbn [x y vx vy set_position].
    destruct (((x p + vx p)%js <? of_Z 0)%js
              || ((x p + vx p)%js >? of_N (canvas_width w))%js);
      cbn [x y vx vy set_position set_vx set_vy];
      destruct (((y p + vy p)%js <? of_Z 0)%js
                || ((y p + vy p)%js >? of_N (canvas_height w))%js);
      cbn [x y vx vy set_vy set_vx set_position];
      split; (left; reflexivity) || (right; reflexivity).
Qed.

Lemma draw_keeps_particles (h : Host) (p : Particle) (w : World) :
  particles (final (draw h p w)) = particles w.
Proof.
  unfold draw. destruct (getCurrentSunsetColor (colorTime w) (colorOffset p)).
  - destruct (size p >? Fin 1.5)%js; reflexivity.
  - reflexivity.
Qed.

Lemma Forall2_same_refl (l : list Particle) :
  Forall2 same_creation_attributes l l.
Proof.
  induction l; constructor; [apply same_creation_attributes_refl | assumption].
Qed.

Lemma Forall2_same_trans (l1 l2 l3 : list Particle) :
  Forall2 same_creation_attributes l1 l2 ->
  Forall2 same_creation_attributes l2 l3 ->
  Forall2 same_creation_attributes l1 l3.
Proof.
  intro H. revert l3. induction H; intros l3 H3; inversion H3; subst.
  - constructor.
  - constructor; [eapply same_creation_attributes_trans; eassumption | auto].
Qed.

Lemma Forall2_replace_nth (l : list Particle) :
  forall (i : nat) (p p' : Particle),
    nth_error l i = Some p -> same_creation_attributes p p' ->
    Forall2 same_creation_attributes l (replace_nth i p' l).
Proof.
  induction l as [|a l IH]; intros [|i] p p' Hn Hs; cbn in *; try discriminate.
  - injection Hn as ->. constructor; [exact Hs | apply Forall2_same_refl].
  - constructor; [apply same_creation_attributes_refl | eapply IH; eassumption].
Qed.

Lemma perform_keeps_attributes (h : Host) (w : World) (c : call) :
  Forall2 same_creation_attributes (particles w) (particles (perform h w c)).
Proof.
  destruct c as [i | i | mx my ct cw ch]; cbn [perform].
  - destruct (nth_error (particles w) i) as [p |] eqn:E.
    + cbn [particles set_particles]. eapply Forall2_replace_nth; [exact E |].
      apply update_keeps_attributes.
    + apply Forall2_same_refl.
  - destruct (nth_error (particles w) i) as [p |].
    + rewrite draw_keeps_particles. apply Forall2_same_refl.
    + apply Forall2_same_refl.
  - apply Forall2_same_refl.
Qed.

(** C10: over every sequence of [update] and [draw] calls on the
    particles, interleaved with any changes of the pointer, the clock and
    the canvas extent, each particle keeps its size, density, colorOffset
    and pulsePhase and the magnitudes of vx and vy.  [draw] leaves the
    particles as they are, and a single [update] mutates only the position
    and the signs of the velocity components: every other field of the
    particle, the base position included, is as before, and each velocity
    component is as before or multiplied by -1. *)
Theorem creation_attributes_invariant (h : Host) (calls : list call)
  (w : World) :
  Forall2 same_creation_attributes
    (particles w) (particles (fold_left (perform h) calls w)) /\
  (forall p, particles (final (draw h p w)) = particles w) /\
  (forall p,
     same_creation_attributes p (update w p) /\
     (vx (update w p) = vx p \/ vx (update w p) = (vx p * of_Z (-1))%js) /\
     (vy (update w p) = vy p \/ vy (update w p) = (vy p * of_Z (-1))%js)).
Proof.
  split; [| split; [intro p; apply draw_keeps_particles |]].
  2: { intro p. split; [apply update_keeps_attributes |].
       apply update_velocity_signs. }
  revert w. induction calls as [|c calls IH]; intro w; cbn [fold_left].
  - apply Forall2_same_refl.
  - eapply Forall2_same_trans; [apply perform_keeps_attributes | apply IH].
Qed.

(** ** connectParticles *)

Lemma emits_nil (w : World) : emits [] w = w.
Proof.
  destruct w. unfold emits, set_ctx. cbn. rewrite app_nil_r. reflexivity.
Qed.

Lemma emits_emits (cs1 cs2 : list cmd) (w : World) :
  emits cs2 (emits cs1 w) = emits (cs1 ++ cs2) w.
Proof. unfold emits, set_ctx. cbn. rewrite app_assoc. reflexivity. Qed.

Lemma sample_defined (ct : number) (p : Particle) :
  (exists t : Q, ct = Fin t /\ 0 <= t) -> offset_ok p ->
  exists c, getCurrentSunsetColor ct (colorOffset p) = Some c.
Proof.
  intros [t [-> Ht]] [o [-> Ho]].
  apply sample_total. lra.
Qed.

Lemma connect_pair_defined (w : World) (pa pb : Particle) :
  clock_ok w -> offset_ok pa -> offset_ok pb ->
  exists cs, connect_pair w pa pb = Some cs.
Proof.
  intros Ht Ha Hb. unfold connect_pair. cbv zeta.
  destruct (sample_defined _ pa Ht Ha) as [ca ->].
  destruct (sample_defined _ pb Ht Hb) as [cb ->].
  match goal with |- context [if ?c then _ else _] => destruct c end;
    eexists; reflexivity.
Qed.

Lemma connect_from_lines (pa : Particle) :
  forall (later : list Particle) (w : World),
    clock_ok w ->
    offset_ok pa -> Forall offset_ok later ->
    connect_from pa later w =
    Normal (emits (flat_map (pair_lines w) (map (pair pa) later)) w).
Proof.
  induction later as [|pb later IH]; intros w Ht Ha Hl.
  - cbn. rewrite emits_nil. reflexivity.
  - inversion Hl as [|? ? Hb Hl']; subst.
    destruct (connect_pair_defined w _ _ Ht Ha Hb) as [cs E].
    cbn [connect_from map flat_map]. rewrite E.
    rewrite IH; [| exact Ht | exact Ha | exact Hl'].
    rewrite emits_emits. unfold pair_lines at 2. cbn [fst snd]. rewrite E.
    reflexivity.
Qed.

Lemma connect_all_lines :
  forall (ps : list Particle) (w : World),
    clock_ok w ->
    Forall offset_ok ps ->
    connect_all ps w =
    Normal (emits (flat_map (pair_lines w) (unordered_pairs ps)) w).
Proof.
  induction ps as [|pa ps IH]; intros w Ht Hps.
  - cbn. rewrite emits_nil. reflexivity.
  - inversion Hps as [|? ? Ha Hl]; subst.
    cbn [connect_all unordered_pairs].
    rewrite (connect_from_lines _ _ w Ht Ha Hl). cbn [andThen].
    rewrite IH; [| exact Ht | exact Hl].
    rewrite emits_emits, flat_map_app. reflexivity.
Qed.






Lemma sample_field_colours_ok : colours_ok sample_field.
Proof.
  split.
  - exists (inject_Z 0). split; [reflexivity | apply Qle_refl].
  - repeat constructor; exists 0.1; (split; [reflexivity | discriminate]).
Defined.


(** ** The render loop and its lifecycle *)

Section Lifecycle.

(** The host, and the fuel of the rebuilds, are fixed; the host returns
    random numbers of [0,1) and the fuel covers the 100 particles a
    rebuild creates at most. *)
Variable h : Host.
Variable fuel : nat.
Hypothesis fuel_enough : (100 < fuel)%nat.
Hypothesis random_finite : random_ok h.

Lemma draw_normal (p : Particle) (w : World) :
  clock_ok w -> offset_ok p ->
  exists cs, draw h p w = Normal (emits cs w).
Proof.
  intros Ht Hp. unfold draw.
  destruct (sample_defined _ p Ht Hp) as [c ->].
  destruct (size p >? Fin 1.5)%js.
  - rewrite emits_emits. eexists. reflexivity.
  - eexists. reflexivity.
Qed.

Lemma update_offset_ok (w : World) (p : Particle) :
  offset_ok p -> offset_ok (update w p).
Proof.
  intros [o [E Ho]]. exists o. split; [| exact Ho].
  destruct (update_keeps_attributes w p) as [_ [_ [Hc _]]]. congruence.
Qed.

Lemma world_eta (w : World) : emits [] (set_particles w (particles w)) = w.
Proof.
  destruct w. unfold emits, set_ctx, set_particles. cbn.
  rewrite app_nil_r. reflexivity.
Qed.

Lemma forEach_normal :
  forall (todo done : list Particle) (w : World),
    clock_ok w ->
    Forall offset_ok done -> Forall offset_ok todo ->
    particles w = done ++ todo ->
    exists ps cs,
      forEach_update_draw h done todo w
        = Normal (emits cs (set_particles w ps)) /\
      Forall offset_ok ps.
Proof.
  induction todo as [|p todo IH]; intros done w Ht Hd Htodo Hw.
  - exists (particles w), []. cbn [forEach_update_draw]. rewrite world_eta.
    split; [reflexivity |]. rewrite Hw, app_nil_r. exact Hd.
  - inversion Htodo as [|? ? Hp Htodo']; subst.
    cbn [forEach_update_draw].
    set (p' := update w p).
    assert (Hp' : offset_ok p') by (apply update_offset_ok; exact Hp).
    destruct (draw_normal p' (set_particles w (done ++ p' :: todo)) Ht Hp')
      as [cs ->].
    cbn [andThen].
    destruct (IH (done ++ [p'])
                 (emits cs (set_particles w (done ++ p' :: todo))))
      as [ps [cs' [E Hps]]].
    + exact Ht.
    + apply Forall_app.
      split; [exact Hd | constructor; [exact Hp' | constructor]].
    + exact Htodo'.
    + cbn [particles emits set_ctx set_particles]. rewrite <- app_assoc.
      reflexivity.
    + exists ps, (cs ++ cs'). split; [| exact Hps].
      rewrite E. rewrite <- emits_emits. reflexivity.
Qed.

Lemma wrap1_nonneg_clock (t : Q) :
  0 <= t -> exists t', ((Fin t + Fin 0.0008) mod of_Z 1)%js = Fin t' /\ 0 <= t'.
Proof.
  intro Ht. exists (wrap1 (t + 0.0008)). split; [reflexivity |].
  apply wrap1_range. lra.
Qed.

Lemma animate_visible (w : World) :
  colours_ok w -> isPageVisible w = true -> isCanvasVisible w = true ->
  exists w',
    animate h w = Normal w' /\
    isAnimating w' = true /\
    frameRequests w' = frameRequests w ++ [nextRequest w] /\
    nextRequest w' = S (nextRequest w) /\
    animationId w' = Id (nextRequest w) /\
    isPageVisible w' = true /\ isCanvasVisible w' = true /\
    colours_ok w'.
Proof.
  intros [[t [Ht Ht0]] Hps] Hp Hc. unfold animate. rewrite Hp, Hc.
  cbn [negb orb].
  destruct (wrap1_nonneg_clock t Ht0) as [t' [Et' Ht']].
  set (w3 := set_colorTime _ _).
  assert (Hclock : exists u : Q, colorTime w3 = Fin u /\ 0 <= u).
  { exists t'. split; [| exact Ht']. unfold w3.
    cbn [colorTime set_colorTime emits set_ctx set_isAnimating].
    rewrite Ht. exact Et'. }
  destruct (forEach_normal (particles w3) [] w3 Hclock
              (Forall_nil _) Hps eq_refl) as [ps [cs [E Hps']]].
  rewrite E. cbn [andThen]. unfold connectParticles.
  rewrite connect_all_lines; [| exact Hclock | exact Hps'].
  cbn [andThen requestAnimationFrame].
  eexists. split; [reflexivity |].
  cbn. repeat split; try assumption.
Qed.

Lemma animate_hidden (w : World) :
  isPageVisible w = false \/ isCanvasVisible w = false ->
  animate h w = Normal (set_isAnimating w false).
Proof.
  intro H. unfold animate.
  destruct H as [-> | ->]; cbn [negb orb]; [| rewrite orb_true_r]; reflexivity.
Qed.

Lemma same_loop_refl (w : World) : same_loop w w.
Proof. unfold same_loop. repeat split. Qed.

Lemma same_loop_trans (w1 w2 w3 : World) :
  same_loop w1 w2 -> same_loop w2 w3 -> same_loop w1 w3.
Proof.
  unfold same_loop. intros [A1 [A2 [A3 [A4 [A5 [A6 A7]]]]]]
                           [B1 [B2 [B3 [B4 [B5 [B6 B7]]]]]].
  repeat split; congruence.
Qed.

Lemma same_loop_inv (w w' : World) :
  same_loop w w' -> loop_inv w -> loop_inv w'.
Proof.
  unfold same_loop, loop_inv.
  intros [A1 [A2 [A3 [A4 _]]]] [Hn H]. rewrite A1, A2, A3, A4. auto.
Qed.

Lemma new_Particle_offset_ok (w : World) :
  offset_ok (fst (new_Particle h w)).
Proof.
  unfold new_Particle, offset_ok. cbn [fst colorOffset].
  destruct (random_finite (randomCalls w + 6)%nat) as [q [-> [Hq _]]].
  exists (q * 0.3). split; [reflexivity |]. nra.
Qed.

Lemma init_loop_keeps (n : number) :
  forall (k : nat) (i : number) (w w' : World),
    init_loop k h i n w = Some w' ->
    Forall offset_ok (particles w) ->
    same_loop w w' /\ Forall offset_ok (particles w').
Proof.
  induction k as [|k IH]; intros i w w' Hrun Hps;
    cbn [init_loop] in Hrun; destruct (i <? n)%js; try discriminate.
  - injection Hrun as <-. split; [apply same_loop_refl | exact Hps].
  - pose proof (new_Particle_offset_ok w) as Hp.
    destruct (new_Particle h w) as [p w1] eqn:Enew.
    assert (Ew1 : w1 = set_randomCalls w (randomCalls w + 8)).
    { unfold new_Particle in Enew. injection Enew as _ <-. reflexivity. }
    apply IH in Hrun.
    + destruct Hrun as [Hs Hf]. split; [| exact Hf].
      eapply same_loop_trans; [| exact Hs]. subst w1. unfold same_loop.
      repeat split.
    + subst w1. cbn [particles set_particles set_randomCalls].
      apply Forall_app.
      split; [exact Hps | constructor; [exact Hp | constructor]].
  - injection Hrun as <-. split; [apply same_loop_refl | exact Hps].
Qed.

Lemma init_keeps (w : World) :
  exists w', init fuel h w = Some w' /\ same_loop w w' /\
             Forall offset_ok (particles w').
Proof.
  destruct (init_count fuel h w fuel_enough) as [w' [Hrun _]].
  exists w'. split; [exact Hrun |].
  unfold init in Hrun. apply init_loop_keeps in Hrun.
  - destruct Hrun as [Hs Hf]. split; [| exact Hf].
    eapply same_loop_trans; [| exact Hs]. unfold same_loop. repeat split.
  - constructor.
Qed.

Lemma stopAnimation_idempotent (w : World) :
  stopAnimation (stopAnimation w) = stopAnimation w.
Proof.
  unfold stopAnimation.
  destruct (animationId w) as [| | [|n]] eqn:E; cbn [truthy Nat.eqb negb];
    cbn; rewrite ?E; reflexivity.
Qed.

Lemma stopAnimation_stopped (w : World) :
  isAnimating w = false -> truthy (animationId w) = false ->
  stopAnimation w = w.
Proof.
  intros Ha Ht. unfold stopAnimation. rewrite Ht.
  destruct w. cbn in *. subst. reflexivity.
Qed.

Lemma stopAnimation_inv (w : World) :
  loop_inv w ->
  loop_inv (stopAnimation w) /\
  frameRequests (stopAnimation w) = [] /\
  isAnimating (stopAnimation w) = false /\
  truthy (animationId (stopAnimation w)) = false /\
  particles (stopAnimation w) = particles w /\
  colorTime (stopAnimation w) = colorTime w /\
  isPageVisible (stopAnimation w) = isPageVisible w /\
  isCanvasVisible (stopAnimation w) = isCanvasVisible w.
Proof.
  intros [Hn H].
  assert (Hq : frameRequests (stopAnimation w) = []).
  { unfold stopAnimation. destruct H as [[_ Hq] | [_ [id [Hid [Hq Ha]]]]].
    - destruct (animationId w) as [| | n]; cbn [truthy]; try exact Hq.
      destruct (negb (Nat.eqb n 0)); [| exact Hq].
      cbn. rewrite Hq. reflexivity.
    - rewrite Ha. cbn [truthy].
      rewrite (proj2 (Nat.eqb_neq id 0) Hid). cbn. rewrite Hq. cbn.
      rewrite Nat.eqb_refl. reflexivity. }
  assert (Hrest :
    isAnimating (stopAnimation w) = false /\
    truthy (animationId (stopAnimation w)) = false /\
    particles (stopAnimation w) = particles w /\
    colorTime (stopAnimation w) = colorTime w /\
    isPageVisible (stopAnimation w) = isPageVisible w /\
    isCanvasVisible (stopAnimation w) = isCanvasVisible w /\
    nextRequest (stopAnimation w) = nextRequest w).
  { unfold stopAnimation.
    destruct (animationId w) as [| | [|n]] eqn:E; cbn [truthy Nat.eqb negb];
      cbn; rewrite ?E; repeat split. }
  destruct Hrest as [R1 [R2 [R3 [R4 [R5 [R6 R7]]]]]].
  split.
  - unfold loop_inv. rewrite R7. split; [exact Hn |]. left. auto.
  - repeat split; assumption.
Qed.

Lemma stopAnimation_well_formed (w : World) :
  well_formed w -> well_formed (stopAnimation w).
Proof.
  intros [Hl [Hc Hp]].
  destruct (stopAnimation_inv w Hl) as [Hl' [_ [_ [_ [Ep [Ec _]]]]]].
  split; [exact Hl' |]. unfold colours_ok, clock_ok. rewrite Ep, Ec.
  split; assumption.
Qed.

Lemma startAnimation_inv (w : World) :
  well_formed w ->
  exists w1,
    startAnimation h w = Normal w1 /\ well_formed w1 /\
    (isPageVisible w = true -> isCanvasVisible w = true ->
     isAnimating w1 = true /\ exists id, frameRequests w1 = [id]).
Proof.
  intros [[Hn Hl] Hc]. unfold startAnimation.
  destruct Hl as [[Ha Hq] | [Ha [id [Hid [Hq Hi]]]]]; rewrite Ha;
    cbn [negb andb].
  - destruct (isPageVisible w) eqn:Hp; cbn [andb].
    + destruct (isCanvasVisible w) eqn:Hv.
      * destruct (animate_visible w Hc Hp Hv)
          as [w' [E [A1 [A2 [A3 [A4 [_ [_ A7]]]]]]]].
        exists w'. split; [exact E |]. rewrite Hq in A2. cbn [app] in A2.
        split.
        -- split; [| exact A7]. split; [rewrite A3; discriminate |].
           right. split; [exact A1 |]. exists (nextRequest w). auto.
        -- intros _ _. split; [exact A1 |]. exists (nextRequest w). exact A2.
      * exists w. split; [reflexivity |]. split.
        -- split; [split; [exact Hn | left; auto] | exact Hc].
        -- intros _ Hx. discriminate.
    + exists w. split; [reflexivity |]. split.
      * split; [split; [exact Hn | left; auto] | exact Hc].
      * intros Hx. discriminate.
  - exists w. split; [reflexivity |]. split.
    + split; [split; [exact Hn | right; split; [exact Ha |]; exists id; auto]
             | exact Hc].
    + intros _ _. split; [exact Ha |]. exists id. exact Hq.
Qed.

Lemma visibility_branch_inv (w : World) (c : bool) :
  well_formed w ->
  exists w',
    (if c then startAnimation h w else Normal (stopAnimation w)) = Normal w' /\
    well_formed w'.
Proof.
  intro Hw. destruct c.
  - destruct (startAnimation_inv w Hw) as [w1 [E [Hw1 _]]]. exists w1. auto.
  - exists (stopAnimation w). split; [reflexivity |].
    apply stopAnimation_well_formed. exact Hw.
Qed.

Lemma onIntersection_inv :
  forall (entries : list bool) (w : World),
    well_formed w ->
    exists w', onIntersection h entries w = Normal w' /\ well_formed w'.
Proof.
  induction entries as [|e entries IH]; intros w Hw; cbn [onIntersection].
  - exists w. auto.
  - set (w1 := set_isCanvasVisible w e).
    assert (Hw1 : well_formed w1) by exact Hw.
    destruct (visibility_branch_inv w1 (isCanvasVisible w1 && isPageVisible w1)
                Hw1)
      as [w2 [E Hw2]].
    rewrite E. cbn [andThen]. apply IH. exact Hw2.
Qed.

Lemma runFrame_inv (id : nat) (w : World) :
  well_formed w ->
  exists w', runFrame h id w = Normal w' /\ well_formed w'.
Proof.
  intros [[Hn Hl] Hc]. unfold runFrame.
  destruct Hl as [[Ha Hq] | [Ha [id0 [Hid [Hq Hi]]]]]; rewrite Hq;
    cbn [existsb].
  - exists w. split; [reflexivity |].
    split; [split; [exact Hn | left; auto] | exact Hc].
  - rewrite orb_false_r. destruct (Nat.eqb id id0) eqn:E.
    + apply Nat.eqb_eq in E. subst id0.
      set (w2 := cancelAnimationFrame id w).
      assert (Hq2 : frameRequests w2 = []).
      { unfold w2, cancelAnimationFrame. cbn. rewrite Hq. cbn.
        rewrite Nat.eqb_refl. reflexivity. }
      assert (Hc2 : colours_ok w2) by exact Hc.
      destruct (isPageVisible w) eqn:Hp;
        [destruct (isCanvasVisible w) eqn:Hv |].
      * destruct (animate_visible w2 Hc2 Hp Hv)
          as [w' [Ean [A1 [A2 [A3 [A4 [_ [_ A7]]]]]]]].
        exists w'. split; [exact Ean |]. rewrite Hq2 in A2. cbn [app] in A2.
        split; [| exact A7]. split; [rewrite A3; discriminate |].
        right. split; [exact A1 |]. exists (nextRequest w2).
        split; [exact Hn | auto].
      * rewrite (animate_hidden w2 (or_intror Hv)).
        eexists. split; [reflexivity |]. split; [| exact Hc].
        split; [exact Hn | left; split; [reflexivity | exact Hq2]].
      * rewrite (animate_hidden w2 (or_introl Hp)).
        eexists. split; [reflexivity |]. split; [| exact Hc].
        split; [exact Hn | left; split; [reflexivity | exact Hq2]].
    + exists w. split; [reflexivity |].
      split; [split; [exact Hn | right; split; [exact Ha |]; exists id0; auto]
             | exact Hc].
Qed.

Lemma handle_event_inv (e : event) (w : World) :
  well_formed w ->
  exists w', handle_event fuel h e w = Some w' /\ well_formed w'.
Proof.
  intros Hw. destruct e as [cx cy | hidden | entries | id | iw ih | |];
    cbn [handle_event].
  - eexists. split; [reflexivity |]. unfold handleMouseMove.
    destruct (mouseTrackingEnabled w && isAnimating w); exact Hw.
  - unfold onVisibilityChange.
    set (w1 := set_isPageVisible w (negb hidden)).
    assert (Hw1 : well_formed w1) by exact Hw.
    destruct (visibility_branch_inv w1 (isPageVisible w1 && isCanvasVisible w1)
                Hw1)
      as [w2 [E Hw2]].
    cbv zeta. fold w1. rewrite E. exists w2. auto.
  - destruct (onIntersection_inv entries w Hw) as [w' [E Hw']].
    rewrite E. exists w'. auto.
  - destruct (runFrame_inv id w Hw) as [w' [E Hw']].
    rewrite E. exists w'. auto.
  - unfold onResize.
    destruct (init_keeps (set_canvas w iw ih))
      as [w' [E [Hs Hp]]].
    exists w'. split; [exact E |]. destruct Hw as [Hl [Hc _]]. split.
    + eapply same_loop_inv; [exact Hs | exact Hl].
    + split; [| exact Hp]. destruct Hs as [_ [_ [_ [_ [_ [_ Ect]]]]]].
      unfold clock_ok. rewrite Ect. exact Hc.
  - destruct (startAnimation_inv w Hw) as [w1 [E [Hw1 _]]].
    rewrite E. exists w1. auto.
  - eexists. split; [reflexivity |]. apply stopAnimation_well_formed. exact Hw.
Qed.

Lemma run_events_inv :
  forall (es : list event) (w : World),
    well_formed w ->
    exists w', run_events fuel h es w = Some w' /\ well_formed w'.
Proof.
  induction es as [|e es IH]; intros w Hw; cbn [run_events].
  - exists w. auto.
  - destruct (handle_event_inv e w Hw) as [w1 [E Hw1]].
    rewrite E. apply IH. exact Hw1.
Qed.

Lemma freshly_loaded_well_formed (w : World) :
  freshly_loaded w -> well_formed w.
Proof.
  intros [Hp [_ [_ [_ [Hc [_ [Ha [_ [Hq Hn]]]]]]]]].
  split.
  - split; [exact Hn | left; auto].
  - split.
    + exists (inject_Z 0). split; [exact Hc | apply Qle_refl].
    + rewrite Hp. constructor.
Qed.

(** C6: in every state the page reaches from its load, at most one frame
    request of the render loop is pending.  With both visibility signals
    true, [startAnimation] leaves the loop running with exactly one
    pending request and a second [startAnimation] changes nothing;
    [stopAnimation] leaves no pending request; and [stopAnimation] on a
    stopped loop changes nothing. *)
Theorem start_stop_idempotent (es : list event) (w0 : World) :
  freshly_loaded w0 ->
  exists w,
    run_events fuel h es w0 = Some w /\
    (length (frameRequests w) <= 1)%nat /\
    (isPageVisible w = true -> isCanvasVisible w = true ->
     exists w1,
       startAnimation h w = Normal w1 /\
       startAnimation h w1 = Normal w1 /\
       isAnimating w1 = true /\
       length (frameRequests w1) = 1%nat) /\
    frameRequests (stopAnimation w) = [] /\
    isAnimating (stopAnimation w) = false /\
    stopAnimation (stopAnimation w) = stopAnimation w /\
    (isAnimating w = false -> truthy (animationId w) = false ->
     stopAnimation w = w).
Proof.
  intros Hfresh.
  destruct (run_events_inv es w0
              (freshly_loaded_well_formed w0 Hfresh)) as [w [E Hw]].
  exists w. split; [exact E |].
  pose proof Hw as [Hl Hc].
  split; [| split; [| split; [| split; [| split]]]].
  - destruct Hl as [_ [[_ ->] | [_ [id [_ [-> _]]]]]]; cbn; lia.
  - intros Hp Hv.
    destruct (startAnimation_inv w Hw) as [w1 [E1 [Hw1 H1]]].
    destruct (H1 Hp Hv) as [Ha [id Hq]].
    exists w1. split; [exact E1 |]. split; [| split; [exact Ha |]].
    + unfold startAnimation. rewrite Ha. reflexivity.
    + rewrite Hq. reflexivity.
  - apply (stopAnimation_inv w Hl).
  - apply (stopAnimation_inv w Hl).
  - apply stopAnimation_idempotent.
  - apply stopAnimation_stopped.
Qed.

End Lifecycle.

Lemma still_host_random_ok : random_ok still_host.
Proof.
  intro k. exists 0.5. split; [reflexivity |].
  split; [discriminate | reflexivity].
Defined.

Lemma page_freshly_loaded (mobile reduced : bool) (iw ih : N) :
  freshly_loaded (page mobile reduced iw ih).
Proof.
  unfold freshly_loaded. cbn. repeat split. discriminate.
Defined.

Lemma start_stop_idempotent_witness :
  exists w,
    run_events 101 still_host sample_session (page false false 0 0) = Some w /\
    (length (frameRequests w) <= 1)%nat /\
    frameRequests (stopAnimation w) = [] /\
    stopAnimation (stopAnimation w) = stopAnimation w.
Proof.
  destruct (start_stop_idempotent still_host 101 ltac:(repeat constructor)
              still_host_random_ok sample_session (page false false 0 0)
              (page_freshly_loaded false false 0 0))
    as [w [E [H1 [_ [H3 [_ [H5 _]]]]]]].
  exists w. auto.
Defined.

(** ** More on particles: creation, NaN, repulsion *)

Lemma add_NaN_l (a : number) : (NaN + a)%js = NaN.
Proof. destruct a; reflexivity. Qed.

Lemma add_NaN_r (a : number) : (a + NaN)%js = NaN.
Proof. destruct a; reflexivity. Qed.

Lemma new_Particle_as_created (h : Host) (w : World) :
  random_ok h ->
  as_created (canvas_width w) (canvas_height w) (fst (new_Particle h w)).
Proof.
  intro Hr. unfold new_Particle, as_created. cbn [fst x y size baseX baseY
    density vx vy colorOffset pulsePhase].
  set (k := randomCalls w).
  destruct (Hr k) as [r0 [-> [L0 U0]]].
  destruct (Hr (k + 1)%nat) as [r1 [-> [L1 U1]]].
  destruct (Hr (k + 2)%nat) as [r2 [-> [L2 U2]]].
  destruct (Hr (k + 3)%nat) as [r3 [-> [L3 U3]]].
  destruct (Hr (k + 4)%nat) as [r4 [-> [L4 U4]]].
  destruct (Hr (k + 5)%nat) as [r5 [-> [L5 U5]]].
  destruct (Hr (k + 6)%nat) as [r6 [-> [L6 U6]]].
  destruct (Hr (k + 7)%nat) as [r7 [-> [L7 U7]]].
  assert (HW : 0 <= inject_Z (Z.of_N (canvas_width w))).
  { change 0 with (inject_Z 0). rewrite <- Zle_Qle. lia. }
  assert (HH : 0 <= inject_Z (Z.of_N (canvas_height w))).
  { change 0 with (inject_Z 0). rewrite <- Zle_Qle. lia. }
  unfold inside, Math_PI, of_N, of_Z.
  cbn [mul add sub neg].
  revert HW HH.
  generalize (inject_Z (Z.of_N (canvas_width w)))
             (inject_Z (Z.of_N (canvas_height w))).
  intros W H HW HH.
  repeat split; try reflexivity;
    (eexists; split; [reflexivity |]; unfold inject_Z; split; nra).
Qed.

Lemma init_loop_as_created (h : Host) (n : number) :
  random_ok h ->
  forall (k : nat) (i : number) (w w' : World),
    init_loop k h i n w = Some w' ->
    Forall (as_created (canvas_width w) (canvas_height w)) (particles w) ->
    Forall (as_created (canvas_width w) (canvas_height w)) (particles w') /\
    canvas_width w' = canvas_width w /\ canvas_height w' = canvas_height w /\
    (randomCalls w' + 8 * length (particles w)
     = randomCalls w + 8 * length (particles w'))%nat.
Proof.
  intros Hr. induction k as [|k IH]; intros i w w' Hrun Hps;
    cbn [init_loop] in Hrun; destruct (i <? n)%js; try discriminate.
  - injection Hrun as <-. repeat split; try exact Hps; lia.
  - pose proof (new_Particle_as_created h w Hr) as Hp.
    destruct (new_Particle h w) as [p w1] eqn:Enew.
    assert (Ew1 : w1 = set_randomCalls w (randomCalls w + 8)).
    { unfold new_Particle in Enew. injection Enew as _ <-. reflexivity. }
    subst w1. cbn [fst] in Hp. apply IH in Hrun.
    + cbn [canvas_width canvas_height particles randomCalls
           set_particles set_randomCalls] in Hrun.
      destruct Hrun as [Hf [Hw [Hh Hc]]].
      repeat split; try assumption.
      rewrite length_app in Hc. cbn [length] in Hc. lia.
    + cbn [canvas_width canvas_height particles set_particles set_randomCalls].
      apply Forall_app. split; [exact Hps | constructor; [exact Hp | constructor]].
  - injection Hrun as <-. repeat split; try exact Hps; lia.
Qed.

(** X1: every particle a rebuild creates lies on the canvas, with size in
    [1,3], density in [1,31], velocity components in [-0.25,0.25], colour
    offset in [0,0.3], pulse phase in [0, 2 Math.PI] and its base position
    equal to its position; the rebuild consumes eight random values per
    particle. *)
Theorem rebuild_particles_as_created (fuel : nat) (h : Host) (w : World) :
  (100 < fuel)%nat -> random_ok h ->
  exists w',
    init fuel h w = Some w' /\
    Forall (as_created (canvas_width w) (canvas_height w)) (particles w') /\
    randomCalls w' = (randomCalls w + 8 * length (particles w'))%nat.
Proof.
  intros Hfuel Hr. destruct (init_count fuel h w Hfuel) as [w' [Hrun _]].
  exists w'. split; [exact Hrun |].
  unfold init in Hrun.
  apply (init_loop_as_created h _ Hr) in Hrun; [| constructor].
  cbn [canvas_width canvas_height particles randomCalls set_particles length]
    in Hrun.
  destruct Hrun as [Hf [_ [_ Hc]]]. split; [exact Hf | lia].
Qed.

Lemma rebuild_particles_as_created_witness :
  exists w',
    init 101 still_host (page false false 1024 768) = Some w' /\
    Forall (as_created 1024 768) (particles w') /\
    randomCalls w' = (0 + 8 * length (particles w'))%nat.
Proof.
  apply (rebuild_particles_as_created 101 still_host
           (page false false 1024 768) ltac:(repeat constructor)
           still_host_random_ok).
Defined.

(** X2: a position component that is NaN stays NaN under every later
    update, whatever the pointer and the canvas are, and the velocity
    never flips on the NaN axis; an update of such a particle is never a
    repulsion: it advances both components by the velocity, so that the
    other component drifts. *)
Theorem NaN_position_is_permanent (ws : list World) (p : Particle) :
  (x p = NaN -> x (updates ws p) = NaN /\ vx (updates ws p) = vx p) /\
  (y p = NaN -> y (updates ws p) = NaN /\ vy (updates ws p) = vy p) /\
  (forall w : World, x p = NaN \/ y p = NaN ->
     x (update w p) = (x p + vx p)%js /\ y (update w p) = (y p + vy p)%js).
Proof.
  assert (Hfar : forall w q, x q = NaN \/ y q = NaN ->
                   (pointer_distance w q <? of_Z 150)%js = false).
  { intros w q [Hq | Hq]; unfold pointer_distance; rewrite Hq, sub_NaN_r,
      mul_NaN_l; [rewrite add_NaN_l | rewrite add_NaN_r]; reflexivity. }
  assert (Hdrift : forall w : World, x p = NaN \/ y p = NaN ->
            x (update w p) = (x p + vx p)%js /\
            y (update w p) = (y p + vy p)%js).
  { intros w Hq. destruct (update_drift w p (Hfar w p Hq)) as [Ex [Ey _]].
    split; assumption. }
  assert (Hstay :
    (x p = NaN -> x (updates ws p) = NaN /\ vx (updates ws p) = vx p) /\
    (y p = NaN -> y (updates ws p) = NaN /\ vy (updates ws p) = vy p)).
  { clear Hfar Hdrift.
    assert (Hx : forall w q, x q = NaN ->
                   x (update w q) = NaN /\ vx (update w q) = vx q).
    { intros w q Hq.
      assert (Hd : pointer_distance w q = NaN).
      { unfold pointer_distance. rewrite Hq, sub_NaN_r, mul_NaN_l, add_NaN_l.
        reflexivity. }
      assert (Hfar : (pointer_distance w q <? of_Z 150)%js = false)
        by (rewrite Hd; reflexivity).
      destruct (update_drift w q Hfar) as [Ex [_ [Ev _]]].
      rewrite Ex, Ev, Hq, add_NaN_l. split; reflexivity. }
    assert (Hy : forall w q, y q = NaN ->
                   y (update w q) = NaN /\ vy (update w q) = vy q).
    { intros w q Hq.
      assert (Hd : pointer_distance w q = NaN).
      { unfold pointer_distance. rewrite Hq, sub_NaN_r, mul_NaN_l, add_NaN_r.
        reflexivity. }
      assert (Hfar : (pointer_distance w q <? of_Z 150)%js = false)
        by (rewrite Hd; reflexivity).
      destruct (update_drift w q Hfar) as [_ [Ey [_ Ev]]].
      rewrite Ey, Ev, Hq, add_NaN_l. split; reflexivity. }
    unfold updates. split; intro H0.
    - revert p H0. induction ws as [|w ws IH]; intros p H0; cbn [fold_left].
      + auto.
      + destruct (Hx w p H0) as [E1 E2].
        destruct (IH (update w p) E1) as [F1 F2]. split; congruence.
    - revert p H0. induction ws as [|w ws IH]; intros p H0; cbn [fold_left].
      + auto.
      + destruct (Hy w p H0) as [E1 E2].
        destruct (IH (update w p) E1) as [F1 F2]. split; congruence. }
  destruct Hstay as [H1 H2].
  split; [exact H1 | split; [exact H2 | exact Hdrift]].
Qed.

Lemma NaN_position_is_permanent_witness :
  let p := particle_at NaN (of_Z 40) in
  let ws := [page false false 1000 1000; sample_field] in
  (x (updates ws p) = NaN /\ vx (updates ws p) = vx p) /\
  y (update sample_field p) = (y p + vy p)%js.
Proof.
  intros p ws.
  destruct (NaN_position_is_permanent ws p) as [Hx [_ Hd]].
  split; [apply Hx; reflexivity |].
  apply (Hd sample_field). left. reflexivity.
Defined.

(** X3: repulsion pushes away from the pointer.  A particle of a density
    between 0 and 31, between 1 and 149 away from the pointer, keeps
    its velocity and is moved, in each coordinate, away from the pointer or
    not at all: a coordinate at or beyond that of the pointer does not
    decrease, one at or before it does not increase. *)
Theorem repulsion_pushes_away (w : World) (p : Particle)
  (mx my qx qy rho : Q) :
  mouseX w = Fin mx -> mouseY w = Fin my ->
  x p = Fin qx -> y p = Fin qy -> density p = Fin rho ->
  0 <= rho <= 31 ->
  1 <= (mx - qx) * (mx - qx) + (my - qy) * (my - qy) ->
  (mx - qx) * (mx - qx) + (my - qy) * (my - qy) <= inject_Z (149 * 149) ->
  exists x' y' : Q,
    x (update w p) = Fin x' /\ y (update w p) = Fin y' /\
    (mx <= qx -> qx <= x') /\ (qx <= mx -> x' <= qx) /\
    (my <= qy -> qy <= y') /\ (qy <= my -> y' <= qy) /\
    vx (update w p) = vx p /\ vy (update w p) = vy p.
Proof.
  intros Hmx Hmy Hx Hy Hrho [Hpos _] Hlo Hhi.
  destruct (update_near w p mx my qx qy rho Hmx Hmy Hx Hy Hrho Hpos Hlo Hhi)
    as [k [x' [y' [Hk [_ [Ex [Ey [Dx [Dy [Evx Evy]]]]]]]]]].
  exists x', y'. split; [exact Ex |]. split; [exact Ey |].
  assert (Px : mx <= qx -> qx <= x').
  { intro H. assert (0 <= k * (qx - mx)) by nra. lra. }
  assert (Nx : qx <= mx -> x' <= qx).
  { intro H. assert (k * (qx - mx) <= 0) by nra. lra. }
  assert (Py : my <= qy -> qy <= y').
  { intro H. assert (0 <= k * (qy - my)) by nra. lra. }
  assert (Ny : qy <= my -> y' <= qy).
  { intro H. assert (k * (qy - my) <= 0) by nra. lra. }
  repeat split; assumption.
Qed.

Lemma repulsion_pushes_away_witness :
  let w := page false false 1000 1000 in
  let p := particle_30_40 in
  exists x' y' : Q,
    x (update w p) = Fin x' /\ y (update w p) = Fin y' /\
    (0 <= 30 -> 30 <= x') /\ (30 <= 0 -> x' <= 30) /\
    (0 <= 40 -> 40 <= y') /\ (40 <= 0 -> y' <= 40) /\
    vx (update w p) = vx p /\ vy (update w p) = vy p.
Proof.
  intros w p.
  apply (repulsion_pushes_away w p 0 0 30 40 3 eq_refl eq_refl eq_refl
           eq_refl eq_refl); try split; vm_compute; discriminate.
Defined.

(** ** More on colours, drawing and frames *)

Lemma round_half_up_int (v : Q) (z : Z) : v == inject_Z z -> round_half_up v = z.
Proof.
  intro E. unfold round_half_up.
  assert (H : inject_Z z <= v + (1 # 2) < inject_Z (z + 1)).
  { rewrite inject_Z_plus, E. change (inject_Z 1) with 1. split; lra. }
  destruct H as [H1 H2].
  pose proof (Qfloor_le (v + (1 # 2))) as F1.
  pose proof (Qlt_floor (v + (1 # 2))) as F2.
  assert (A : inject_Z (Qfloor (v + (1 # 2))) < inject_Z (z + 1))
    by (eapply Qle_lt_trans; eassumption).
  assert (B : inject_Z z < inject_Z (Qfloor (v + (1 # 2)) + 1))
    by (eapply Qle_lt_trans; eassumption).
  rewrite <- Zlt_Qlt in A, B. lia.
Qed.

(** The sample as integer channels. *)
Lemma sample_rgb (t o : Q) :
  0 <= t + o ->
  exists zr zg zb : Z,
    getCurrentSunsetColor (Fin t) (Fin o) = Some (rgb zr zg zb) /\
    (0 <= zr <= 255 /\ 0 <= zg <= 255 /\ 0 <= zb <= 255)%Z.
Proof.
  intro Ha. destruct (sample_segment _ _ Ha) as [k [f [Hk [_ [Hf ->]]]]].
  assert (Hf' : 0 <= f <= 1) by (split; lra).
  palette_cases k Hk; rewrite interpolateColor_rgb;
    (do 3 eexists; split; [reflexivity |]);
    (split; [| split]);
    (apply round_half_up_between; apply mix_between; [lia | lia | exact Hf']).
Qed.

Lemma mix_between_min_max (c1 c2 : Z) (f : Q) :
  0 <= f <= 1 ->
  (Z.min c1 c2 <= round_half_up (mix c1 c2 f) <= Z.max c1 c2)%Z.
Proof.
  intro Hf. apply round_half_up_between. apply mix_between; [lia | lia | exact Hf].
Qed.

(** X4: [interpolateColor] on colours with integer channels returns the
    first colour at factor 0, the second at factor 1, the colour itself
    when both are the same, and for a factor of [0,1] a colour whose
    every channel is an integer between the two given ones. *)
Theorem interpolateColor_endpoints (a1 a2 a3 b1 b2 b3 : Z) (f : Q) :
  0 <= f <= 1 ->
  interpolateColor (rgb a1 a2 a3) (rgb b1 b2 b3) (of_Z 0) = rgb a1 a2 a3 /\
  interpolateColor (rgb a1 a2 a3) (rgb b1 b2 b3) (of_Z 1) = rgb b1 b2 b3 /\
  interpolateColor (rgb a1 a2 a3) (rgb a1 a2 a3) (Fin f) = rgb a1 a2 a3 /\
  color_between (rgb a1 a2 a3) (rgb b1 b2 b3)
    (interpolateColor (rgb a1 a2 a3) (rgb b1 b2 b3) (Fin f)).
Proof.
  intro Hf. unfold of_Z at 1 2. rewrite !interpolateColor_rgb.
  assert (E0 : forall a c, round_half_up (mix a c (inject_Z 0)) = a).
  { intros a c. apply round_half_up_int. unfold mix.
    change (inject_Z 0) with 0. ring. }
  assert (E1 : forall a c, round_half_up (mix a c (inject_Z 1)) = c).
  { intros a c. apply round_half_up_int. unfold mix.
    change (inject_Z 1) with 1. ring. }
  assert (Es : forall a, round_half_up (mix a a f) = a).
  { intros a. apply round_half_up_int. unfold mix. ring. }
  rewrite !E0, !E1, !Es.
  split; [reflexivity |]. split; [reflexivity |]. split; [reflexivity |].
  unfold color_between, channel_between. cbn [r g b rgb].
  (split; [| split]);
    (do 3 eexists; split; [reflexivity |]; split; [reflexivity |];
     split; [reflexivity |]; apply mix_between_min_max; exact Hf).
Qed.

Lemma interpolateColor_endpoints_witness :
  interpolateColor (rgb 255 140 66) (rgb 201 108 77) (of_Z 0)
    = rgb 255 140 66 /\
  interpolateColor (rgb 255 140 66) (rgb 201 108 77) (of_Z 1)
    = rgb 201 108 77 /\
  interpolateColor (rgb 255 140 66) (rgb 255 140 66) (Fin 0.5)
    = rgb 255 140 66 /\
  color_between (rgb 255 140 66) (rgb 201 108 77)
    (interpolateColor (rgb 255 140 66) (rgb 201 108 77) (Fin 0.5)).
Proof.
  apply (interpolateColor_endpoints 255 140 66 201 108 77 0.5).
  split; discriminate.
Defined.

(** X5: a sample is taken between two neighbouring palette stops: there
    is a segment [k] of 0..5 such that every channel of the sample is an
    integer between the channels of stops [k] and [k + 1].  For a clock
    and an offset of [0,1] it is the segment the wrapped phase falls in,
    when six times that phase is at least a millionth away from both ends
    of the segment. *)
Theorem sample_within_segment (t o : Q) :
  0 <= t + o ->
  exists (k : Z) (c1 c2 c : Color),
    (0 <= k <= 5)%Z /\
    nth_error sunsetColors (Z.to_nat k) = Some c1 /\
    nth_error sunsetColors (Z.to_nat (k + 1)) = Some c2 /\
    getCurrentSunsetColor (Fin t) (Fin o) = Some c /\
    color_between c1 c2 c /\
    (forall j : Z,
       0 <= t <= 1 -> 0 <= o <= 1 ->
       inject_Z j + (1 # 1000000) <= 6 * wrap1 (t + o) ->
       6 * wrap1 (t + o) <= inject_Z (j + 1) - (1 # 1000000) ->
       k = j).
Proof.
  intro Ha. destruct (sample_segment _ _ Ha) as [k [f [Hk [Ef [Hf ->]]]]].
  assert (Hf' : 0 <= f <= 1) by (split; lra).
  assert (Hseg : forall j : Z,
            0 <= t <= 1 -> 0 <= o <= 1 ->
            inject_Z j + (1 # 1000000) <= 6 * wrap1 (t + o) ->
            6 * wrap1 (t + o) <= inject_Z (j + 1) - (1 # 1000000) ->
            k = j).
  { intros j _ _ Hlo Hhi.
    assert (H1 : inject_Z j < inject_Z (k + 1)).
    { rewrite inject_Z_plus. change (inject_Z 1) with 1. lra. }
    assert (H2 : inject_Z k < inject_Z (j + 1)) by lra.
    rewrite <- Zlt_Qlt in H1, H2. lia. }
  exists k. revert Hseg.
  palette_cases k Hk; intros Hseg; rewrite interpolateColor_rgb;
    (do 3 eexists; split; [lia |];
     split; [reflexivity |]; split; [reflexivity |]; split; [reflexivity |];
     split;
     [ unfold color_between, channel_between; cbn [r g b rgb];
       (split; [| split]);
       (do 3 eexists; split; [reflexivity |]; split; [reflexivity |];
        split; [reflexivity |]; apply mix_between_min_max; exact Hf')
     | exact Hseg ]).
Qed.

Lemma sample_within_segment_witness :
  exists (k : Z) (c1 c2 c : Color),
    (0 <= k <= 5)%Z /\
    nth_error sunsetColors (Z.to_nat k) = Some c1 /\
    nth_error sunsetColors (Z.to_nat (k + 1)) = Some c2 /\
    getCurrentSunsetColor (Fin 0.9) (Fin 0.25) = Some c /\
    color_between c1 c2 c /\
    (forall j : Z,
       0 <= 0.9 <= 1 -> 0 <= 0.25 <= 1 ->
       inject_Z j + (1 # 1000000) <= 6 * wrap1 (0.9 + 0.25) ->
       6 * wrap1 (0.9 + 0.25) <= inject_Z (j + 1) - (1 # 1000000) ->
       k = j).
Proof.
  apply (sample_within_segment 0.9 0.25). discriminate.
Defined.

Lemma Qsqrt_le (q : Q) (c : Z) :
  0 <= q -> (0 <= c)%Z -> q <= inject_Z (c * c) -> Qsqrt q <= inject_Z c.
Proof.
  intros Hq Hc Hle. unfold Qsqrt.
  set (s := (2 ^ sqrt_bits)%Z).
  assert (Hs : (0 < s)%Z) by reflexivity.
  assert (Hs2 : (2 ^ (2 * sqrt_bits) = s * s)%Z) by reflexivity.
  set (F := Qfloor (q * inject_Z (2 ^ (2 * sqrt_bits)))).
  assert (HF : (F <= (c * s) * (c * s))%Z).
  { unfold F. rewrite <- (Qfloor_Z ((c * s) * (c * s))).
    apply Qfloor_resp_le.
    replace ((c * s) * (c * s))%Z with ((c * c) * (s * s))%Z by ring.
    rewrite Hs2, (inject_Z_mult (c * c)).
    apply Qmult_le_compat_r; [exact Hle |].
    change 0 with (inject_Z 0). rewrite <- Zle_Qle. nia. }
  assert (HS : (Z.sqrt F <= c * s)%Z).
  { rewrite <- (Z.sqrt_square (c * s)) by nia. apply Z.sqrt_le_mono. exact HF. }
  unfold Qle, inject_Z. cbn [Qnum Qden]. rewrite Z2Pos.id by exact Hs. lia.
Qed.

Lemma Qsqrt_nonneg (q : Q) : 0 <= Qsqrt q.
Proof.
  unfold Qsqrt, Qle. cbn [Qnum Qden].
  pose proof (Z.sqrt_nonneg (Qfloor (q * inject_Z (2 ^ (2 * sqrt_bits))))).
  lia.
Qed.

(** X6: whatever two particles with finite positions the connector looks
    at, it either draws nothing or strokes one line whose colour channels
    are integers of [0,255] and whose opacity lies in [0, 0.25]. *)
Theorem connector_lines_are_faint (w : World) (pa pb : Particle)
  (ax ay bx by' : Q) :
  clock_ok w -> offset_ok pa -> offset_ok pb ->
  x pa = Fin ax -> y pa = Fin ay -> x pb = Fin bx -> y pb = Fin by' ->
  connect_pair w pa pb = Some [] \/
  exists (zr zg zb : Z) (a : Q),
    connect_pair w pa pb =
    Some [ strokeStyle (mkRgba (of_Z zr) (of_Z zg) (of_Z zb) (Fin a));
           lineWidth (of_Z 1); beginPath;
           moveTo (x pa) (y pa); lineTo (x pb) (y pb); stroke ] /\
    (0 <= zr <= 255 /\ 0 <= zg <= 255 /\ 0 <= zb <= 255)%Z /\
    0 <= a <= 1 # 4.
Proof.
  intros [t [Ht Ht0]] [oa [Hoa Hoa0]] [ob [Hob Hob0]] Hxa Hya Hxb Hyb.
  unfold connect_pair. cbv zeta. rewrite Ht, Hoa, Hob.
  destruct (sample_rgb t oa) as [ra [ga [ba [-> [Ra [Ga Ba]]]]]]; [lra |].
  destruct (sample_rgb t ob) as [rb [gb [bb [-> [Rb [Gb Bb]]]]]]; [lra |].
  rewrite Hxa, Hya, Hxb, Hyb. cbn [sub add neg mul gt lt of_Z].
  set (s := (ax + - bx) * (ax + - bx) + (ay + - by') * (ay + - by')).
  set (T := connectDistance w).
  assert (HT : (0 < T)%Z)
    by (unfold T, connectDistance; destruct (isMobile w); lia).
  destruct (Qlt_bool (inject_Z T * inject_Z T) s) eqn:Efar; [left; reflexivity |].
  right. apply Qlt_bool_false_iff in Efar.
  assert (Hs : 0 <= s) by apply sum_squares_nonneg.
  assert (Hneg : Qlt_bool s 0 = false) by (apply Qlt_bool_false_iff; exact Hs).
  cbn [Math_sqrt]. rewrite Hneg. cbn [div of_Z].
  assert (HTq : 0 < inject_Z T)
    by (change 0 with (inject_Z 0); rewrite <- Zlt_Qlt; exact HT).
  rewrite (proj2 (Qsgn_Gt _) HTq). cbn [sub add neg mul].
  rewrite interpolateColor_rgb. cbn [r g b rgb].
  do 4 eexists. split; [reflexivity |]. split.
  - assert (Hh : 0 <= 0.5 <= 1) by (split; discriminate).
    pose proof (mix_between_min_max ra rb 0.5 Hh).
    pose proof (mix_between_min_max ga gb 0.5 Hh).
    pose proof (mix_between_min_max ba bb 0.5 Hh).
    lia.
  - assert (Hd : Qsqrt s <= inject_Z T).
    { apply Qsqrt_le; [exact Hs | lia |]. rewrite inject_Z_mult. exact Efar. }
    pose proof (Qsqrt_nonneg s) as Hd0.
    assert (Hq : 0 <= Qsqrt s / inject_Z T <= 1).
    { split.
      - apply Qle_shift_div_l; [exact HTq |]. rewrite Qmult_0_l. exact Hd0.
      - apply Qle_shift_div_r; [exact HTq |]. rewrite Qmult_1_l. exact Hd. }
    revert Hq. generalize (Qsqrt s / inject_Z T). intros u Hu.
    unfold inject_Z. split; lra.
Qed.

Lemma connector_lines_are_faint_witness :
  connect_pair sample_field particle_30_40 particle_30_40 = Some [] \/
  exists (zr zg zb : Z) (a : Q),
    connect_pair sample_field particle_30_40 particle_30_40 =
    Some [ strokeStyle (mkRgba (of_Z zr) (of_Z zg) (of_Z zb) (Fin a));
           lineWidth (of_Z 1); beginPath;
           moveTo (of_Z 30) (of_Z 40); lineTo (of_Z 30) (of_Z 40); stroke ] /\
    (0 <= zr <= 255 /\ 0 <= zg <= 255 /\ 0 <= zb <= 255)%Z /\
    0 <= a <= 1 # 4.
Proof.
  assert (Ho : offset_ok particle_30_40).
  { exists 0.1. split; [reflexivity | discriminate]. }
  apply (connector_lines_are_faint sample_field particle_30_40 particle_30_40
           (inject_Z 30) (inject_Z 40) (inject_Z 30) (inject_Z 40)
           (proj1 sample_field_colours_ok) Ho Ho
           eq_refl eq_refl eq_refl eq_refl).
Defined.

Lemma unordered_pairs_length (A : Type) (l : list A) :
  (2 * length (unordered_pairs l) = length l * (length l - 1))%nat.
Proof.
  induction l as [|a l IH]; [reflexivity |].
  cbn [unordered_pairs length]. rewrite length_app, length_map. nia.
Qed.

Lemma pair_lines_length (w : World) (ab : Particle * Particle) :
  (length (pair_lines w ab) <= 6)%nat.
Proof.
  unfold pair_lines, connect_pair. cbv zeta.
  destruct (_ >? _)%js; [cbn; lia |].
  destruct (getCurrentSunsetColor _ _); [| cbn; lia].
  destruct (getCurrentSunsetColor _ _); cbn; lia.
Qed.

Lemma flat_map_length_le (A B : Type) (f : A -> list B) (n : nat) (l : list A) :
  (forall a, length (f a) <= n)%nat ->
  (length (flat_map f l) <= n * length l)%nat.
Proof.
  intro H. induction l as [|a l IH]; cbn [flat_map length]; [lia |].
  rewrite length_app. specialize (H a). nia.
Qed.

(** X7: a connector pass over n particles visits n(n-1)/2 pairs and
    makes at most six calls on the context for each; with the at most 100
    particles of a rebuild that is at most 4950 pairs and 6 * 4950 calls. *)
Theorem connector_pass_size (w : World) :
  colours_ok w ->
  exists cs,
    connectParticles w = Normal (emits cs w) /\
    (2 * length (unordered_pairs (particles w))
     = length (particles w) * (length (particles w) - 1))%nat /\
    (length cs <= 6 * length (unordered_pairs (particles w)))%nat /\
    ((length (particles w) <= 100)%nat ->
     (length (unordered_pairs (particles w)) <= 4950)%nat /\
     (length cs <= 6 * 4950)%nat).
Proof.
  intros [Ht Hps].
  exists (flat_map (pair_lines w) (unordered_pairs (particles w))).
  split; [unfold connectParticles; apply connect_all_lines; assumption |].
  pose proof (unordered_pairs_length _ (particles w)) as Hn.
  pose proof (flat_map_length_le _ _ (pair_lines w) 6
                (unordered_pairs (particles w)) (pair_lines_length w)) as Hc.
  split; [exact Hn |]. split; [exact Hc |].
  intro H100.
  assert (Hp : (length (particles w) * (length (particles w) - 1)
                <= 100 * 99)%nat)
    by (apply Nat.mul_le_mono; lia).
  lia.
Qed.

Lemma connector_pass_size_witness :
  exists cs,
    connectParticles sample_field = Normal (emits cs sample_field) /\
    (2 * length (unordered_pairs (particles sample_field))
     = length (particles sample_field)
       * (length (particles sample_field) - 1))%nat /\
    (length cs <= 6 * length (unordered_pairs (particles sample_field)))%nat /\
    ((length (particles sample_field) <= 100)%nat ->
     (length (unordered_pairs (particles sample_field)) <= 4950)%nat /\
     (length cs <= 6 * 4950)%nat).
Proof.
  apply (connector_pass_size sample_field sample_field_colours_ok).
Defined.

(** X8: with a sine in [-1,1], [draw] on a particle of a size in [1,3]
    and a finite pulse phase, under a valid clock and offset, never throws
    and draws one disc, of a colour with channels in [0,255], opacity
    within [0.55,0.75] and radius within 0.87 and 1.13 times the size,
    followed by a glow disc of three times the size and opacity within
    [0.11,0.19] exactly when the size exceeds 1.5.  (In exact arithmetic
    the ranges are [0.56,0.74], [0.88,1.12] and [0.12,0.18]; the wider
    ones leave room for the rounding of the sums and products.) *)
Theorem draw_discs (h : Host) (p : Particle) (w : World) (s ph : Q) :
  sin_ok h -> clock_ok w -> offset_ok p ->
  size p = Fin s -> 1 <= s <= 3 -> pulsePhase p = Fin ph ->
  exists (zr zg zb : Z) (a m ag : Q),
    draw h p w =
    Normal
      (emits
         ([ fillStyle (mkRgba (of_Z zr) (of_Z zg) (of_Z zb) (Fin a));
            beginPath;
            arc (x p) (y p) (Fin (s * m)) (of_Z 0) (Math_PI * of_Z 2)%js;
            fill ]
          ++ (if Qlt_bool 1.5 s
              then [ fillStyle (mkRgba (of_Z zr) (of_Z zg) (of_Z zb) (Fin ag));
                     beginPath;
                     arc (x p) (y p) (Fin (s * inject_Z 3)) (of_Z 0)
                         (Math_PI * of_Z 2)%js;
                     fill ]
              else []))
         w) /\
    (0 <= zr <= 255 /\ 0 <= zg <= 255 /\ 0 <= zb <= 255)%Z /\
    0.55 <= a <= 0.75 /\ 0.87 <= m <= 1.13 /\ 0.11 <= ag <= 0.19.
Proof.
  intros Hsin [t [Ht Ht0]] [o [Ho Ho0]] Hs _ Hph.
  unfold draw. rewrite Ht, Ho, Hs, Hph.
  destruct (sample_rgb t o) as [zr [zg [zb [-> Hz]]]]; [lra |].
  set (tau := (Math_PI * of_Z 2)%js).
  unfold Math_PI. cbn [mul add of_Z].
  match goal with
  | |- context [Math_sin h (Fin ?arg)] =>
      destruct (Hsin arg) as [v [-> [Hv1 Hv2]]]
  end.
  cbn [mul add gt lt r g b rgb]. subst tau.
  exists zr, zg, zb, (0.5 + (0.5 + 0.3 * v) * 0.3), (0.8 + (0.5 + 0.3 * v) * 0.4),
         (0.1 + (0.5 + 0.3 * v) * 0.1).
  split.
  - destruct (Qlt_bool 1.5 s).
    + rewrite emits_emits. reflexivity.
    + rewrite app_nil_r. reflexivity.
  - split; [exact Hz |]. repeat split; lra.
Qed.

Lemma draw_discs_witness :
  exists (zr zg zb : Z) (a m ag : Q),
    draw still_host particle_30_40 sample_field =
    Normal
      (emits
         ([ fillStyle (mkRgba (of_Z zr) (of_Z zg) (of_Z zb) (Fin a));
            beginPath;
            arc (of_Z 30) (of_Z 40) (Fin (inject_Z 2 * m)) (of_Z 0)
                (Math_PI * of_Z 2)%js;
            fill ]
          ++ (if Qlt_bool 1.5 (inject_Z 2)
              then [ fillStyle (mkRgba (of_Z zr) (of_Z zg) (of_Z zb) (Fin ag));
                     beginPath;
                     arc (of_Z 30) (of_Z 40) (Fin (inject_Z 2 * inject_Z 3))
                         (of_Z 0) (Math_PI * of_Z 2)%js;
                     fill ]
              else []))
         sample_field) /\
    (0 <= zr <= 255 /\ 0 <= zg <= 255 /\ 0 <= zb <= 255)%Z /\
    0.55 <= a <= 0.75 /\ 0.87 <= m <= 1.13 /\ 0.11 <= ag <= 0.19.
Proof.
  apply (draw_discs still_host particle_30_40 sample_field
           (inject_Z 2) (inject_Z 0)).
  - intro q. exists (inject_Z 0). split; [reflexivity |]. split; discriminate.
  - exact (proj1 sample_field_colours_ok).
  - exists 0.1. split; [reflexivity | discriminate].
  - reflexivity.
  - split; discriminate.
  - reflexivity.
Defined.

Lemma update_reads (w1 w2 : World) (p : Particle) :
  mouseX w1 = mouseX w2 -> mouseY w1 = mouseY w2 ->
  canvas_width w1 = canvas_width w2 -> canvas_height w1 = canvas_height w2 ->
  update w1 p = update w2 p.
Proof.
  intros E1 E2 E3 E4. unfold update. rewrite E1, E2, E3, E4. reflexivity.
Qed.

Lemma forEach_map (h : Host) :
  forall (todo done : list Particle) (w : World),
    clock_ok w -> Forall offset_ok done -> Forall offset_ok todo ->
    particles w = done ++ todo ->
    exists cs,
      forEach_update_draw h done todo w
        = Normal (emits cs (set_particles w (done ++ map (update w) todo))).
Proof.
  induction todo as [|p todo IH]; intros done w Ht Hd Htodo Hw.
  - exists []. cbn [forEach_update_draw map]. rewrite app_nil_r.
    rewrite app_nil_r in Hw. rewrite <- Hw, world_eta. reflexivity.
  - inversion Htodo as [|? ? Hp Htodo']; subst.
    cbn [forEach_update_draw map].
    set (p' := update w p).
    assert (Hp' : offset_ok p') by (apply update_offset_ok; exact Hp).
    destruct (draw_normal h p' (set_particles w (done ++ p' :: todo)) Ht Hp')
      as [cs ->].
    cbn [andThen].
    destruct (IH (done ++ [p'])
                 (emits cs (set_particles w (done ++ p' :: todo))))
      as [cs' E].
    + exact Ht.
    + apply Forall_app.
      split; [exact Hd | constructor; [exact Hp' | constructor]].
    + exact Htodo'.
    + cbn [particles emits set_ctx set_particles]. rewrite <- app_assoc.
      reflexivity.
    + exists (cs ++ cs'). rewrite E, <- emits_emits, <- app_assoc.
      cbn [app].
      rewrite (map_ext (update (emits cs (set_particles w (done ++ p' :: todo))))
                       (update w))
        by (intro q; apply update_reads; reflexivity).
      reflexivity.
Qed.

(** X9: a frame on a visible page updates every particle exactly once, in
    order and against the pointer and canvas as the frame found them;
    it leaves pointer and canvas alone, advances the clock by one step,
    and clears the canvas before anything is drawn. *)
Theorem frame_updates_every_particle (h : Host) (w : World) :
  colours_ok w -> isPageVisible w = true -> isCanvasVisible w = true ->
  exists w' cs,
    animate h w = Normal w' /\
    particles w' = map (update w) (particles w) /\
    colorTime w' = next_colorTime (colorTime w) /\
    ctx w' = ctx w ++ clearRect (of_Z 0) (of_Z 0) (of_N (canvas_width w))
                                (of_N (canvas_height w)) :: cs /\
    mouseX w' = mouseX w /\ mouseY w' = mouseY w /\
    canvas_width w' = canvas_width w /\ canvas_height w' = canvas_height w.
Proof.
  intros [[t [Ht Ht0]] Hps] Hp Hc. unfold animate. rewrite Hp, Hc.
  cbn [negb orb].
  destruct (wrap1_nonneg_clock t Ht0) as [t' [Et' Ht']].
  set (w3 := set_colorTime _ _).
  assert (Hclock : clock_ok w3).
  { exists t'. split; [| exact Ht']. unfold w3.
    cbn [colorTime set_colorTime emits set_ctx set_isAnimating].
    rewrite Ht. exact Et'. }
  destruct (forEach_map h (particles w3) [] w3 Hclock
              (Forall_nil _) Hps eq_refl) as [cs E].
  rewrite E. cbn [andThen app]. unfold connectParticles.
  assert (Hps' : Forall offset_ok (map (update w3) (particles w3))).
  { apply Forall_forall. intros q Hq. apply in_map_iff in Hq.
    destruct Hq as [q0 [<- Hq0]]. apply update_offset_ok.
    rewrite Forall_forall in Hps. apply Hps. exact Hq0. }
  rewrite connect_all_lines; [| exact Hclock | exact Hps'].
  cbn [andThen requestAnimationFrame].
  eexists. eexists. split; [reflexivity |].
  cbn [particles colorTime ctx mouseX mouseY canvas_width canvas_height
       set_animationId set_frames emits set_ctx set_particles].
  split.
  - apply map_ext. intro q. apply update_reads; reflexivity.
  - split; [reflexivity |]. split; [| repeat split].
    unfold w3. cbn [ctx set_colorTime emits set_ctx set_isAnimating
                    canvas_width canvas_height].
    rewrite <- !app_assoc. reflexivity.
Qed.

Lemma frame_updates_every_particle_witness :
  exists w' cs,
    animate still_host sample_field = Normal w' /\
    particles w' = map (update sample_field) (particles sample_field) /\
    colorTime w' = next_colorTime (colorTime sample_field) /\
    ctx w' = ctx sample_field
             ++ clearRect (of_Z 0) (of_Z 0) (of_N 1000) (of_N 1000) :: cs /\
    mouseX w' = of_Z 0 /\ mouseY w' = of_Z 0 /\
    canvas_width w' = 1000%N /\ canvas_height w' = 1000%N.
Proof.
  apply (frame_updates_every_particle still_host sample_field
           sample_field_colours_ok eq_refl eq_refl).
Defined.

Lemma Qfloor_unique (v : Q) (z : Z) :
  inject_Z z <= v < inject_Z (z + 1) -> Qfloor v = z.
Proof.
  intros [H1 H2].
  pose proof (Qfloor_le v) as F1. pose proof (Qlt_floor v) as F2.
  assert (A : inject_Z (Qfloor v) < inject_Z (z + 1))
    by (eapply Qle_lt_trans; eassumption).
  assert (B : inject_Z z < inject_Z (Qfloor v + 1))
    by (eapply Qle_lt_trans; eassumption).
  rewrite <- Zlt_Qlt in A, B. lia.
Qed.

Lemma Qfloor_minus_int (a : Q) (k : Z) :
  Qfloor (a - inject_Z k) = (Qfloor a - k)%Z.
Proof.
  apply Qfloor_unique.
  pose proof (Qfloor_le a) as F1. pose proof (Qlt_floor a) as F2.
  replace (Qfloor a - k + 1)%Z with (Qfloor a + 1 - k)%Z by ring.
  unfold Z.sub. rewrite !inject_Z_plus, inject_Z_opp.
  rewrite inject_Z_plus in F2.
  split; lra.
Qed.

Lemma wrap1_eq (a c : Q) : 0 <= a -> a == c -> wrap1 a == wrap1 c.
Proof.
  intros Ha E.
  assert (Hc : 0 <= c) by (rewrite <- E; exact Ha).
  assert (Ef : Qfloor a = Qfloor c) by (apply Qfloor_comp; exact E).
  rewrite (wrap1_floor a Ha), (wrap1_floor c Hc), Ef. lra.
Qed.

Lemma wrap1_frac_step (a d : Q) :
  0 <= a -> 0 <= d ->
  wrap1 (wrap1 a + d) == wrap1 (a + d).
Proof.
  intros Ha Hd.
  destruct (wrap1_range a Ha) as [W0 _].
  rewrite (wrap1_floor (wrap1 a + d)) by lra.
  rewrite (wrap1_floor (a + d)) by lra.
  assert (E : wrap1 a + d == (a + d) - inject_Z (Qfloor a))
    by (rewrite (wrap1_floor a Ha); ring).
  rewrite E at 2. rewrite Qfloor_minus_int.
  rewrite E. unfold Z.sub. rewrite inject_Z_plus, inject_Z_opp. ring.
Qed.

Lemma circle_distance_same (p q : Q) : p == q -> circle_distance p q <= 0.
Proof.
  intro E. unfold circle_distance.
  eapply Qle_trans; [apply Q.le_min_l |].
  assert (E0 : p - q == 0) by (rewrite E; ring).
  rewrite E0. apply Qle_refl.
Qed.

(** X10: the colour clock stays in [0,1) and turns once in 1250 frames.
    From a clock value t of [0,1), n frames lead to a value of [0,1)
    that is, on the circle, within n times 10^-15 of the fractional part
    of t + 0.0008 n; after 1250 frames the clock is back within 10^-9 of
    t.  (In exact arithmetic both distances are 0; the bounds leave room
    for the rounding of the additions.) *)
Theorem colour_clock_cycle (t : Q) (n : nat) :
  0 <= t < 1 ->
  exists t' : Q,
    Nat.iter n next_colorTime (Fin t) = Fin t' /\
    0 <= t' < 1 /\
    circle_distance t' (wrap1 (t + 0.0008 * inject_Z (Z.of_nat n)))
      <= inject_Z (Z.of_nat n) * (1 # 1000000000000000) /\
    (n = 1250%nat -> circle_distance t' t <= 1 # 1000000000).
Proof.
  intros [H0 H1].
  assert (Hn : exists t' : Q,
             Nat.iter n next_colorTime (Fin t) = Fin t' /\
             t' == wrap1 (t + 0.0008 * inject_Z (Z.of_nat n))).
  { induction n as [|n [t' [E Ht']]].
    - exists t. split; [reflexivity |]. cbn [Z.of_nat].
      rewrite wrap1_id; [change (inject_Z 0) with 0; ring |].
      change (inject_Z 0) with 0. split; lra.
    - exists (wrap1 (t' + 0.0008)).
      change (Nat.iter (S n) next_colorTime (Fin t))
        with (next_colorTime (Nat.iter n next_colorTime (Fin t))).
      rewrite E.
      split; [reflexivity |].
      assert (Hq : 0 <= 0.0008 * inject_Z (Z.of_nat n)).
      { apply Qmult_le_0_compat; [discriminate |].
        change 0 with (inject_Z 0). rewrite <- Zle_Qle. lia. }
      assert (Ha : 0 <= t + 0.0008 * inject_Z (Z.of_nat n)) by lra.
      destruct (wrap1_range _ Ha) as [W0 _].
      assert (Hstep : wrap1 (t' + 0.0008)
                      == wrap1 (wrap1 (t + 0.0008 * inject_Z (Z.of_nat n))
                                + 0.0008)).
      { apply wrap1_eq; [rewrite Ht'; lra | rewrite Ht'; reflexivity]. }
      rewrite Hstep, wrap1_frac_step by lra.
      apply wrap1_eq; [lra |].
      rewrite Nat2Z.inj_succ. unfold Z.succ. rewrite inject_Z_plus.
      change (inject_Z 1) with 1. ring. }
  destruct Hn as [t' [E Ht']]. exists t'. split; [exact E |].
  assert (Hq : 0 <= 0.0008 * inject_Z (Z.of_nat n)).
  { apply Qmult_le_0_compat; [discriminate |].
    change 0 with (inject_Z 0). rewrite <- Zle_Qle. lia. }
  assert (Hn0 : 0 <= inject_Z (Z.of_nat n)).
  { change 0 with (inject_Z 0). rewrite <- Zle_Qle. lia. }
  split; [| split].
  - rewrite Ht'. apply wrap1_range. lra.
  - eapply Qle_trans; [apply circle_distance_same; exact Ht' |].
    apply Qmult_le_0_compat; [exact Hn0 | discriminate].
  - intros ->.
    assert (Ea : t + 0.0008 * inject_Z (Z.of_nat 1250) == t + 1)
      by (vm_compute (inject_Z (Z.of_nat 1250)); ring).
    assert (Ha : 0 <= t + 0.0008 * inject_Z (Z.of_nat 1250))
      by (rewrite Ea; lra).
    assert (Ef : Qfloor (t + 0.0008 * inject_Z (Z.of_nat 1250)) = 1%Z).
    { rewrite (Qfloor_comp _ _ Ea). apply Qfloor_unique.
      change (inject_Z (1 + 1)) with 2. change (inject_Z 1) with 1.
      split; lra. }
    assert (Eback : t' == t).
    { rewrite Ht', (wrap1_floor _ Ha), Ef, Ea. change (inject_Z 1) with 1.
      ring. }
    eapply Qle_trans; [apply circle_distance_same; exact Eback |].
    discriminate.
Qed.

Lemma colour_clock_cycle_witness :
  exists t' : Q,
    Nat.iter 1250 next_colorTime (Fin 0.25) = Fin t' /\
    0 <= t' < 1 /\
    circle_distance t' (wrap1 (0.25 + 0.0008 * inject_Z (Z.of_nat 1250)))
      <= inject_Z (Z.of_nat 1250) * (1 # 1000000000000000) /\
    (1250%nat = 1250%nat -> circle_distance t' 0.25 <= 1 # 1000000000).
Proof.
  apply (colour_clock_cycle 0.25 1250). split; [discriminate | reflexivity].
Defined.

(** ** What the handlers leave alone *)

Lemma final_andThen (c : completion) (k : World -> completion) :
  final (c >>= k) = match c with Normal w => final (k w) | Throw w => w end.
Proof. destruct c; reflexivity. Qed.

(** [draw] touches nothing but the drawing context, also when it throws. *)
Lemma draw_final (h : Host) (p : Particle) (w : World) :
  exists cs, final (draw h p w) = emits cs w.
Proof.
  unfold draw. destruct (getCurrentSunsetColor _ _).
  - destruct (_ >? _)%js; cbn [final]; [rewrite emits_emits |];
      eexists; reflexivity.
  - exists []. cbn [final]. rewrite emits_nil. reflexivity.
Qed.

Lemma connect_from_final (pa : Particle) :
  forall (later : list Particle) (w : World),
    exists cs, final (connect_from pa later w) = emits cs w.
Proof.
  induction later as [|pb later IH]; intro w; cbn [connect_from].
  - exists []. cbn [final]. rewrite emits_nil. reflexivity.
  - destruct (connect_pair w pa pb) as [cs |].
    + destruct (IH (emits cs w)) as [cs' E]. exists (cs ++ cs').
      rewrite E, emits_emits. reflexivity.
    + exists []. cbn [final]. rewrite emits_nil. reflexivity.
Qed.

Lemma connect_all_final :
  forall (ps : list Particle) (w : World),
    exists cs, final (connect_all ps w) = emits cs w.
Proof.
  induction ps as [|pa ps IH]; intro w; cbn [connect_all].
  - exists []. cbn [final]. rewrite emits_nil. reflexivity.
  - rewrite final_andThen.
    destruct (connect_from_final pa ps w) as [cs E].
    destruct (connect_from pa ps w) as [w1 | w1]; cbn [final] in E; subst w1.
    + destruct (IH (emits cs w)) as [cs' E']. exists (cs ++ cs').
      rewrite E', emits_emits. reflexivity.
    + exists cs. reflexivity.
Qed.

Lemma forEach_final (h : Host) :
  forall (todo done : list Particle) (w : World),
    exists ps cs,
      final (forEach_update_draw h done todo w) = emits cs (set_particles w ps).
Proof.
  induction todo as [|p todo IH]; intros done w; cbn [forEach_update_draw].
  - exists (particles w), []. cbn [final]. rewrite world_eta. reflexivity.
  - rewrite final_andThen.
    set (w1 := set_particles w (done ++ update w p :: todo)).
    destruct (draw_final h (update w p) w1) as [cs E].
    destruct (draw h (update w p) w1) as [w2 | w2]; cbn [final] in E; subst w2.
    + destruct (IH (done ++ [update w p]) (emits cs w1)) as [ps [cs' E']].
      exists ps, (cs ++ cs'). rewrite E'. unfold w1.
      rewrite <- emits_emits. reflexivity.
    + exists (done ++ update w p :: todo), cs. reflexivity.
Qed.

(** What [animate] can change, also when it throws: the running flag, the
    context, the clock, the particles, the frame requests and
    [animationId]. *)
Lemma animate_final (h : Host) (w : World) :
  exists (a : bool) (c : list cmd) (ct : number) (ps : list Particle)
         (q : list nat) (n : nat) (hd : handle),
    final (animate h w) =
    mkWorld (isMobile w) (prefersReducedMotion w) (canvas_width w)
      (canvas_height w) ps (mouseX w) (mouseY w) hd ct (isPageVisible w)
      (isCanvasVisible w) a (mouseTrackingEnabled w) c q n (randomCalls w).
Proof.
  unfold animate.
  destruct (negb (isPageVisible w) || negb (isCanvasVisible w)).
  - do 7 eexists. reflexivity.
  - set (w3 := set_colorTime _ _).
    destruct (forEach_final h (particles w3) [] w3) as [ps [cs E]].
    destruct (forEach_update_draw h [] (particles w3) w3) as [w4 | w4];
      cbn [final] in E; subst w4; cbn [andThen].
    + unfold connectParticles.
      set (w4 := emits cs (set_particles w3 ps)).
      destruct (connect_all_final (particles w4) w4) as [cs' E'].
      destruct (connect_all (particles w4) w4) as [w5 | w5];
        cbn [final] in E'; subst w5; cbn [andThen];
        do 7 eexists; reflexivity.
    + do 7 eexists. reflexivity.
Qed.

Lemma init_loop_shape (h : Host) (n : number) :
  forall (k : nat) (i : number) (w w' : World),
    init_loop k h i n w = Some w' ->
    exists ps r, w' = set_randomCalls (set_particles w ps) r.
Proof.
  assert (Eta : forall u : World,
             u = set_randomCalls (set_particles u (particles u)) (randomCalls u))
    by (intro u; destruct u; reflexivity).
  induction k as [|k IH]; intros i w w' Hrun;
    cbn [init_loop] in Hrun; destruct (i <? n)%js; try discriminate.
  - injection Hrun as <-. do 2 eexists. apply Eta.
  - unfold new_Particle in Hrun. apply IH in Hrun.
    destruct Hrun as [ps [r ->]]. do 2 eexists. reflexivity.
  - injection Hrun as <-. do 2 eexists. apply Eta.
Qed.

(** X11: a resize rebuild replaces the canvas extent and the particles and
    touches nothing else of the script's state but the count of random
    values: the loop state, its pending frame, the clock and the pointer
    are as before. *)
Theorem resize_touches_only_canvas_and_particles
  (fuel : nat) (h : Host) (iw ih : N) (w : World) :
  (100 < fuel)%nat ->
  exists ps r,
    onResize fuel h iw ih w =
    Some (set_randomCalls (set_particles (set_canvas w iw ih) ps) r).
Proof.
  intro Hfuel. unfold onResize.
  destruct (init_count fuel h (set_canvas w iw ih) Hfuel) as [w' [Hrun _]].
  rewrite Hrun. unfold init in Hrun. apply init_loop_shape in Hrun.
  destruct Hrun as [ps [r ->]]. exists ps, r. reflexivity.
Qed.

Lemma resize_touches_only_canvas_and_particles_witness :
  exists ps r,
    onResize 101 still_host 800 600 sample_field =
    Some (set_randomCalls (set_particles (set_canvas sample_field 800 600) ps)
                          r).
Proof.
  apply (resize_touches_only_canvas_and_particles 101 still_host 800 600
           sample_field).
  repeat constructor.
Defined.

Lemma stopAnimation_pointer (w : World) :
  mouseX (stopAnimation w) = mouseX w /\
  mouseY (stopAnimation w) = mouseY w /\
  mouseTrackingEnabled (stopAnimation w) = mouseTrackingEnabled w.
Proof.
  unfold stopAnimation.
  destruct (truthy (animationId w)); [destruct (animationId w) |];
    repeat split.
Qed.

Lemma startAnimation_pointer (h : Host) (w : World) :
  mouseX (final (startAnimation h w)) = mouseX w /\
  mouseY (final (startAnimation h w)) = mouseY w /\
  mouseTrackingEnabled (final (startAnimation h w)) = mouseTrackingEnabled w.
Proof.
  unfold startAnimation.
  destruct (negb (isAnimating w) && isPageVisible w && isCanvasVisible w).
  - destruct (animate_final h w) as [a [c [ct [ps [q [n [hd ->]]]]]]].
    repeat split.
  - repeat split.
Qed.

Lemma onIntersection_pointer (h : Host) :
  forall (entries : list bool) (w : World),
    mouseX (final (onIntersection h entries w)) = mouseX w /\
    mouseY (final (onIntersection h entries w)) = mouseY w /\
    mouseTrackingEnabled (final (onIntersection h entries w))
      = mouseTrackingEnabled w.
Proof.
  induction entries as [|e entries IH]; intro w; cbn [onIntersection].
  - repeat split.
  - set (w1 := set_isCanvasVisible w e).
    rewrite final_andThen.
    destruct (isCanvasVisible w1 && isPageVisible w1).
    + pose proof (startAnimation_pointer h w1) as Hs.
      destruct (startAnimation h w1) as [w2 | w2]; cbn [final] in Hs.
      * destruct (IH w2) as [A [B C]]. destruct Hs as [A' [B' C']].
        rewrite A, B, C, A', B', C'. repeat split.
      * exact Hs.
    + destruct (IH (stopAnimation w1)) as [A [B C]].
      destruct (stopAnimation_pointer w1) as [A' [B' C']].
      rewrite A, B, C, A', B', C'. repeat split.
Qed.

(** Only a pointer event changes the pointer position, and nothing
    changes [mouseTrackingEnabled]. *)
Lemma handle_event_pointer (fuel : nat) (h : Host) (e : event) (w w' : World) :
  handle_event fuel h e w = Some w' ->
  mouseTrackingEnabled w' = mouseTrackingEnabled w /\
  ((forall cx cy, e <> MouseMove cx cy) ->
   mouseX w' = mouseX w /\ mouseY w' = mouseY w).
Proof.
  destruct e as [cx cy | hidden | entries | id | iw ih | |];
    cbn [handle_event]; intro H.
  - injection H as <-. split.
    + unfold handleMouseMove.
      destruct (mouseTrackingEnabled w && isAnimating w); reflexivity.
    + intro Hne. exfalso. apply (Hne cx cy). reflexivity.
  - injection H as <-. unfold onVisibilityChange. cbv zeta.
    set (w1 := set_isPageVisible w (negb hidden)).
    destruct (isPageVisible w1 && isCanvasVisible w1).
    + destruct (startAnimation_pointer h w1) as [A [B C]]. auto.
    + destruct (stopAnimation_pointer w1) as [A [B C]]. cbn [final]. auto.
  - injection H as <-.
    destruct (onIntersection_pointer h entries w) as [A [B C]]. auto.
  - injection H as <-. unfold runFrame.
    destruct (existsb (Nat.eqb id) (frameRequests w)).
    + destruct (animate_final h (cancelAnimationFrame id w))
        as [a [c [ct [ps [q [n [hd ->]]]]]]].
      repeat split.
    + repeat split.
  - unfold onResize, init in H. apply init_loop_shape in H.
    destruct H as [ps [r ->]]. repeat split.
  - injection H as <-.
    destruct (startAnimation_pointer h w) as [A [B C]]. auto.
  - injection H as <-.
    destruct (stopAnimation_pointer w) as [A [B C]]. auto.
Qed.

Lemma run_events_tracking (fuel : nat) (h : Host) :
  forall (es : list event) (w w' : World),
    run_events fuel h es w = Some w' ->
    mouseTrackingEnabled w' = mouseTrackingEnabled w.
Proof.
  induction es as [|e es IH]; intros w w' H; cbn [run_events] in H.
  - injection H as <-. reflexivity.
  - destruct (handle_event fuel h e w) as [w1 |] eqn:E; [| discriminate].
    apply handle_event_pointer in E. destruct E as [E _].
    rewrite (IH _ _ H). exact E.
Qed.

(** Without a pointer event the recorded pointer stays where it is. *)
Lemma run_events_no_pointer (fuel : nat) (h : Host) :
  forall (es : list event) (w w' : World),
    forallb (fun e => negb (pointer_event e)) es = true ->
    run_events fuel h es w = Some w' ->
    mouseX w' = mouseX w /\ mouseY w' = mouseY w.
Proof.
  induction es as [|e es IH]; intros w w' Hes H; cbn [run_events] in H.
  - injection H as <-. split; reflexivity.
  - cbn [forallb] in Hes. apply andb_prop in Hes. destruct Hes as [He Hes].
    destruct (handle_event fuel h e w) as [w1 |] eqn:E; [| discriminate].
    apply handle_event_pointer in E. destruct E as [_ E].
    destruct E as [E1 E2].
    { intros cx cy ->. discriminate He. }
    destruct (IH w1 w' Hes H) as [I1 I2]. split; congruence.
Qed.

(** C4 (amended): there is no unset pointer.  In every state the page
    reaches from its load without a pointer event, the pointer is at
    (0,0), the top-left corner of the canvas, and [update] measures the
    distance to it.  A particle at least 151 away from that corner
    advances by its drift velocity.  A particle on the canvas between 1
    and 149 away from the corner, of a density between 1 and 31 as the
    constructor gives it, does not drift: it keeps its velocity and is
    pushed away from the corner, neither coordinate decreasing and their
    sum growing. *)
Theorem update_before_pointer_events (fuel : nat) (h : Host)
  (es : list event) (w0 w : World) (p : Particle) (qx qy : Q) :
  freshly_loaded w0 ->
  forallb (fun e => negb (pointer_event e)) es = true ->
  run_events fuel h es w0 = Some w ->
  x p = Fin qx -> y p = Fin qy ->
  mouseX w = of_Z 0 /\ mouseY w = of_Z 0 /\
  (inject_Z (151 * 151) <= qx * qx + qy * qy ->
   x (update w p) = (x p + vx p)%js /\ y (update w p) = (y p + vy p)%js) /\
  (forall rho : Q,
     density p = Fin rho -> 1 <= rho <= 31 -> 0 <= qx -> 0 <= qy ->
     1 <= qx * qx + qy * qy -> qx * qx + qy * qy <= inject_Z (149 * 149) ->
     exists x' y' : Q,
       x (update w p) = Fin x' /\ y (update w p) = Fin y' /\
       qx <= x' /\ qy <= y' /\ qx + qy < x' + y' /\
       vx (update w p) = vx p /\ vy (update w p) = vy p).
Proof.
  intros Hfresh Hes Hrun Hx Hy.
  destruct (run_events_no_pointer fuel h es w0 w Hes Hrun) as [Emx Emy].
  destruct Hfresh as [_ [Hmx [Hmy _]]].
  rewrite Hmx in Emx. rewrite Hmy in Emy.
  split; [exact Emx |]. split; [exact Emy |].
  assert (Es : (0 - qx) * (0 - qx) + (0 - qy) * (0 - qy)
               == qx * qx + qy * qy) by ring.
  split.
  - intro Hfar.
    assert (Hdrift : (pointer_distance w p <? of_Z 150)%js = false).
    { apply (update_far w p 0 0 qx qy Emx Emy Hx Hy). rewrite Es. exact Hfar. }
    destruct (update_drift w p Hdrift) as [Ex [Ey _]]. split; assumption.
  - intros rho Hrho [Hdense _] Hqx Hqy Hlo Hhi.
    destruct (update_near w p 0 0 qx qy rho Emx Emy Hx Hy Hrho)
      as [k [x' [y' [_ [Hk [Ex [Ey [Dx [Dy [Evx Evy]]]]]]]]]].
    + lra.
    + rewrite Es. exact Hlo.
    + rewrite Es. exact Hhi.
    + assert (Hk0 : 0 < k) by (apply Hk; lra).
      assert (Hsum : 0 < qx + qy) by nra.
      exists x', y'. split; [exact Ex |]. split; [exact Ey |].
      assert (Hx' : 0 <= k * (qx - 0)) by nra.
      assert (Hy' : 0 <= k * (qy - 0)) by nra.
      assert (Hs' : 0 < k * (qx - 0) + k * (qy - 0)) by nra.
      repeat split; try assumption; lra.
Qed.

Lemma update_before_pointer_events_witness :
  let w0 := page false false 1000 1000 in
  let p := particle_30_40 in
  exists w,
    run_events 0 still_host [VisibilityChange true; StopAnimation] w0
      = Some w /\
    mouseX w = of_Z 0 /\ mouseY w = of_Z 0 /\
    exists x' y' : Q,
      x (update w p) = Fin x' /\ y (update w p) = Fin y' /\
      30 <= x' /\ 40 <= y' /\ 30 + 40 < x' + y' /\
      vx (update w p) = vx p /\ vy (update w p) = vy p.
Proof.
  intros w0 p. eexists. split; [reflexivity |].
  destruct (update_before_pointer_events 0 still_host
              [VisibilityChange true; StopAnimation] w0 _ p 30 40
              (page_freshly_loaded false false 1000 1000) eq_refl eq_refl
              eq_refl eq_refl) as [Hmx [Hmy [_ Hnear]]].
  split; [exact Hmx |]. split; [exact Hmy |].
  apply (Hnear 3 eq_refl); try split; vm_compute; discriminate.
Defined.

(** C4, as stated, on a page where no pointer event was ever received: the
    particle at (30,40) moving by (0.1,0.2) does not advance by its drift
    velocity, which would take it to (30.1,40.2); it is pushed away from
    the corner (0,0), beyond (30.5,40.7). *)
Lemma fresh_page_update_is_not_drift :
  let w := page false false 1000 1000 in
  let p := particle_30_40 in
  freshly_loaded w /\
  exists x' y' dx dy : Q,
    x (update w p) = Fin x' /\ y (update w p) = Fin y' /\
    (x p + vx p)%js = Fin dx /\ (y p + vy p)%js = Fin dy /\
    dx < 30.2 /\ dy < 40.3 /\ 30.5 < x' /\ 40.7 < y'.
Proof.
  intros w p. split; [apply page_freshly_loaded |].
  do 4 eexists. vm_compute. repeat split.
Qed.

(** Between the distances 149 and 151 the branch is decided by the rounded
    distance: the point (90, 120 - 2^-46) is nearer than 150 to the corner
    (0,0), but the distance the code computes for it is 150, and the
    particle there is not repelled. *)
Lemma pointer_distance_rounds_to_radius :
  let y := (120 - Z.ldexp 1 (-46))%float in
  exact 90 * exact 90 + exact y * exact y < 150 * 150 /\
  pointer_distance64 0 0 90 y = 150%float /\
  repelled64 0 0 90 y = false.
Proof. vm_compute. repeat split. Qed.

(** X12: in every state the page reaches, a pointer event is recorded
    exactly when the render loop is running; no other event moves the
    recorded pointer, so after [stopAnimation] the pointer last seen is
    kept until the loop runs again. *)
Theorem pointer_recorded_only_while_running
  (fuel : nat) (h : Host) (es : list event) (w0 : World) :
  (100 < fuel)%nat -> random_ok h -> freshly_loaded w0 ->
  exists w,
    run_events fuel h es w0 = Some w /\
    (forall cx cy,
       (isAnimating w = true -> handleMouseMove cx cy w = set_mouse w cx cy) /\
       (isAnimating w = false -> handleMouseMove cx cy w = w) /\
       handleMouseMove cx cy (stopAnimation w) = stopAnimation w) /\
    (forall e w',
       (forall cx cy, e <> MouseMove cx cy) ->
       handle_event fuel h e w = Some w' ->
       mouseX w' = mouseX w /\ mouseY w' = mouseY w).
Proof.
  intros Hfuel Hr Hfresh.
  destruct (run_events_inv h fuel Hfuel Hr es w0
              (freshly_loaded_well_formed w0 Hfresh)) as [w [E Hw]].
  exists w. split; [exact E |].
  assert (Ht : mouseTrackingEnabled w = true).
  { rewrite (run_events_tracking fuel h es w0 w E).
    destruct Hfresh as [_ [_ [_ [_ [_ [_ [_ [Ht _]]]]]]]]. exact Ht. }
  split.
  - intros cx cy. unfold handleMouseMove. rewrite Ht. cbn [andb].
    split; [intros ->; reflexivity |]. split; [intros ->; reflexivity |].
    destruct (stopAnimation_pointer w) as [_ [_ Et]].
    destruct (mouseTrackingEnabled (stopAnimation w));
      unfold stopAnimation; reflexivity.
  - intros e w' Hne He.
    apply (handle_event_pointer fuel h e w w' He). exact Hne.
Qed.

Lemma pointer_recorded_only_while_running_witness :
  exists w,
    run_events 101 still_host sample_session (page false false 0 0) = Some w /\
    (forall cx cy,
       (isAnimating w = true -> handleMouseMove cx cy w = set_mouse w cx cy) /\
       (isAnimating w = false -> handleMouseMove cx cy w = w) /\
       handleMouseMove cx cy (stopAnimation w) = stopAnimation w) /\
    (forall e w',
       (forall cx cy, e <> MouseMove cx cy) ->
       handle_event 101 still_host e w = Some w' ->
       mouseX w' = mouseX w /\ mouseY w' = mouseY w).
Proof.
  apply (pointer_recorded_only_while_running 101 still_host sample_session
           (page false false 0 0) ltac:(repeat constructor)
           still_host_random_ok (page_freshly_loaded false false 0 0)).
Defined.

Lemma animate_flags (h : Host) (w : World) :
  isPageVisible (final (animate h w)) = isPageVisible w /\
  isCanvasVisible (final (animate h w)) = isCanvasVisible w /\
  (isAnimating (final (animate h w)) = true ->
   isPageVisible w = true /\ isCanvasVisible w = true).
Proof.
  destruct (isPageVisible w) eqn:Hp; [destruct (isCanvasVisible w) eqn:Hc |].
  - destruct (animate_final h w) as [a [c [ct [ps [q [n [hd ->]]]]]]].
    cbn [final isPageVisible isCanvasVisible]. auto.
  - rewrite animate_hidden by (right; exact Hc). cbn. rewrite Hp, Hc.
    repeat split; discriminate.
  - rewrite animate_hidden by (left; exact Hp). cbn. rewrite Hp.
    repeat split; discriminate.
Qed.

Lemma stopAnimation_flags (w : World) :
  isAnimating (stopAnimation w) = false /\
  isPageVisible (stopAnimation w) = isPageVisible w /\
  isCanvasVisible (stopAnimation w) = isCanvasVisible w.
Proof.
  unfold stopAnimation.
  destruct (truthy (animationId w)); [destruct (animationId w) |];
    repeat split.
Qed.

Lemma stopAnimation_running_visible (w : World) :
  running_visible (stopAnimation w).
Proof.
  intro H. destruct (stopAnimation_flags w) as [E _]. congruence.
Qed.

Lemma startAnimation_running_visible (h : Host) (w : World) :
  running_visible w -> running_visible (final (startAnimation h w)).
Proof.
  intro Hw. unfold startAnimation.
  destruct (negb (isAnimating w) && isPageVisible w && isCanvasVisible w).
  - intro H. destruct (animate_flags h w) as [Ep [Ec Hv]].
    rewrite Ep, Ec. exact (Hv H).
  - exact Hw.
Qed.

Lemma onIntersection_running_visible (h : Host) :
  forall (entries : list bool) (w : World),
    running_visible w -> running_visible (final (onIntersection h entries w)).
Proof.
  induction entries as [|e entries IH]; intros w Hw; cbn [onIntersection].
  - exact Hw.
  - set (w1 := set_isCanvasVisible w e). rewrite final_andThen.
    destruct (isCanvasVisible w1 && isPageVisible w1) eqn:Hb.
    + assert (H1 : running_visible w1).
      { intros _. apply andb_prop in Hb. destruct Hb; split; assumption. }
      pose proof (startAnimation_running_visible h w1 H1) as Hs.
      destruct (startAnimation h w1) as [w2 | w2]; cbn [final] in Hs.
      * apply IH. exact Hs.
      * exact Hs.
    + apply IH. apply stopAnimation_running_visible.
Qed.

Lemma handle_event_running_visible
  (fuel : nat) (h : Host) (e : event) (w w' : World) :
  running_visible w -> handle_event fuel h e w = Some w' ->
  running_visible w'.
Proof.
  intro Hw.
  destruct e as [cx cy | hidden | entries | id | iw ih | |];
    cbn [handle_event]; intro H.
  - injection H as <-. unfold handleMouseMove.
    destruct (mouseTrackingEnabled w && isAnimating w); exact Hw.
  - injection H as <-. unfold onVisibilityChange. cbv zeta.
    set (w1 := set_isPageVisible w (negb hidden)).
    destruct (isPageVisible w1 && isCanvasVisible w1) eqn:Hb.
    + apply startAnimation_running_visible.
      intros _. apply andb_prop in Hb. exact Hb.
    + apply stopAnimation_running_visible.
  - injection H as <-. apply onIntersection_running_visible. exact Hw.
  - injection H as <-. unfold runFrame.
    destruct (existsb (Nat.eqb id) (frameRequests w)); [| exact Hw].
    intro Ha. destruct (animate_flags h (cancelAnimationFrame id w))
      as [Ep [Ec Hv]].
    rewrite Ep, Ec. exact (Hv Ha).
  - unfold onResize, init in H. apply init_loop_shape in H.
    destruct H as [ps [r ->]]. exact Hw.
  - injection H as <-. apply startAnimation_running_visible. exact Hw.
  - injection H as <-. apply stopAnimation_running_visible.
Qed.

Lemma run_events_running_visible (fuel : nat) (h : Host) :
  forall (es : list event) (w w' : World),
    running_visible w -> run_events fuel h es w = Some w' ->
    running_visible w'.
Proof.
  induction es as [|e es IH]; intros w w' Hw H; cbn [run_events] in H.
  - injection H as <-. exact Hw.
  - destruct (handle_event fuel h e w) as [w1 |] eqn:E; [| discriminate].
    apply (IH w1 w'); [| exact H].
    apply (handle_event_running_visible fuel h e w w1 Hw E).
Qed.

(** X13: in every state the page reaches from its load, while the page is
    hidden or the canvas is outside the viewport the render loop is not
    running and no frame request is pending. *)
Theorem no_frames_while_out_of_sight
  (fuel : nat) (h : Host) (es : list event) (w0 : World) :
  (100 < fuel)%nat -> random_ok h -> freshly_loaded w0 ->
  exists w,
    run_events fuel h es w0 = Some w /\
    (isPageVisible w = false \/ isCanvasVisible w = false ->
     isAnimating w = false /\ frameRequests w = []).
Proof.
  intros Hfuel Hr Hfresh.
  destruct (run_events_inv h fuel Hfuel Hr es w0
              (freshly_loaded_well_formed w0 Hfresh)) as [w [E [[_ Hl] _]]].
  exists w. split; [exact E |].
  assert (Hv : running_visible w).
  { apply (run_events_running_visible fuel h es w0 w); [| exact E].
    intro Ha. destruct Hfresh as [_ [_ [_ [_ [_ [_ [Hs _]]]]]]].
    congruence. }
  intro Hout.
  destruct (isAnimating w) eqn:Ha.
  - destruct (Hv Ha) as [Hp Hc].
    destruct Hout as [Hout | Hout]; congruence.
  - split; [reflexivity |].
    destruct Hl as [[_ Hq] | [Ha' _]]; [exact Hq | congruence].
Qed.

Lemma no_frames_while_out_of_sight_witness :
  exists w,
    run_events 101 still_host
      [Resize 1024 768; StartAnimation; Frame 1; Intersection [false]]
      (page false false 0 0) = Some w /\
    (isPageVisible w = false \/ isCanvasVisible w = false ->
     isAnimating w = false /\ frameRequests w = []).
Proof.
  apply (no_frames_while_out_of_sight 101 still_host
           [Resize 1024 768; StartAnimation; Frame 1; Intersection [false]]
           (page false false 0 0) ltac:(repeat constructor)
           still_host_random_ok (page_freshly_loaded false false 0 0)).
Defined.

Lemma hidden_event_frozen (fuel : nat) (h : Host) (e : event) (w : World) :
  isPageVisible w = false -> isAnimating w = false -> frameRequests w = [] ->
  keeps_hidden e = true ->
  exists w',
    handle_event fuel h e w = Some w' /\
    (isPageVisible w' = false /\ isAnimating w' = false /\
     frameRequests w' = []) /\
    particles w' = particles w /\ colorTime w' = colorTime w /\
    ctx w' = ctx w /\ mouseX w' = mouseX w /\ mouseY w' = mouseY w.
Proof.
  intros Hp Ha Hq He.
  assert (Hstop : forall u : World,
    isPageVisible u = false -> frameRequests u = [] ->
    (isPageVisible (stopAnimation u) = false /\
     isAnimating (stopAnimation u) = false /\
     frameRequests (stopAnimation u) = []) /\
    particles (stopAnimation u) = particles u /\
    colorTime (stopAnimation u) = colorTime u /\
    ctx (stopAnimation u) = ctx u /\ mouseX (stopAnimation u) = mouseX u /\
    mouseY (stopAnimation u) = mouseY u).
  { intros u Hu Hqu. unfold stopAnimation.
    destruct (truthy (animationId u)); [destruct (animationId u) |];
      cbn; rewrite ?Hqu; repeat split; assumption. }
  destruct e as [cx cy | hidden | entries | id | iw ih | |];
    cbn [handle_event keeps_hidden] in *.
  - exists w. unfold handleMouseMove. rewrite Ha, andb_false_r.
    repeat split; assumption.
  - subst hidden. eexists. split; [reflexivity |].
    unfold onVisibilityChange. cbn [negb set_isPageVisible isPageVisible
      isCanvasVisible andb final].
    apply (Hstop (set_isPageVisible w false)); [reflexivity | exact Hq].
  - clear He. revert w Hp Ha Hq.
    induction entries as [|e entries IH]; intros w Hp Ha Hq.
    + exists w. repeat split; assumption.
    + cbn [onIntersection]. set (w1 := set_isCanvasVisible w e).
      assert (Hp1 : isPageVisible w1 = false) by exact Hp.
      rewrite Hp1, andb_false_r. cbn [andThen].
      destruct (Hstop w1 Hp1 Hq) as [[S1 [S2 S3]] [S4 [S5 [S6 [S7 S8]]]]].
      destruct (IH (stopAnimation w1) S1 S2 S3)
        as [w' [E [I [P1 [P2 [P3 [P4 P5]]]]]]].
      exists w'. split; [exact E |]. split; [exact I |].
      rewrite P1, P2, P3, P4, P5, S4, S5, S6, S7, S8. repeat split.
  - exists w. unfold runFrame. rewrite Hq. cbn [existsb final].
    repeat split; assumption.
  - discriminate.
  - exists w. unfold startAnimation. rewrite Hp, andb_false_r.
    cbn [andb final]. repeat split; assumption.
  - eexists. split; [reflexivity |]. apply (Hstop w Hp Hq).
Qed.

(** X14: a hidden page is frozen.  From a state with the page hidden, the
    loop stopped and no frame pending, any sequence of events other than
    the page being shown again and a resize leaves the particles, the
    colour clock and the recorded pointer as they were, makes no call on
    the drawing context, and leaves the loop stopped. *)
Theorem hidden_page_is_frozen (fuel : nat) (h : Host) :
  forall (es : list event) (w : World),
    isPageVisible w = false -> isAnimating w = false ->
    frameRequests w = [] -> forallb keeps_hidden es = true ->
    exists w',
      run_events fuel h es w = Some w' /\
      particles w' = particles w /\ colorTime w' = colorTime w /\
      ctx w' = ctx w /\ mouseX w' = mouseX w /\ mouseY w' = mouseY w /\
      isAnimating w' = false /\ frameRequests w' = [].
Proof.
  induction es as [|e es IH]; intros w Hp Ha Hq Hes.
  - exists w. cbn [run_events]. repeat split; assumption.
  - cbn [forallb] in Hes. apply andb_prop in Hes. destruct Hes as [He Hes].
    destruct (hidden_event_frozen fuel h e w Hp Ha Hq He)
      as [w1 [E [[Hp1 [Ha1 Hq1]] [P1 [P2 [P3 [P4 P5]]]]]]].
    destruct (IH w1 Hp1 Ha1 Hq1 Hes)
      as [w' [E' [Q1 [Q2 [Q3 [Q4 [Q5 [Q6 Q7]]]]]]]].
    exists w'. cbn [run_events]. rewrite E. split; [exact E' |].
    rewrite Q1, Q2, Q3, Q4, Q5, P1, P2, P3, P4, P5.
    repeat split; assumption.
Qed.

Lemma hidden_page_is_frozen_witness :
  let w := set_isPageVisible sample_field false in
  let es := [ MouseMove (of_Z 5) (of_Z 5); Frame 1; Intersection [true; false];
              StartAnimation; VisibilityChange true; StopAnimation ] in
  exists w',
    run_events 0 still_host es w = Some w' /\
    particles w' = particles w /\ colorTime w' = colorTime w /\
    ctx w' = ctx w /\ mouseX w' = mouseX w /\ mouseY w' = mouseY w /\
    isAnimating w' = false /\ frameRequests w' = [].
Proof.
  intros w es.
  apply (hidden_page_is_frozen 0 still_host es w eq_refl eq_refl eq_refl
           eq_refl).
Defined.

(** ** Timers *)

Lemma take_Some (A : Type) (now : Q) (id : nat) (ts : timers A) (a : A)
  (ts' : timers A) :
  take now id ts = Some (a, ts') ->
  exists tm, In tm (pending ts) /\ timer_id tm = id /\ due tm <= now /\
             task tm = a /\ ts' = clearTimeout (Some id) ts.
Proof.
  unfold take. destruct (find _ (pending ts)) as [tm |] eqn:F; [| discriminate].
  destruct (Qle_bool (due tm) now) eqn:D; [| discriminate].
  intro H. injection H as <- <-.
  apply find_some in F. destruct F as [Hin Hid].
  exists tm. repeat split; try assumption.
  - apply Nat.eqb_eq. exact Hid.
  - apply Qle_bool_iff. exact D.
Qed.

Lemma take_pending (A : Type) (now : Q) (tm : timer A) (next : nat) :
  due tm <= now ->
  take now (timer_id tm) (mkTimers [tm] next) =
  Some (task tm, mkTimers [] next).
Proof.
  intro D. unfold take. cbn [pending find]. rewrite Nat.eqb_refl.
  rewrite (proj2 (Qle_bool_iff _ _) D). unfold clearTimeout.
  cbn [pending filter nextTimer]. rewrite Nat.eqb_refl. reflexivity.
Qed.

Section ThrottleFacts.

Variables (A S : Type) (func : A -> S -> S) (limit : number).

Lemma th_step_inv (act : th_action A) (s s' : throttled S) :
  th_inv s -> th_step func limit act s = Some s' -> th_inv s'.
Proof.
  intros [Hlen Hopen]. unfold th_step.
  destruct (Qle_bool (th_clock s) (th_time act)); [| discriminate].
  destruct act as [t args | t id].
  - intro H. injection H as <-. unfold throttled_call.
    destruct (falsy (inThrottle s)) eqn:F.
    + unfold setTimeout. cbn [th_timers pending inThrottle th_inv].
      rewrite (Hopen eq_refl). split; cbn; [lia | discriminate].
    + split; cbn; [exact Hlen |]. intro F'. congruence.
  - unfold throttle_release.
    destruct (take t id (th_timers s)) as [[u ts] |] eqn:T; [| discriminate].
    intro H. injection H as <-. unfold th_inv. cbn.
    apply take_Some in T. destruct T as [tm [Hin [Hid [_ [_ ->]]]]].
    assert (E : pending (clearTimeout (Some id) (th_timers s)) = []).
    { destruct (pending (th_timers s)) as [| tm0 [| tm1 rest]] eqn:P.
      - destruct Hin.
      - unfold clearTimeout. rewrite P. destruct Hin as [-> | []].
        cbn. rewrite Hid, Nat.eqb_refl. reflexivity.
      - cbn in Hlen. lia. }
    rewrite E. split; [cbn; lia | reflexivity].
Qed.

Lemma th_run_inv :
  forall (acts : list (th_action A)) (s s' : throttled S),
    th_inv s -> th_run func limit acts s = Some s' -> th_inv s'.
Proof.
  induction acts as [| act acts IH]; intros s s' Hs H; cbn [th_run] in H.
  - injection H as <-. exact Hs.
  - destruct (th_step func limit act s) as [s1 |] eqn:E; [| discriminate].
    apply (IH s1 s'); [| exact H]. apply (th_step_inv act s s1 Hs E).
Qed.

Lemma throttle_inv (target : S) (now : Q) : th_inv (throttle target now).
Proof. split; cbn; [lia | reflexivity]. Qed.

(** While every pending timer is due at [T] or later and the throttle is
    closed, actions before [T] change neither the target nor the timers. *)
Lemma th_window (T : Q) :
  forall (acts : list (th_action A)) (s s' : throttled S),
    inThrottle s = Some true ->
    Forall (fun tm => T <= due tm) (pending (th_timers s)) ->
    Forall (fun act => th_time act < T) acts ->
    th_run func limit acts s = Some s' ->
    inThrottle s' = Some true /\ th_timers s' = th_timers s /\
    th_target s' = th_target s.
Proof.
  induction acts as [| act acts IH]; intros s s' Hc Hd Ha H;
    cbn [th_run] in H.
  - injection H as <-. repeat split; assumption.
  - apply Forall_cons_iff in Ha. destruct Ha as [Hact Ha].
    destruct (th_step func limit act s) as [s1 |] eqn:E; [| discriminate].
    unfold th_step in E.
    destruct (Qle_bool (th_clock s) (th_time act)); [| discriminate].
    destruct act as [t args | t id].
    + injection E as <-. unfold throttled_call in H. rewrite Hc in H.
      cbn [falsy] in H.
      destruct (IH (mkThrottled (Some true) (th_timers s) t (th_target s))
                  s' eq_refl Hd Ha H) as [I1 [I2 I3]].
      repeat split; assumption.
    + unfold throttle_release in E.
      destruct (take t id (th_timers s)) as [[u ts] |] eqn:Tk;
        [| discriminate].
      apply take_Some in Tk. destruct Tk as [tm [Hin [_ [Hdue _]]]].
      rewrite Forall_forall in Hd. specialize (Hd tm Hin).
      cbn [th_time] in Hact. exfalso.
      apply (Qlt_irrefl T). apply Qle_lt_trans with (due tm); [exact Hd |].
      apply Qle_lt_trans with t; assumption.
Qed.

End ThrottleFacts.

(** X15: [throttle] spaces the calls it lets through.  When a call goes
    through at time [t], the calls of the next [limit] milliseconds are
    dropped, whatever their arguments: [func] has run once, on the
    arguments of the call at [t].  One timer is pending, and once the host
    has run it the next call goes through. *)
Theorem throttle_spacing (A S : Type) (func : A -> S -> S) (limit : number)
  (target0 : S) (now0 : Q) (pre acts : list (th_action A))
  (s s' : throttled S) (t : Q) (args : A) :
  th_run func limit pre (throttle target0 now0) = Some s ->
  falsy (inThrottle s) = true ->
  Forall (fun act => th_time act < t + timeout_ms limit) acts ->
  th_run func limit acts (throttled_call func limit t args s) = Some s' ->
  th_target s' = func args (th_target s) /\
  inThrottle s' = Some true /\
  exists id,
    pending (th_timers s') = [mkTimer id (t + timeout_ms limit) tt] /\
    forall t', th_clock s' <= t' -> t + timeout_ms limit <= t' ->
      exists s'',
        th_step func limit (Release t' id) s' = Some s'' /\
        falsy (inThrottle s'') = true /\ th_target s'' = th_target s'.
Proof.
  intros Hpre Hopen Hacts Hrun.
  destruct (th_run_inv A S func limit pre _ s (throttle_inv S target0 now0)
              Hpre)
    as [_ Hnone].
  specialize (Hnone Hopen).
  set (s1 := throttled_call func limit t args s) in *.
  assert (E1 : s1 = mkThrottled (Some true)
                      (mkTimers [mkTimer (nextTimer (th_timers s))
                                         (t + timeout_ms limit) tt]
                                (Datatypes.S (nextTimer (th_timers s))))
                      t (func args (th_target s))).
  { unfold s1, throttled_call. rewrite Hopen. unfold setTimeout.
    rewrite Hnone. reflexivity. }
  destruct (th_window A S func limit (t + timeout_ms limit) acts s1 s')
    as [Hc [Ht Hg]]; try assumption.
  - rewrite E1. reflexivity.
  - rewrite E1. cbn [th_timers pending]. constructor; [| constructor].
    cbn [due]. apply Qle_refl.
  - rewrite Hg, Ht, E1. cbn [th_target th_timers pending].
    split; [reflexivity |]. split; [exact Hc |].
    exists (nextTimer (th_timers s)). split; [reflexivity |].
    intros t' Hclock Hdue. unfold th_step. cbn [th_time].
    rewrite (proj2 (Qle_bool_iff _ _) Hclock).
    unfold throttle_release. rewrite Ht, E1. cbn [th_timers].
    rewrite (take_pending unit t'
               (mkTimer (nextTimer (th_timers s)) (t + timeout_ms limit) tt)
               _ Hdue).
    eexists. split; [reflexivity |]. split; [reflexivity |].
    cbn [th_target]. rewrite Hg, E1. reflexivity.
Qed.

Lemma throttle_spacing_witness :
  let func := fun (n : nat) (l : list nat) => n :: l in
  let acts := [Call 5 2%nat; Call 10 3%nat] in
  let s' := mkThrottled (Some true)
              (mkTimers [mkTimer 1 (0 + timeout_ms (of_Z 16)) tt] 2) 10
              [1%nat] in
  th_run func (of_Z 16) acts
    (throttled_call func (of_Z 16) 0 1%nat (throttle [] 0)) = Some s' /\
  th_target s' = [1%nat] /\
  inThrottle s' = Some true /\
  exists id,
    pending (th_timers s') = [mkTimer id (0 + timeout_ms (of_Z 16)) tt] /\
    forall t', th_clock s' <= t' -> 0 + timeout_ms (of_Z 16) <= t' ->
      exists s'',
        th_step func (of_Z 16) (Release t' id) s' = Some s'' /\
        falsy (inThrottle s'') = true /\ th_target s'' = th_target s'.
Proof.
  intros func acts s'. split; [reflexivity |].
  apply (throttle_spacing nat (list nat) func (of_Z 16) [] 0 [] acts
           (throttle [] 0) s' 0 1%nat eq_refl eq_refl);
    [| reflexivity].
  repeat constructor.
Defined.

Lemma classList_add_In (token c : String.string) (l : list String.string) :
  In c (classList_add token l) <-> c = token \/ In c l.
Proof.
  unfold classList_add. destruct (existsb (String.eqb token) l) eqn:E.
  - split; [auto |]. intros [-> | H]; [| exact H].
    apply existsb_exists in E. destruct E as [c [Hin Hc]].
    apply String.eqb_eq in Hc. subst c. exact Hin.
  - rewrite in_app_iff. cbn [In]. split.
    + intros [H | [<- | []]]; auto.
    + intros [-> | H]; auto.
Qed.

Lemma classList_remove_In (token c : String.string) (l : list String.string) :
  In c (classList_remove token l) <-> c <> token /\ In c l.
Proof.
  unfold classList_remove. rewrite filter_In. split.
  - intros [Hin Hc]. split; [| exact Hin]. intros ->.
    rewrite String.eqb_refl in Hc. discriminate.
  - intros [Hc Hin]. split; [exact Hin |].
    destruct (String.eqb c token) eqn:E; [| reflexivity].
    apply String.eqb_eq in E. contradiction.
Qed.

Lemma scroll_limit : timeout_ms (of_Z 16) = 16.
Proof. reflexivity. Qed.

(** X16: the class of [nav] follows the scrolls that go through the
    throttle.  When a scroll event goes through with the page at
    [scrollY], [nav] has the class [scrolled] exactly when [scrollY] is
    above 50 and keeps its other classes, and the scroll events of the
    next 16 milliseconds do not change this, wherever they leave the
    page. *)
Theorem nav_class_follows_accepted_scroll
  (nav0 : list String.string) (now0 : Q) (pre acts : list (th_action number))
  (s s' : throttled (list String.string)) (t : Q) (scrollY : number) :
  scroll_run pre (throttle nav0 now0) = Some s ->
  falsy (inThrottle s) = true ->
  Forall (fun act => th_time act < t + 16) acts ->
  scroll_run acts (handleScroll t scrollY s) = Some s' ->
  (In "scrolled"%string (th_target s') <-> (scrollY >? of_Z 50)%js = true) /\
  (forall c, c <> "scrolled"%string ->
     (In c (th_target s') <-> In c (th_target s))).
Proof.
  unfold scroll_run, handleScroll. intros Hpre Hopen Hacts Hrun.
  destruct (th_run_inv number _ nav_scroll (of_Z 16) pre _ s
              (throttle_inv _ nav0 now0) Hpre) as [_ Hnone].
  specialize (Hnone Hopen).
  assert (Hwin : th_target s' = nav_scroll scrollY (th_target s)).
  { destruct (th_window number _ nav_scroll (of_Z 16) (t + 16) acts
                (throttled_call nav_scroll (of_Z 16) t scrollY s) s')
      as [_ [_ Hg]]; try assumption.
    - unfold throttled_call. rewrite Hopen. reflexivity.
    - unfold throttled_call. rewrite Hopen. unfold setTimeout.
      rewrite Hnone, scroll_limit. cbn [th_timers pending app].
      constructor; [| constructor]. cbn [due]. apply Qle_refl.
    - rewrite Hg. unfold throttled_call. rewrite Hopen. reflexivity. }
  rewrite Hwin. unfold nav_scroll.
  destruct (scrollY >? of_Z 50)%js; split.
  - rewrite classList_add_In. split; auto.
  - intros c Hc. rewrite classList_add_In. split; [| auto].
    intros [-> | H]; [contradiction | exact H].
  - rewrite classList_remove_In. split; [| discriminate].
    intros [Hne _]. contradiction.
  - intros c Hc. rewrite classList_remove_In. split; [| auto].
    intros [_ H]. exact H.
Qed.

Lemma nav_class_follows_accepted_scroll_witness :
  let s := throttle ["nav"%string] 0 in
  let s' := mkThrottled (Some true) (mkTimers [mkTimer 1 (0 + 16) tt] 2) 5
              ["nav"%string; "scrolled"%string] in
  scroll_run [Call 5 (of_Z 0)] (handleScroll 0 (of_Z 100) s) = Some s' /\
  (In "scrolled"%string (th_target s') <->
   (of_Z 100 >? of_Z 50)%js = true) /\
  (forall c, c <> "scrolled"%string ->
     (In c (th_target s') <-> In c (th_target s))).
Proof.
  intros s s'. split; [reflexivity |].
  apply (nav_class_follows_accepted_scroll ["nav"%string] 0 []
           [Call 5 (of_Z 0)] s s' 0 (of_Z 100) eq_refl eq_refl);
    [| reflexivity].
  repeat constructor.
Defined.

Lemma on_resize_event_pending (t : Q) (s : Resizer) :
  rs_inv s ->
  pending (rs_timers (on_resize_event t s)) =
    [mkTimer (nextTimer (rs_timers s)) (t + 250) tt] /\
  resizeTimeout (on_resize_event t s) = Some (nextTimer (rs_timers s)) /\
  rs_world (on_resize_event t s) = rs_world s /\
  rs_clock (on_resize_event t s) = t.
Proof.
  intro H. unfold on_resize_event, setTimeout.
  assert (E : pending (clearTimeout (resizeTimeout s) (rs_timers s)) = []).
  { destruct H as [E | [tm [E Hid]]].
    - destruct (resizeTimeout s); [| exact E].
      unfold clearTimeout. rewrite E. reflexivity.
    - rewrite Hid. unfold clearTimeout. rewrite E. cbn.
      rewrite Nat.eqb_refl. reflexivity. }
  cbn [rs_timers pending resizeTimeout rs_world rs_clock]. rewrite E.
  assert (En : nextTimer (clearTimeout (resizeTimeout s) (rs_timers s))
               = nextTimer (rs_timers s))
    by (destruct (resizeTimeout s); reflexivity).
  rewrite En. repeat split.
Qed.

Lemma rs_step_inv (fuel : nat) (h : Host) (act : rs_action) (s s' : Resizer) :
  rs_inv s -> rs_step fuel h act s = Some s' -> rs_inv s'.
Proof.
  intro Hs. unfold rs_step.
  destruct (Qle_bool (rs_clock s) (rs_time act)); [| discriminate].
  destruct act as [t | t id iw ih].
  - intro H. injection H as <-.
    destruct (on_resize_event_pending t s Hs) as [E [Hid _]].
    right. eexists. split; [exact E | exact Hid].
  - unfold resize_timeout.
    destruct (take t id (rs_timers s)) as [[u ts] |] eqn:T; [| discriminate].
    destruct (onResize fuel h iw ih (rs_world s)) as [w |]; [| discriminate].
    intro H. injection H as <-. left. cbn [rs_timers].
    apply take_Some in T. destruct T as [tm [Hin [Hid [_ [_ ->]]]]].
    destruct Hs as [E | [tm' [E _]]]; rewrite E in Hin; [destruct Hin |].
    destruct Hin as [-> | []]. unfold clearTimeout. rewrite E. cbn.
    rewrite Hid, Nat.eqb_refl. reflexivity.
Qed.

Lemma rs_run_inv (fuel : nat) (h : Host) :
  forall (acts : list rs_action) (s s' : Resizer),
    rs_inv s -> rs_run fuel h acts s = Some s' -> rs_inv s'.
Proof.
  induction acts as [| act acts IH]; intros s s' Hs H; cbn [rs_run] in H.
  - injection H as <-. exact Hs.
  - destruct (rs_step fuel h act s) as [s1 |] eqn:E; [| discriminate].
    apply (IH s1 s'); [| exact H]. apply (rs_step_inv fuel h act s s1 Hs E).
Qed.

(** Within 250 ms of a resize event no rebuild runs, and the one timer
    pending is due 250 ms after the latest event. *)
Lemma rs_window (fuel : nat) (h : Host) (t0 : Q) :
  forall (acts : list rs_action) (s s' : Resizer),
    rs_inv s -> t0 <= rs_clock s ->
    (exists tm, pending (rs_timers s) = [tm] /\ t0 + 250 <= due tm) ->
    Forall (fun act => rs_time act < t0 + 250) acts ->
    rs_run fuel h acts s = Some s' ->
    rs_world s' = rs_world s /\
    exists tm, pending (rs_timers s') = [tm] /\ t0 + 250 <= due tm.
Proof.
  induction acts as [| act acts IH]; intros s s' Hs Hclock Hp Ha H;
    cbn [rs_run] in H.
  - injection H as <-. split; [reflexivity | exact Hp].
  - apply Forall_cons_iff in Ha. destruct Ha as [Hact Ha].
    destruct (rs_step fuel h act s) as [s1 |] eqn:E; [| discriminate].
    pose proof (rs_step_inv fuel h act s s1 Hs E) as Hs1.
    unfold rs_step in E.
    destruct (Qle_bool (rs_clock s) (rs_time act)) eqn:Hmono;
      [| discriminate].
    apply Qle_bool_iff in Hmono.
    destruct act as [t | t id iw ih]; cbn [rs_time] in *.
    + injection E as <-.
      destruct (on_resize_event_pending t s Hs) as [E1 [_ [E3 E4]]].
      destruct (IH (on_resize_event t s) s' Hs1) as [Hw Hp'];
        try assumption.
      * rewrite E4. apply Qle_trans with (rs_clock s); assumption.
      * eexists. split; [exact E1 |]. cbn [due].
        assert (t0 <= t) by (apply Qle_trans with (rs_clock s); assumption).
        lra.
      * split; [rewrite Hw; exact E3 | exact Hp'].
    + unfold resize_timeout in E.
      destruct (take t id (rs_timers s)) as [[u ts] |] eqn:Tk;
        [| discriminate].
      apply take_Some in Tk. destruct Tk as [tm [Hin [_ [Hdue _]]]].
      destruct Hp as [tm' [Ep Hd]]. rewrite Ep in Hin.
      destruct Hin as [-> | []]. exfalso. lra.
Qed.

(** X17: the resize listener is debounced.  After a resize event at time
    [t] nothing is rebuilt for 250 ms, however many resize events follow
    in that time: the world stays as it was, and exactly one timer is
    pending, the one [resizeTimeout] names, due 250 ms or more after [t].
    When the host runs it, the canvas takes the size the window has
    then. *)
Theorem resize_debounced (fuel : nat) (h : Host) (w0 : World) (now0 : Q)
  (pre acts : list rs_action) (s s' : Resizer) (t : Q) :
  (100 < fuel)%nat ->
  rs_run fuel h pre (resize_listening w0 now0) = Some s ->
  Forall (fun act => rs_time act < t + 250) acts ->
  rs_run fuel h acts (on_resize_event t s) = Some s' ->
  rs_world s' = rs_world s /\
  exists tm,
    pending (rs_timers s') = [tm] /\
    resizeTimeout s' = Some (timer_id tm) /\
    t + 250 <= due tm /\
    forall t' iw ih, rs_clock s' <= t' -> due tm <= t' ->
      exists s'',
        rs_step fuel h (ResizeTimeout t' (timer_id tm) iw ih) s' = Some s'' /\
        pending (rs_timers s'') = [] /\
        canvas_width (rs_world s'') = iw /\
        canvas_height (rs_world s'') = ih.
Proof.
  intros Hfuel Hpre Hacts Hrun.
  assert (Hs : rs_inv s).
  { apply (rs_run_inv fuel h pre (resize_listening w0 now0) s);
      [left; reflexivity | exact Hpre]. }
  destruct (on_resize_event_pending t s Hs) as [E1 [E2 [E3 E4]]].
  assert (Hs1 : rs_inv (on_resize_event t s)).
  { right. eexists. split; [exact E1 | exact E2]. }
  pose proof (rs_run_inv fuel h acts _ s' Hs1 Hrun) as Hs'.
  destruct (rs_window fuel h t acts (on_resize_event t s) s' Hs1)
    as [Hw [tm [Ep Hd]]]; try assumption.
  - rewrite E4. apply Qle_refl.
  - eexists. split; [exact E1 |]. cbn [due]. apply Qle_refl.
  - split; [rewrite Hw; exact E3 |].
    exists tm. split; [exact Ep |].
    assert (Hid : resizeTimeout s' = Some (timer_id tm)).
    { destruct Hs' as [E | [tm' [E Hid]]]; rewrite Ep in E;
        [discriminate |].
      injection E as <-. exact Hid. }
    split; [exact Hid |]. split; [exact Hd |].
    intros t' iw ih Hclock Hdue. unfold rs_step. cbn [rs_time].
    rewrite (proj2 (Qle_bool_iff _ _) Hclock). unfold resize_timeout.
    destruct (rs_timers s') as [p n] eqn:Et. cbn [pending] in Ep. subst p.
    rewrite (take_pending unit t' tm n Hdue).
    destruct (init_count fuel h (set_canvas (rs_world s') iw ih) Hfuel)
      as [w [Hinit _]].
    unfold onResize. rewrite Hinit. eexists. split; [reflexivity |].
    cbn [rs_timers pending rs_world]. split; [reflexivity |].
    unfold init in Hinit. apply init_loop_shape in Hinit.
    destruct Hinit as [ps [r ->]]. split; reflexivity.
Qed.

Lemma resize_debounced_witness :
  let s := resize_listening (page false false 0 0) 0 in
  let s' := mkResizer (Some 3%nat) (mkTimers [mkTimer 3 (200 + 250) tt] 4)
              200 (page false false 0 0) in
  rs_run 101 still_host [ResizeEvent 100; ResizeEvent 200]
    (on_resize_event 0 s) = Some s' /\
  rs_world s' = rs_world s /\
  exists tm,
    pending (rs_timers s') = [tm] /\
    resizeTimeout s' = Some (timer_id tm) /\
    0 + 250 <= due tm /\
    forall t' iw ih, rs_clock s' <= t' -> due tm <= t' ->
      exists s'',
        rs_step 101 still_host (ResizeTimeout t' (timer_id tm) iw ih) s'
          = Some s'' /\
        pending (rs_timers s'') = [] /\
        canvas_width (rs_world s'') = iw /\
        canvas_height (rs_world s'') = ih.
Proof.
  intros s s'. split; [reflexivity |].
  apply (resize_debounced 101 still_host (page false false 0 0) 0 []
           [ResizeEvent 100; ResizeEvent 200] s s' 0
           ltac:(repeat constructor) eq_refl);
    [| reflexivity].
  repeat constructor.
Defined.

(** A delay between two integers of the range of [long] is waited for
    within the same bounds. *)
Lemma timeout_ms_bounds (q : Q) (lo hi : Z) :
  (0 <= lo)%Z -> (hi <= 2 ^ 31)%Z ->
  inject_Z lo <= q -> q < inject_Z hi ->
  inject_Z lo <= timeout_ms (Fin q) /\ timeout_ms (Fin q) < inject_Z hi.
Proof.
  intros Hlo Hhi Hq1 Hq2.
  assert (H0 : 0 <= q).
  { apply Qle_trans with (inject_Z lo); [| exact Hq1].
    change 0 with (inject_Z 0). rewrite <- Zle_Qle. exact Hlo. }
  assert (Ht : Qtrunc q = Qfloor q).
  { unfold Qtrunc. destruct (Qsgn q) eqn:Sg; try reflexivity.
    apply (proj1 (Qsgn_Lt _)) in Sg. lra. }
  assert (F1 : (lo <= Qfloor q)%Z).
  { rewrite <- (Qfloor_Z lo). apply Qfloor_resp_le. exact Hq1. }
  assert (F2 : (Qfloor q < hi)%Z).
  { rewrite Zlt_Qlt. apply Qle_lt_trans with q; [apply Qfloor_le | exact Hq2]. }
  unfold timeout_ms, to_long. rewrite Ht.
  assert (P31 : (2 ^ 31 = 2147483648)%Z) by reflexivity.
  assert (P32 : (2 ^ 32 = 4294967296)%Z) by reflexivity.
  rewrite Z.mod_small by lia.
  destruct (Z.leb_spec (2 ^ 31) (Qfloor q)) as [Hbig | _]; [lia |].
  rewrite Z.max_r by lia.
  split; [rewrite <- Zle_Qle; exact F1 | rewrite <- Zlt_Qlt; exact F2].
Qed.

Lemma schedule_delay (h : Host) (k : nat) :
  random_ok h ->
  15000 <= timeout_ms (of_Z 15000 + Math_random h k * of_Z 30000)%js /\
  timeout_ms (of_Z 15000 + Math_random h k * of_Z 30000)%js < 45000.
Proof.
  intro Hr. destruct (Hr k) as [q [-> [Hq0 Hq1]]].
  cbn [of_Z add mul].
  apply (timeout_ms_bounds _ 15000 45000); try (unfold inject_Z; lra).
  - lia.
  - assert (P31 : (2 ^ 31 = 2147483648)%Z) by reflexivity. lia.
Qed.

Lemma setTimeout_ids_ok (A : Type) (now : Q) (a : A) (delay : number)
  (ts : timers A) :
  ids_ok ts -> ids_ok (snd (setTimeout now a delay ts)).
Proof.
  intros [Hlt Hinj]. unfold setTimeout. cbn [snd]. split; cbn [pending nextTimer].
  - apply Forall_app. split.
    + eapply Forall_impl; [| exact Hlt]. cbn. intros tm H. lia.
    + constructor; [cbn; lia | constructor].
  - rewrite Forall_forall in Hlt.
    intros tm tm' Hin Hin' E. apply in_app_iff in Hin, Hin'.
    destruct Hin as [Hin | [<- | []]], Hin' as [Hin' | [<- | []]].
    + apply Hinj; assumption.
    + apply Hlt in Hin. cbn in E. lia.
    + apply Hlt in Hin'. cbn in E. lia.
    + reflexivity.
Qed.

Lemma clearTimeout_In (A : Type) (id : nat) (ts : timers A) (tm : timer A) :
  In tm (pending (clearTimeout (Some id) ts)) <->
  In tm (pending ts) /\ timer_id tm <> id.
Proof.
  unfold clearTimeout. cbn [pending]. rewrite filter_In.
  rewrite negb_true_iff, Nat.eqb_neq. reflexivity.
Qed.

Lemma clearTimeout_ids_ok (A : Type) (id : nat) (ts : timers A) :
  ids_ok ts -> ids_ok (clearTimeout (Some id) ts).
Proof.
  intros [Hlt Hinj]. split.
  - rewrite Forall_forall in *. intros tm Hin.
    apply clearTimeout_In in Hin. apply Hlt. exact (proj1 Hin).
  - intros tm tm' Hin Hin' E. apply clearTimeout_In in Hin, Hin'.
    apply Hinj; [exact (proj1 Hin) | exact (proj1 Hin') | exact E].
Qed.

Lemma chain_timers_cleared (id : nat) (cl : list String.string)
  (ts : timers sun_task) (now : Q) (k : nat) :
  chain_timers (mkSunbeam cl (clearTimeout (Some id) ts) now k) =
  filter (fun t => negb (Nat.eqb (timer_id t) id))
         (chain_timers (mkSunbeam cl ts now k)).
Proof.
  unfold chain_timers, clearTimeout. cbn [sb_timers pending].
  induction (pending ts) as [| tm l IH]; [reflexivity |].
  cbn [filter].
  destruct (Nat.eqb (timer_id tm) id) eqn:E,
           (is_RemoveActive (task tm)) eqn:R;
    cbn [negb filter]; rewrite ?E, ?R; cbn [negb]; rewrite IH; reflexivity.
Qed.

Lemma chain_timers_In (s : Sunbeam) (tm : timer sun_task) :
  In tm (chain_timers s) <->
  In tm (pending (sb_timers s)) /\ task tm <> RemoveActive.
Proof.
  unfold chain_timers. rewrite filter_In.
  destruct (task tm); cbn; split; intros [H1 H2]; split;
    try assumption; try discriminate; try reflexivity.
  contradiction.
Qed.

Lemma scheduleSunbeam_inv (h : Host) (now : Q) (s : Sunbeam) :
  ids_ok (sb_timers s) -> chain_timers s = [] ->
  (In "active"%string (sb_classList s) ->
   exists tm, In tm (pending (sb_timers s)) /\ task tm = RemoveActive) ->
  sb_inv (scheduleSunbeam h now s).
Proof.
  intros Hids Hchain Hact. unfold scheduleSunbeam.
  set (delay := (of_Z 15000 + _)%js).
  pose proof (setTimeout_ids_ok sun_task now FlashAndSchedule delay _ Hids)
    as Hids'.
  unfold setTimeout in *. cbn [snd] in Hids'.
  split; [exact Hids' |]. split.
  - eexists. unfold chain_timers in *. cbn [sb_timers pending].
    rewrite filter_app, Hchain. reflexivity.
  - cbn [sb_classList sb_timers pending]. intro Ha.
    destruct (Hact Ha) as [tm [Hin Ht]]. exists tm.
    split; [apply in_app_iff; left; exact Hin | exact Ht].
Qed.

Lemma sb_step_inv (h : Host) (t : Q) (id : nat) (s s' : Sunbeam) :
  sb_inv s -> sb_step h t id s = Some s' -> sb_inv s'.
Proof.
  intros [Hids [[c Hc] Hact]]. unfold sb_step.
  destruct (Qle_bool (sb_clock s) t); [| discriminate].
  destruct (take t id (sb_timers s)) as [[a ts] |] eqn:Tk; [| discriminate].
  apply take_Some in Tk. destruct Tk as [tm [Hin [Hid [_ [Ha ->]]]]].
  intro H. injection H as <-.
  set (s1 := mkSunbeam (sb_classList s) (clearTimeout (Some id) (sb_timers s))
               t (sb_randomCalls s)).
  assert (Hids1 : ids_ok (sb_timers s1))
    by (apply clearTimeout_ids_ok; exact Hids).
  assert (Hc1 : chain_timers s1 =
                filter (fun u => negb (Nat.eqb (timer_id u) id)) [c]).
  { rewrite <- Hc. unfold s1.
    rewrite chain_timers_cleared. reflexivity. }
  assert (Hcin : In c (pending (sb_timers s)) /\ task c <> RemoveActive).
  { apply chain_timers_In. rewrite Hc. left. reflexivity. }
  assert (Hkeep : forall u, In u (pending (sb_timers s)) ->
                            task u <> task tm ->
                            In u (pending (sb_timers s1))).
  { intros u Hu Hne. apply clearTimeout_In. split; [exact Hu |].
    intro E. apply Hne. f_equal. apply (proj2 Hids); try assumption.
    congruence. }
  assert (Hchain : task tm <> RemoveActive -> chain_timers s1 = []).
  { intro Hne. assert (tm = c) as ->.
    { assert (Hi : In tm (chain_timers s))
        by (apply chain_timers_In; split; assumption).
      rewrite Hc in Hi. destruct Hi as [-> | []]. reflexivity. }
    rewrite Hc1. cbn [filter]. rewrite Hid, Nat.eqb_refl. reflexivity. }
  destruct a.
  - apply scheduleSunbeam_inv; [exact Hids1 | |].
    + apply Hchain. rewrite Ha. discriminate.
    + intro Hactive. destruct (Hact Hactive) as [u [Hu Hr]].
      exists u. split; [| exact Hr]. apply Hkeep; [exact Hu |]. congruence.
  - unfold triggerSunbeam.
    pose proof (setTimeout_ids_ok sun_task t RemoveActive (of_Z 3000) _ Hids1)
      as Hids2.
    unfold setTimeout in *. cbn [snd] in Hids2.
    apply scheduleSunbeam_inv; [exact Hids2 | |].
    + unfold chain_timers. cbn [sb_timers pending]. rewrite filter_app.
      cbn [filter task is_RemoveActive negb]. rewrite app_nil_r.
      apply Hchain. rewrite Ha. discriminate.
    + intros _. cbn [sb_timers pending]. eexists.
      split; [apply in_app_iff; right; left; reflexivity | reflexivity].
  - split; [exact Hids1 |]. split.
    + exists c. change (chain_timers s1 = [c]).
      rewrite Hc1. cbn [filter].
      destruct (Nat.eqb (timer_id c) id) eqn:E; [| reflexivity].
      apply Nat.eqb_eq in E. exfalso. apply (proj2 Hcin).
      assert (c = tm) as ->; [| exact Ha].
      apply (proj2 Hids); [exact (proj1 Hcin) | exact Hin | congruence].
    + cbn [sb_classList]. intro Hin'. apply classList_remove_In in Hin'.
      destruct Hin' as [Hne _]. contradiction.
Qed.

Lemma sb_run_inv (h : Host) :
  forall (acts : list (Q * nat)) (s s' : Sunbeam),
    sb_inv s -> sb_run h acts s = Some s' -> sb_inv s'.
Proof.
  induction acts as [| [t id] acts IH]; intros s s' Hs H; cbn [sb_run] in H.
  - injection H as <-. exact Hs.
  - destruct (sb_step h t id s) as [s1 |] eqn:E; [| discriminate].
    apply (IH s1 s'); [| exact H]. apply (sb_step_inv h t id s s1 Hs E).
Qed.

Lemma sunbeam_loaded_inv (cl : list String.string) (now : Q) (k : nat) :
  ~ In "active"%string cl -> sb_inv (sunbeam_loaded cl now k).
Proof.
  intro Hcl. split; [| split].
  - split; cbn.
    + constructor; [cbn; lia | constructor].
    + intros tm tm' [<- | []] [<- | []] _. reflexivity.
  - eexists. reflexivity.
  - intro H. contradiction.
Qed.

(** The chain timer has another id than a pending timer that removes the
    class, so that running the latter leaves the chain alone. *)
Lemma chain_timers_after_remove (s : Sunbeam) (tm : timer sun_task)
  (cl : list String.string) (now : Q) (k : nat) :
  sb_inv s -> In tm (pending (sb_timers s)) -> task tm = RemoveActive ->
  chain_timers (mkSunbeam cl (clearTimeout (Some (timer_id tm)) (sb_timers s))
                          now k)
  = chain_timers s.
Proof.
  intros [Hids [[c Hc] _]] Hin Ht.
  rewrite chain_timers_cleared.
  change (chain_timers (mkSunbeam cl (sb_timers s) now k))
    with (chain_timers s).
  rewrite Hc. cbn [filter].
  destruct (Nat.eqb (timer_id c) (timer_id tm)) eqn:E; [| reflexivity].
  apply Nat.eqb_eq in E. exfalso.
  assert (Hcin : In c (chain_timers s)) by (rewrite Hc; left; reflexivity).
  apply chain_timers_In in Hcin. destruct Hcin as [Hcin Hne].
  apply Hne. rewrite (proj2 Hids c tm Hcin Hin E). exact Ht.
Qed.

Lemma chain_timers_after_chain (s : Sunbeam) (tm : timer sun_task)
  (cl : list String.string) (now : Q) (k : nat) :
  sb_inv s -> In tm (pending (sb_timers s)) -> task tm <> RemoveActive ->
  chain_timers (mkSunbeam cl (clearTimeout (Some (timer_id tm)) (sb_timers s))
                          now k)
  = [].
Proof.
  intros [Hids [[c Hc] _]] Hin Ht.
  rewrite chain_timers_cleared.
  change (chain_timers (mkSunbeam cl (sb_timers s) now k))
    with (chain_timers s).
  assert (Hi : In tm (chain_timers s))
    by (apply chain_timers_In; split; assumption).
  rewrite Hc in *. destruct Hi as [-> | []].
  cbn [filter]. rewrite Nat.eqb_refl. reflexivity.
Qed.

(** Before the chain timer is due only the class can go. *)
Lemma sb_window (h : Host) (T : Q) :
  forall (acts : list (Q * nat)) (s s' : Sunbeam),
    sb_inv s ->
    Forall (fun tm => T <= due tm) (chain_timers s) ->
    Forall (fun a => fst a < T) acts ->
    sb_run h acts s = Some s' ->
    sb_randomCalls s' = sb_randomCalls s /\
    chain_timers s' = chain_timers s /\
    nextTimer (sb_timers s') = nextTimer (sb_timers s) /\
    (forall c, In c (sb_classList s') -> In c (sb_classList s)).
Proof.
  induction acts as [| [t id] acts IH]; intros s s' Hs Hd Ha H;
    cbn [sb_run] in H.
  - injection H as <-. repeat split. auto.
  - apply Forall_cons_iff in Ha. destruct Ha as [Hact Ha]. cbn [fst] in Hact.
    destruct (sb_step h t id s) as [s1 |] eqn:E; [| discriminate].
    pose proof (sb_step_inv h t id s s1 Hs E) as Hs1.
    unfold sb_step in E.
    destruct (Qle_bool (sb_clock s) t); [| discriminate].
    destruct (take t id (sb_timers s)) as [[a ts] |] eqn:Tk; [| discriminate].
    apply take_Some in Tk. destruct Tk as [tm [Hin [Hid [Hdue [Htask ->]]]]].
    assert (Hr : a = RemoveActive).
    { destruct a; try reflexivity; exfalso;
        (assert (Hi : In tm (chain_timers s))
           by (apply chain_timers_In; split; [exact Hin | congruence]));
        rewrite Forall_forall in Hd; specialize (Hd tm Hi); lra. }
    subst a. rewrite Hr in E. injection E as <-.
    set (s2 := mkSunbeam (classList_remove "active"%string (sb_classList s))
                 (clearTimeout (Some id) (sb_timers s)) t (sb_randomCalls s)).
    change (sb_inv s2) in Hs1. change (sb_run h acts s2 = Some s') in H.
    assert (Hc1 : chain_timers s2 = chain_timers s).
    { unfold s2. rewrite <- Hid.
      apply (chain_timers_after_remove s tm); assumption. }
    destruct (IH s2 s' Hs1) as [I1 [I2 [I3 I4]]]; try assumption.
    + rewrite Hc1. exact Hd.
    + rewrite I1, I2, I3, Hc1. repeat split.
      intros c Hc. apply I4 in Hc. unfold s2 in Hc. cbn [sb_classList] in Hc.
      apply classList_remove_In in Hc. exact (proj2 Hc).
Qed.

(** X18: the chain of sunbeam flashes never breaks and never doubles.  For
    an element that does not have the class [active] at the load, at every
    moment after the load exactly one timer of the chain is pending (the
    start of the chain, or the next flash), and whenever the element has
    the class [active] a timer that removes it is pending. *)
Theorem sunbeam_chain_never_breaks (h : Host) (cl : list String.string)
  (now : Q) (k : nat) (acts : list (Q * nat)) (s : Sunbeam) :
  ~ In "active"%string cl ->
  sb_run h acts (sunbeam_loaded cl now k) = Some s ->
  (exists tm, chain_timers s = [tm]) /\
  (In "active"%string (sb_classList s) ->
   exists tm, In tm (pending (sb_timers s)) /\ task tm = RemoveActive /\
              (timer_id tm < nextTimer (sb_timers s))%nat).
Proof.
  intros Hcl Hrun.
  pose proof (sb_run_inv h acts _ s (sunbeam_loaded_inv cl now k Hcl) Hrun)
    as [[Hlt _] [Hchain Hact]].
  split; [exact Hchain |].
  intro Ha. destruct (Hact Ha) as [tm [Hin Ht]].
  exists tm. split; [exact Hin |]. split; [exact Ht |].
  rewrite Forall_forall in Hlt. apply Hlt. exact Hin.
Qed.

Lemma sunbeam_chain_never_breaks_witness :
  let acts := [(5000, 1%nat); (35000, 2%nat)] in
  let s := mkSunbeam ["sunbeam-flash"%string; "active"%string]
             (mkTimers [mkTimer 3 (35000 + 3000) RemoveActive;
                        mkTimer 4 (35000 + 30000) FlashAndSchedule] 5)
             35000 2 in
  sb_run still_host acts (sunbeam_loaded ["sunbeam-flash"%string] 0 0)
    = Some s /\
  (exists tm, chain_timers s = [tm]) /\
  (In "active"%string (sb_classList s) ->
   exists tm, In tm (pending (sb_timers s)) /\ task tm = RemoveActive /\
              (timer_id tm < nextTimer (sb_timers s))%nat).
Proof.
  intros acts s. split; [reflexivity |].
  apply (sunbeam_chain_never_breaks still_host ["sunbeam-flash"%string] 0 0
           acts s).
  - intros [H | []]. discriminate.
  - reflexivity.
Defined.

Lemma chain_timers_after_flash (h : Host) (t : Q) (s : Sunbeam) :
  chain_timers (scheduleSunbeam h t (triggerSunbeam t s)) =
  chain_timers s ++
    [mkTimer (Datatypes.S (nextTimer (sb_timers s)))
       (t + timeout_ms
              (of_Z 15000 + Math_random h (sb_randomCalls s) * of_Z 30000)%js)
       FlashAndSchedule].
Proof.
  unfold scheduleSunbeam, triggerSunbeam, setTimeout, chain_timers.
  cbn [sb_timers pending sb_randomCalls nextTimer].
  rewrite !filter_app. cbn [filter task is_RemoveActive negb].
  rewrite app_nil_r. reflexivity.
Qed.

(** X19: flashes are at least 15 seconds apart.  When the host runs the
    flash timer at time [t], the element gets the class [active] and the
    next flash is scheduled at least 15 and at most 45 seconds later;
    until 15 seconds have passed no timer flashes or schedules again: no random
    number is drawn, no timer is set, and the class list can only lose
    classes. *)
Theorem sunbeam_flashes_are_spaced (h : Host) (cl : list String.string)
  (now : Q) (k : nat) (pre acts : list (Q * nat)) (s s1 s' : Sunbeam)
  (t : Q) (tm : timer sun_task) :
  random_ok h -> ~ In "active"%string cl ->
  sb_run h pre (sunbeam_loaded cl now k) = Some s ->
  In tm (pending (sb_timers s)) -> task tm = FlashAndSchedule ->
  sb_step h t (timer_id tm) s = Some s1 ->
  Forall (fun a => fst a < t + 15000) acts ->
  sb_run h acts s1 = Some s' ->
  In "active"%string (sb_classList s1) /\
  (exists next,
     chain_timers s1 = [next] /\ task next = FlashAndSchedule /\
     t + 15000 <= due next /\ due next <= t + 45000) /\
  sb_randomCalls s' = sb_randomCalls s1 /\
  chain_timers s' = chain_timers s1 /\
  nextTimer (sb_timers s') = nextTimer (sb_timers s1) /\
  (forall c, In c (sb_classList s') -> In c (sb_classList s1)).
Proof.
  intros Hr Hcl Hpre Hin Htask Hstep Hacts Hrun.
  pose proof (sb_run_inv h pre _ s (sunbeam_loaded_inv cl now k Hcl) Hpre)
    as Hs.
  pose proof (sb_step_inv h t (timer_id tm) s s1 Hs Hstep) as Hs1.
  unfold sb_step in Hstep.
  destruct (Qle_bool (sb_clock s) t); [| discriminate].
  destruct (take t (timer_id tm) (sb_timers s)) as [[a ts] |] eqn:Tk;
    [| discriminate].
  apply take_Some in Tk. destruct Tk as [tm' [Hin' [Hid [_ [Ha ->]]]]].
  assert (tm' = tm) as -> by (apply (proj2 (proj1 Hs)); assumption).
  rewrite Htask in Ha. subst a. injection Hstep as Hstep.
  assert (Hnil : chain_timers
                   (mkSunbeam (sb_classList s)
                      (clearTimeout (Some (timer_id tm)) (sb_timers s)) t
                      (sb_randomCalls s)) = []).
  { apply chain_timers_after_chain; try assumption.
    rewrite Htask. discriminate. }
  destruct (schedule_delay h (sb_randomCalls s) Hr) as [D1 D2].
  assert (Hchain : exists next,
            chain_timers s1 = [next] /\ task next = FlashAndSchedule /\
            t + 15000 <= due next /\ due next <= t + 45000).
  { rewrite <- Hstep. rewrite chain_timers_after_flash.
    unfold clearTimeout in Hnil. rewrite Hnil.
    eexists. split; [reflexivity |]. cbn [task due sb_randomCalls].
    split; [reflexivity |]. split; lra. }
  split.
  - rewrite <- Hstep. unfold scheduleSunbeam, triggerSunbeam, setTimeout.
    cbn [sb_classList]. apply classList_add_In. left. reflexivity.
  - split; [exact Hchain |].
    destruct Hchain as [next [Hc [_ [Hd _]]]].
    apply (sb_window h (t + 15000) acts s1 s' Hs1); try assumption.
    rewrite Hc. constructor; [exact Hd | constructor].
Qed.

Lemma sunbeam_flashes_are_spaced_witness :
  let cl := ["sunbeam-flash"%string] in
  let s := mkSunbeam cl (mkTimers [mkTimer 2 (5000 + 30000) FlashAndSchedule] 3)
             5000 1 in
  let s1 := mkSunbeam ["sunbeam-flash"%string; "active"%string]
              (mkTimers [mkTimer 3 (35000 + 3000) RemoveActive;
                         mkTimer 4 (35000 + 30000) FlashAndSchedule] 5)
              35000 2 in
  let s' := mkSunbeam cl
              (mkTimers [mkTimer 4 (35000 + 30000) FlashAndSchedule] 5)
              38000 2 in
  sb_run still_host [(5000, 1%nat)] (sunbeam_loaded cl 0 0) = Some s /\
  sb_step still_host 35000 2 s = Some s1 /\
  sb_run still_host [(38000, 3%nat)] s1 = Some s' /\
  In "active"%string (sb_classList s1) /\
  (exists next,
     chain_timers s1 = [next] /\ task next = FlashAndSchedule /\
     35000 + 15000 <= due next /\ due next <= 35000 + 45000) /\
  sb_randomCalls s' = sb_randomCalls s1 /\
  chain_timers s' = chain_timers s1 /\
  nextTimer (sb_timers s') = nextTimer (sb_timers s1) /\
  (forall c, In c (sb_classList s') -> In c (sb_classList s1)).
Proof.
  intros cl s s1 s'.
  split; [reflexivity |]. split; [reflexivity |]. split; [reflexivity |].
  apply (sunbeam_flashes_are_spaced still_host cl 0 0 [(5000, 1%nat)]
           [(38000, 3%nat)] s s1 s' 35000
           (mkTimer 2 (5000 + 30000) FlashAndSchedule)
           still_host_random_ok).
  - intros [H | []]. discriminate.
  - reflexivity.
  - left. reflexivity.
  - reflexivity.
  - reflexivity.
  - repeat constructor.
  - reflexivity.
Defined.

(** X20: no sunbeam in the first 20 seconds.  The chain starts 5 seconds
    after the load and its first flash is scheduled 15 seconds or more
    after that: whatever timers the host runs before 20 seconds have
    passed, the class list of the element is as at the load and at most
    one random number has been drawn. *)
Theorem no_sunbeam_in_first_20_seconds (h : Host) (cl : list String.string)
  (now : Q) (k : nat) (acts : list (Q * nat)) (s : Sunbeam) :
  random_ok h ->
  Forall (fun a => fst a < now + 20000) acts ->
  sb_run h acts (sunbeam_loaded cl now k) = Some s ->
  sb_classList s = cl /\ (sb_randomCalls s <= k + 1)%nat /\
  exists tm, pending (sb_timers s) = [tm] /\ task tm <> RemoveActive.
Proof.
  intros Hr Hacts Hrun.
  assert (Hgen : forall acts s0,
    sb_classList s0 = cl ->
    (pending (sb_timers s0) = [mkTimer 1 (now + 5000) StartSunbeams] /\
     sb_randomCalls s0 = k) \/
    (exists tm, pending (sb_timers s0) = [tm] /\ now + 20000 <= due tm /\
                task tm = FlashAndSchedule /\
                sb_randomCalls s0 = Datatypes.S k) ->
    Forall (fun a => fst a < now + 20000) acts ->
    sb_run h acts s0 = Some s ->
    sb_classList s = cl /\ (sb_randomCalls s <= k + 1)%nat /\
    exists tm, pending (sb_timers s) = [tm] /\ task tm <> RemoveActive).
  { clear acts Hacts Hrun.
    induction acts as [| [t id] acts IH]; intros s0 Hcl0 Hph Ha H;
      cbn [sb_run] in H.
    - injection H as <-. split; [exact Hcl0 |].
      destruct Hph as [[Ep Ek] | [tm [Ep [_ [Et Ek]]]]]; rewrite Ek, Ep.
      + split; [lia |]. eexists. split; [reflexivity |]. discriminate.
      + split; [lia |]. exists tm. split; [reflexivity |].
        rewrite Et. discriminate.
    - apply Forall_cons_iff in Ha. destruct Ha as [Hact Ha].
      cbn [fst] in Hact.
      destruct (sb_step h t id s0) as [s1 |] eqn:E; [| discriminate].
      unfold sb_step in E.
      destruct (Qle_bool (sb_clock s0) t); [| discriminate].
      destruct (take t id (sb_timers s0)) as [[a ts] |] eqn:Tk;
        [| discriminate].
      apply take_Some in Tk.
      destruct Tk as [tm [Hin [Hid [Hdue [Htask ->]]]]].
      destruct Hph as [[Ep Ek] | [tm0 [Ep [Hd0 _]]]]; rewrite Ep in Hin;
        destruct Hin as [<- | []].
      + cbn [task] in Htask. subst a. cbn [timer_id] in Hid. subst id.
        cbn [due] in Hdue. injection E as <-.
        refine (IH _ _ _ Ha H); [exact Hcl0 |].
        right. unfold scheduleSunbeam, setTimeout, clearTimeout.
        cbn [sb_timers sb_randomCalls pending nextTimer]. rewrite Ep.
        cbn [filter timer_id Nat.eqb negb app].
        eexists. split; [reflexivity |]. cbn [due task].
        destruct (schedule_delay h (sb_randomCalls s0) Hr) as [D1 _].
        split; [lra |]. split; [reflexivity | rewrite Ek; reflexivity].
      + exfalso. lra. }
  apply (Hgen acts (sunbeam_loaded cl now k)); try assumption.
  - reflexivity.
  - left. split; reflexivity.
Qed.

Lemma no_sunbeam_in_first_20_seconds_witness :
  let cl := ["sunbeam-flash"%string] in
  let s := mkSunbeam cl (mkTimers [mkTimer 2 (5000 + 30000) FlashAndSchedule] 3)
             5000 1 in
  sb_run still_host [(5000, 1%nat)] (sunbeam_loaded cl 0 0) = Some s /\
  sb_classList s = cl /\ (sb_randomCalls s <= 0 + 1)%nat /\
  exists tm, pending (sb_timers s) = [tm] /\ task tm <> RemoveActive.
Proof.
  intros cl s. split; [reflexivity |].
  apply (no_sunbeam_in_first_20_seconds still_host cl 0 0 [(5000, 1%nat)] s
           still_host_random_ok).
  - repeat constructor.
  - reflexivity.
Defined.

(** ** Page effects *)

Lemma lt_of_Z (a b : Z) : (of_Z a <? of_Z b)%js = (a <? b)%Z.
Proof.
  unfold lt, of_Z, Qlt_bool.
  destruct (Z.ltb_spec a b) as [H | H].
  - apply negb_true_iff. apply not_true_is_false. intro L.
    apply Qle_bool_iff in L. rewrite <- Zle_Qle in L. lia.
  - apply negb_false_iff. apply Qle_bool_iff. rewrite <- Zle_Qle. exact H.
Qed.

Lemma leq_of_Z (a b : Z) : leq (of_Z a) (of_Z b) = (a <=? b)%Z.
Proof.
  unfold leq. cbn [is_NaN of_Z negb andb]. fold (of_Z a) (of_Z b).
  rewrite lt_of_Z. destruct (Z.ltb_spec b a), (Z.leb_spec a b);
    try reflexivity; lia.
Qed.

(** X21: the bands of [updateSunsetIntensity] cover every hour.  For a whole
    hour the opacity is 1.3 from 17 to 20, 1.1 from 6 to 9, 0.7 from 21 on
    and up to 5, and 1 for the hours left, which are those from 10 to 16;
    the saturation is 0.8 plus 0.4 times the opacity, so that it lies
    between 1.08 and 1.32. *)
Theorem sunset_intensity_bands (hour : Z) :
  exists i : Q,
    opacity (updateSunsetIntensity (of_Z hour)) = Fin i /\
    saturate (updateSunsetIntensity (of_Z hour)) =n= Fin (0.8 + 0.4 * i) /\
    ((17 <= hour <= 20)%Z /\ i = 1.3 \/
     (6 <= hour <= 9)%Z /\ i = 1.1 \/
     (10 <= hour <= 16)%Z /\ i = 1 \/
     ((hour <= 5)%Z \/ (21 <= hour)%Z) /\ i = 0.7) /\
    1.08 <= 0.8 + 0.4 * i <= 1.32.
Proof.
  unfold updateSunsetIntensity, geq. rewrite !leq_of_Z.
  cbn [opacity saturate].
  assert (Hband : forall i : Q,
            (Fin 0.8 + Fin i * Fin 0.4)%js =n= Fin (0.8 + 0.4 * i))
    by (intro i; cbn [add mul num_eq]; lra).
  destruct (Z.leb_spec 17 hour) as [H17 | H17],
           (Z.leb_spec hour 20) as [H20 | H20]; cbn [andb].
  1: { exists 1.3. split; [reflexivity |]. split; [apply Hband |].
       split; [left; split; [lia | reflexivity] | lra]. }
  all: destruct (Z.leb_spec 6 hour) as [H6 | H6],
                (Z.leb_spec hour 9) as [H9 | H9]; cbn [andb]; try lia.
  all: try (exists 1.1; split; [reflexivity |]; split; [apply Hband |];
            split; [right; left; split; [lia | reflexivity] | lra]).
  all: destruct (Z.leb_spec 21 hour) as [H21 | H21],
                (Z.leb_spec hour 5) as [H5 | H5]; cbn [orb]; try lia.
  all: try (exists 0.7; split; [reflexivity |]; split; [apply Hband |];
            split; [right; right; right; split; [lia | reflexivity] | lra]).
  all: exists 1; split; [reflexivity |]; split; [apply (Hband 1) |];
       split; [right; right; left; split; [lia | reflexivity] | lra].
Qed.

(** X22: the magnetic button follows the pointer by 15% of its distance to
    the centre of the button.  With the pointer inside the rectangle of
    the button the shift is at most 7.5% of the width and of the
    height. *)
Theorem magnetic_offset_bounded (l t w h cx cy : Q) :
  0 <= w -> 0 <= h -> l <= cx <= l + w -> t <= cy <= t + h ->
  exists tx ty : Q,
    magnetic_mousemove (mkDOMRect (Fin l) (Fin t) (Fin w) (Fin h))
                       (Fin cx) (Fin cy) = (Fin tx, Fin ty) /\
    tx == (cx - (l + w * (1 # 2))) * 0.15 /\
    ty == (cy - (t + h * (1 # 2))) * 0.15 /\
    Qabs tx <= 0.075 * w /\ Qabs ty <= 0.075 * h.
Proof.
  intros Hw Hh Hx Hy. unfold magnetic_mousemove.
  cbn [rect_left rect_top rect_width rect_height of_Z sub add neg mul div].
  change (Qsgn (inject_Z 2)) with Gt. cbv iota.
  eexists. eexists. split; [reflexivity |].
  assert (Ex : (cx + - l + - (w / inject_Z 2)) * 0.15
               == (cx - (l + w * (1 # 2))) * 0.15).
  { unfold Qdiv. change (/ inject_Z 2) with (1 # 2). ring. }
  assert (Ey : (cy + - t + - (h / inject_Z 2)) * 0.15
               == (cy - (t + h * (1 # 2))) * 0.15).
  { unfold Qdiv. change (/ inject_Z 2) with (1 # 2). ring. }
  split; [exact Ex |]. split; [exact Ey |].
  split; apply Qabs_Qle_condition; [rewrite Ex | rewrite Ey]; split; lra.
Qed.

Lemma magnetic_offset_bounded_witness :
  exists tx ty : Q,
    magnetic_mousemove (mkDOMRect (Fin 100) (Fin 200) (Fin 80) (Fin 40))
                       (Fin 180) (Fin 220) = (Fin tx, Fin ty) /\
    tx == (180 - (100 + 80 * (1 # 2))) * 0.15 /\
    ty == (220 - (200 + 40 * (1 # 2))) * 0.15 /\
    Qabs tx <= 0.075 * 80 /\ Qabs ty <= 0.075 * 40.
Proof.
  apply (magnetic_offset_bounded 100 200 80 40 180 220); lra.
Defined.

(** A frame of a counter whose start time is set: the progress [p] is the
    share of the 2000 ms that has passed, capped at 1, and the value is
    [endValue] times [1 - (1 - p)^4]. *)
Lemma counter_animate_running (e st t : Q) (c : Counter) :
  startTime c = Some (Fin st) -> ~ st == 0 ->
  exists p v : Q,
    counter_animate (Fin e) (Fin t) c =
      mkCounter (Some (Fin st)) (Fin v)
                (if Qlt_bool v 10 then 1%nat else 0%nat) (Qlt_bool p 1) /\
    (p == (t - st) * (1 # 2000) /\ p <= 1 \/
     p == 1 /\ 1 < (t - st) * (1 # 2000)) /\
    v == e * (1 - (1 - p) * (1 - p) * ((1 - p) * (1 - p))).
Proof.
  intros Hst Hnz. unfold counter_animate. rewrite Hst. cbn [unset].
  assert (Hq : Qeq_bool st 0 = false).
  { destruct (Qeq_bool st 0) eqn:E; [| reflexivity].
    apply Qeq_bool_iff in E. contradiction. }
  rewrite Hq. unfold Math_min, of_Z.
  cbn [sub add neg div]. change (Qsgn (inject_Z 2000)) with Gt.
  cbv iota. cbn [lt].
  assert (Ea : (t + - st) / inject_Z 2000 == (t - st) * (1 # 2000)).
  { unfold Qdiv. change (/ inject_Z 2000) with (1 # 2000). ring. }
  destruct (Qlt_bool (inject_Z 1) ((t + - st) / inject_Z 2000)) eqn:L.
  - apply Qlt_bool_iff in L. rewrite Ea in L.
    cbn [Math_pow add sub neg mul lt].
    eexists. eexists. split; [reflexivity |]. split.
    + right. split; [reflexivity | exact L].
    + unfold inject_Z. ring.
  - apply Qlt_bool_false_iff in L. rewrite Ea in L.
    cbn [Math_pow add sub neg mul lt].
    eexists. eexists. split; [reflexivity |]. split.
    + left. split; [exact Ea | exact L].
    + unfold inject_Z. ring.
Qed.

(** X23: the counter ends on its value and stops.  A frame that comes
    2000 ms or more after the start time computes [endValue] itself as the
    value to show and requests no further frame; a frame that comes at
    most 1999 ms after the start time requests one.  The start time, once
    set to a time other than 0, stays. *)
Theorem counter_ends_on_value (e st t : Q) (c : Counter) :
  startTime c = Some (Fin st) -> ~ st == 0 ->
  startTime (counter_animate (Fin e) (Fin t) c) = Some (Fin st) /\
  (st + 2000 <= t ->
   currentValue (counter_animate (Fin e) (Fin t) c) =n= Fin e /\
   frameRequested (counter_animate (Fin e) (Fin t) c) = false) /\
  (t + 1 <= st + 2000 ->
   frameRequested (counter_animate (Fin e) (Fin t) c) = true).
Proof.
  intros Hst Hnz.
  destruct (counter_animate_running e st t c Hst Hnz) as [p [v [-> [Hp Hv]]]].
  cbn [startTime currentValue frameRequested num_eq].
  split; [reflexivity |]. split.
  - intro Hlate.
    assert (Ep : p == 1).
    { destruct Hp as [[Ep Hle] | [Ep _]]; [| exact Ep]. lra. }
    split.
    + rewrite Hv, Ep. ring.
    + apply Qlt_bool_false_iff. rewrite Ep. apply Qle_refl.
  - intro Hearly. apply Qlt_bool_iff.
    destruct Hp as [[Ep Hle] | [Ep Hgt]]; lra.
Qed.

Lemma counter_ends_on_value_witness :
  let c := mkCounter (Some (Fin 1000)) (of_Z 0) 1 true in
  startTime (counter_animate (Fin 250) (Fin 3000) c) = Some (Fin 1000) /\
  (1000 + 2000 <= 3000 ->
   currentValue (counter_animate (Fin 250) (Fin 3000) c) =n= Fin 250 /\
   frameRequested (counter_animate (Fin 250) (Fin 3000) c) = false) /\
  (3000 + 1 <= 1000 + 2000 ->
   frameRequested (counter_animate (Fin 250) (Fin 3000) c) = true).
Proof.
  intro c.
  apply (counter_ends_on_value 250 1000 3000 c eq_refl).
  intro H. discriminate H.
Defined.

(** X24: the counter never runs backwards and never overshoots.  For an
    [endValue] that is not negative, the value a frame shows is between 0
    and [endValue], and a later frame shows at least the value of an
    earlier one. *)
Theorem counter_grows_to_value (e st t1 t2 : Q) (c : Counter) :
  startTime c = Some (Fin st) -> ~ st == 0 ->
  0 <= e -> st <= t1 -> t1 <= t2 ->
  exists v1 v2 : Q,
    currentValue (counter_animate (Fin e) (Fin t1) c) = Fin v1 /\
    currentValue
      (counter_animate (Fin e) (Fin t2)
         (counter_animate (Fin e) (Fin t1) c)) = Fin v2 /\
    0 <= v1 /\ v1 <= v2 /\ v2 <= e.
Proof.
  intros Hst Hnz He H1 H2.
  destruct (counter_animate_running e st t1 c Hst Hnz)
    as [p1 [v1 [E1 [Hp1 Hv1]]]].
  rewrite E1.
  destruct (counter_animate_running e st t2
              (mkCounter (Some (Fin st)) (Fin v1)
                 (if Qlt_bool v1 10 then 1%nat else 0%nat) (Qlt_bool p1 1))
              eq_refl Hnz) as [p2 [v2 [E2 [Hp2 Hv2]]]].
  rewrite E2. exists v1, v2. cbn [currentValue].
  split; [reflexivity |]. split; [reflexivity |].
  assert (B1 : 0 <= p1 /\ p1 <= 1)
    by (destruct Hp1 as [[Ep Hle] | [Ep _]]; lra).
  assert (B2 : p1 <= p2 /\ p2 <= 1).
  { destruct Hp1 as [[Ep1 Hle1] | [Ep1 Hgt1]],
             Hp2 as [[Ep2 Hle2] | [Ep2 Hgt2]]; lra. }
  set (a1 := 1 - p1) in *. set (a2 := 1 - p2) in *.
  assert (Ha : 0 <= a2 /\ a2 <= a1 /\ a1 <= 1) by (unfold a1, a2; lra).
  assert (S1 : 0 <= a2 * a2 /\ a2 * a2 <= a1 * a1 /\ a1 * a1 <= 1) by nra.
  set (A1 := a1 * a1) in *. set (A2 := a2 * a2) in *.
  assert (S2 : 0 <= A2 * A2 /\ A2 * A2 <= A1 * A1 /\ A1 * A1 <= 1) by nra.
  set (F1 := A1 * A1) in *. set (F2 := A2 * A2) in *.
  rewrite Hv1, Hv2. repeat split; nra.
Qed.

Lemma counter_grows_to_value_witness :
  let c := mkCounter (Some (Fin 1000)) (of_Z 0) 1 true in
  exists v1 v2 : Q,
    currentValue (counter_animate (Fin 250) (Fin 1500) c) = Fin v1 /\
    currentValue
      (counter_animate (Fin 250) (Fin 2000)
         (counter_animate (Fin 250) (Fin 1500) c)) = Fin v2 /\
    0 <= v1 /\ v1 <= v2 /\ v2 <= 250.
Proof.
  intro c.
  apply (counter_grows_to_value 250 1000 1500 2000 c eq_refl);
    [intro H; discriminate H | lra | lra | lra].
Defined.

(** X25: a frame that finds the start time unset is a first frame.  The
    start time is unset while it is [null], and also when it is 0, as
    after a first frame at time 0: such a frame takes its own time as the
    start, shows 0 with one decimal, and requests the next frame. *)
Theorem counter_first_frame (e t : Q) (c : Counter) :
  unset (startTime c) = true ->
  startTime (counter_animate (Fin e) (Fin t) c) = Some (Fin t) /\
  currentValue (counter_animate (Fin e) (Fin t) c) =n= of_Z 0 /\
  decimals (counter_animate (Fin e) (Fin t) c) = 1%nat /\
  frameRequested (counter_animate (Fin e) (Fin t) c) = true.
Proof.
  intro Hu.
  assert (Es : match startTime c with
               | Some st => if unset (startTime c) then Fin t else st
               | None => Fin t
               end = Fin t).
  { destruct (startTime c); [rewrite Hu |]; reflexivity. }
  unfold counter_animate. rewrite Es. unfold Math_min, of_Z.
  cbn [sub add neg div]. change (Qsgn (inject_Z 2000)) with Gt.
  cbv iota. cbn [lt].
  assert (Ep : (t + - t) / inject_Z 2000 == 0).
  { unfold Qdiv. change (/ inject_Z 2000) with (1 # 2000). ring. }
  assert (L : Qlt_bool (inject_Z 1) ((t + - t) / inject_Z 2000) = false).
  { apply Qlt_bool_false_iff. rewrite Ep. unfold inject_Z. lra. }
  rewrite L. cbn [Math_pow add sub neg mul lt of_Z].
  cbn [startTime currentValue decimals frameRequested num_eq].
  set (v := inject_Z 0 + _).
  assert (Ev : v == 0).
  { unfold v. rewrite Ep. unfold inject_Z. ring. }
  assert (Lv : Qlt_bool v (inject_Z 10) = true).
  { apply Qlt_bool_iff. rewrite Ev. unfold inject_Z. lra. }
  rewrite Lv. split; [reflexivity |]. split.
  - rewrite Ev. unfold inject_Z. reflexivity.
  - split; [reflexivity |].
    apply Qlt_bool_iff. rewrite Ep. unfold inject_Z. lra.
Qed.

Lemma counter_first_frame_witness :
  let c := counter_animate (Fin 250) (Fin 0) counter_start in
  startTime c = Some (Fin 0) /\
  startTime (counter_animate (Fin 250) (Fin 16) c) = Some (Fin 16) /\
  currentValue (counter_animate (Fin 250) (Fin 16) c) =n= of_Z 0 /\
  decimals (counter_animate (Fin 250) (Fin 16) c) = 1%nat /\
  frameRequested (counter_animate (Fin 250) (Fin 16) c) = true.
Proof.
  intro c. split; [reflexivity |].
  apply (counter_first_frame 250 16 c eq_refl).
Defined.
